(** * Snapshot guards, convolution nodes and the staged interpreter

    A shallow embedding of
      - torch/csrc/autograd/saved_variable.cpp
      - torch/csrc/autograd/functions/convolution.cpp
      - torch/csrc/jit/interpreter_autograd_function.cpp
    Exceptions are values of [exception]; code that throws returns
    [exception + A].  Shared mutable objects (version blocks, Function
    objects behind shared and weak pointers) live in an explicit [Heap]. *)

From stdpp Require Import base option list gmap strings pretty.
From Stdlib Require Import ZArith Lia Sorted.

Local Open Scope Z_scope.

(** ** Exceptions *)

Inductive exception : Type :=
| runtime_error (what : string)       (* std::runtime_error *)
| logic_error (what : string)         (* std::logic_error *)
| assertion_failure (cond : string)   (* TORCH_ASSERT / JIT_ASSERT *)
| library_error (what : string)       (* raised inside the numeric library *)
| undefined_behaviour (what : string). (* null handle or index out of range *)

Definition result (A : Type) : Type := exception + A.

Definition ret {A} (a : A) : result A := inr a.
Definition throw {A} (e : exception) : result A := inl e.
Definition bind {A B} (m : result A) (k : A -> result B) : result B :=
  match m with
  | inl e => inl e
  | inr a => k a
  end.

Declare Scope result_scope.
Delimit Scope result_scope with result.
Notation "'let!' x := m 'in' k" := (bind m (fun x => k))
  (at level 10, x pattern, m at level 100, k at level 200) : result_scope.
Notation "'check!' m 'in' k" := (bind m (fun _ => k))
  (at level 10, m at level 100, k at level 200) : result_scope.

Definition is_ok {A} (r : result A) : bool :=
  match r with inr _ => true | inl _ => false end.

(** saved_variable.cpp, lines 78-81. *)
Definition ERR_BACKWARD_TWICE : string :=
  "Trying to backward through the graph a second time, but the buffers have " +:+
  "already been freed. Specify retain_graph=True when calling backward " +:+
  "the first time.".

Definition ERR_INPLACE : string :=
  "one of the variables needed for gradient computation has been " +:+
  "modified by an inplace operation".

Definition ERR_NO_GRAD_FN : string := "No grad_fn for non-leaf saved variable".

Definition ERR_NO_ACCUMULATOR : string := "No grad accumulator for a saved leaf!".

(** The error names of the specification, as the exceptions the code throws. *)
Definition ReusedAfterReleaseError : exception := runtime_error ERR_BACKWARD_TWICE.
Definition StaleVersionError : exception := runtime_error ERR_INPLACE.
Definition MissingProducerError : exception := runtime_error ERR_NO_GRAD_FN.
Definition MissingAccumulatorError : exception := logic_error ERR_NO_ACCUMULATOR.

(** ** The heap: version blocks and Function objects *)

Definition block_id := nat.   (* address of a version block *)
Definition fn_id := nat.      (* identity of a Function object *)

(** std::shared_ptr<Function>: [None] is the null pointer. *)
Definition shared_fn := option fn_id.
(** std::weak_ptr<Function>: [None] is the empty weak pointer. *)
Definition weak_fn := option fn_id.

(** An edge of the graph: (node reference, output slot index). *)
Definition Edge : Type := shared_fn * Z.

(** Modelled from the spec: the Function base class (function.h) is not part
    of the sources.  A node holds its ordered list of input edges, the count
    of expected inputs, the per-output execution flags that say whether an
    output is actually needed, and [is_executable]. *)
Record Function : Type := mkFunction {
  next_functions : list Edge;
  num_inputs : Z;
  output_needed : list bool;
  is_executable : bool
}.

(** Modelled from the spec: [should_compute_output(i)] reads the per-output
    execution flag of output [i]. *)
Definition should_compute_output (f : Function) (i : nat) : bool :=
  default false (output_needed f !! i).

Record Heap : Type := mkHeap {
  (** live value of every version block *)
  version_blocks : gmap block_id Z;
  (** address given to the next version block that is created *)
  next_block : block_id;
  (** the Function objects that still have an owner *)
  functions : gmap fn_id Function;
  (** identity given to the next Function object that is created *)
  next_fn : fn_id
}.

Definition set_version_blocks (h : Heap) (vb : gmap block_id Z) : Heap :=
  {| version_blocks := vb; next_block := next_block h;
     functions := functions h; next_fn := next_fn h |}.

Definition set_functions (h : Heap) (fs : gmap fn_id Function) : Heap :=
  {| version_blocks := version_blocks h; next_block := next_block h;
     functions := fs; next_fn := next_fn h |}.

(** A new Function object: it gets the next identity. *)
Definition new_function (h : Heap) (f : Function) : fn_id * Heap :=
  (next_fn h,
   {| version_blocks := version_blocks h; next_block := next_block h;
      functions := <[next_fn h := f]> (functions h);
      next_fn := S (next_fn h) |}).

(** A new version block, with version 0. *)
Definition new_version_block (h : Heap) : block_id * Heap :=
  (next_block h,
   {| version_blocks := <[next_block h := 0]> (version_blocks h);
      next_block := S (next_block h);
      functions := functions h; next_fn := next_fn h |}).

Definition live_version (h : Heap) (b : block_id) : Z :=
  default 0 (version_blocks h !! b).

(** std::weak_ptr::expired. *)
Definition expired (h : Heap) (w : weak_fn) : bool :=
  match w with
  | None => true
  | Some f => bool_decide (functions h !! f = None)
  end.

(** Modelled from the spec: a SavedVersion (variable_version.h is not part of
    the sources) is the version recorded at save time together with the
    shared version block of the value. *)
Record SavedVersion : Type := mkSavedVersion {
  version_at_save : Z;
  version_block : block_id
}.

(** [is_modified]: the version at save no longer matches the live version. *)
Definition is_modified (h : Heap) (s : SavedVersion) : bool :=
  negb (Z.eqb (version_at_save s) (live_version h (version_block s))).

(** ** Value handles *)

Section Values.

(** at::Tensor implementation objects and tracing records are opaque here. *)
Context {TensorImpl ValueTracingState : Type}.

(** at::Tensor: a possibly undefined handle. *)
Definition Tensor : Type := option TensorImpl.

(** Modelled from the spec: the value handle (variable.h is not part of the
    sources): data reference, requires_grad, producing node (present iff the
    value is not a leaf), output index, version counter and the weak
    reference to the gradient accumulator. *)
Record VariableImpl : Type := mkVariableImpl {
  v_data : TensorImpl;
  v_requires_grad : bool;
  v_grad_fn : shared_fn;
  v_output_nr : Z;
  v_version_counter : block_id;
  v_grad_accumulator : weak_fn;
  v_tracing_state : option ValueTracingState
}.

(** The Variable handle of the sources ([Variable] is a reserved word here);
    [None] is the undefined Variable(). *)
Definition Var : Type := option VariableImpl.

Definition defined {A} (x : option A) : bool :=
  match x with Some _ => true | None => false end.

(** A value is a leaf iff it has no producing node. *)
Definition is_leaf (v : VariableImpl) : bool := negb (defined (v_grad_fn v)).

Definition current_version (h : Heap) (v : VariableImpl) : Z :=
  live_version h (v_version_counter v).

Definition save (h : Heap) (v : VariableImpl) : SavedVersion :=
  {| version_at_save := current_version h v;
     version_block := v_version_counter v |}.

(** Modelled from the spec: every in-place mutation of the underlying data
    increments the version of the value (4.1). *)
Definition bump_version (v : VariableImpl) (h : Heap) : Heap :=
  set_version_blocks h
    (<[v_version_counter v := current_version h v + 1]> (version_blocks h)).

Fixpoint mutate_in_place (n : nat) (v : VariableImpl) (h : Heap) : Heap :=
  match n with
  | O => h
  | S n' => mutate_in_place n' v (bump_version v h)
  end.

(** Modelled from the spec: the accumulator sink node of a leaf. *)
Definition AccumulateGrad : Function :=
  {| next_functions := []; num_inputs := 1; output_needed := [];
     is_executable := true |}.

(** Modelled from the spec: [grad_accumulator()] (variable.cpp is not part of
    the sources) hands back an owning pointer to the accumulator sink node
    of a leaf that requires grad, and constructs the node when the weak
    pointer of the value has expired.  The value only keeps a weak pointer;
    values are immutable records here, so the pointer that the call caches
    in the value is not seen by a later call on the same record, which
    constructs a node of its own.  The sources call it on leaves only. *)
Definition Variable_grad_accumulator (v : VariableImpl) (h : Heap)
  : shared_fn * Heap :=
  if v_requires_grad v then
    if expired h (v_grad_accumulator v) then
      let '(a, h') := new_function h AccumulateGrad in (Some a, h')
    else (v_grad_accumulator v, h)
  else (None, h).

(** The end of life of the owning pointer a call handed back, when the
    caller kept no owning copy of it: a node that call created (it did not
    exist [before]) has no owner left and is destroyed. *)
Definition drop_temporary (before : Heap) (p : shared_fn) (after : Heap) : Heap :=
  match p with
  | Some a =>
      if bool_decide (functions before !! a = None)
      then set_functions after (delete a (functions after))
      else after
  | None => after
  end.

(** ** Snapshot guards: saved_variable.cpp *)

Record SavedVariable : Type := mkSavedVariable {
  data : Tensor;
  requires_grad : bool;
  expected_version : Z;
  version : option SavedVersion;
  has_grad_fn : bool;
  output_nr : Z;
  grad_accumulator : weak_fn;
  _grad_fn : shared_fn;
  tracing_state : option ValueTracingState
}.

(** The default-constructed guard (the header is not part of the sources):
    [data] and [version] are undefined; [unpack] reads no other field of it. *)
Definition SavedVariable_empty : SavedVariable :=
  {| data := None; requires_grad := false; expected_version := -1;
     version := None; has_grad_fn := false; output_nr := 0;
     grad_accumulator := None; _grad_fn := None; tracing_state := None |}.

(** SavedVariable::SavedVariable(const Variable&, bool is_output),
    lines 9-29. *)
Definition SavedVariable_new (variable : Var) (is_output : bool) (h : Heap)
  : SavedVariable * Heap :=
  match variable with
  | None => (SavedVariable_empty, h)
  | Some v =>
      let has := negb (is_leaf v) in
      let '(acc, h') :=
        if negb has then
          (* grad_accumulator is a weak pointer: the owning pointer handed
             back by the call is dropped at the end of the assignment *)
          let '(p, h1) := Variable_grad_accumulator v h in
          (p, drop_temporary h p h1)
        else (None, h) in
      ({| data := Some (v_data v);
          requires_grad := v_requires_grad v;
          expected_version := current_version h v;
          version := Some (save h v);
          has_grad_fn := has;
          output_nr := v_output_nr v;
          grad_accumulator := acc;
          _grad_fn := if negb is_output then v_grad_fn v else None;
          tracing_state := v_tracing_state v |}, h')
  end.

(** Modelled from the spec: [make_variable] (variable.h is not part of the
    sources) builds a value handle bound to a producing node, or a fresh leaf.
    The version counter of the new handle is given by the caller, who
    overwrites it right away (line 64). *)
Definition make_variable_fn (h : Heap) (d : TensorImpl) (nr : Z) (fn : fn_id)
    (vc : block_id) : VariableImpl :=
  {| v_data := d;
     v_requires_grad :=
       match functions h !! fn with
       | Some f => is_executable f
       | None => false
       end;
     v_grad_fn := Some fn;
     v_output_nr := nr;
     v_version_counter := vc;
     v_grad_accumulator := None;
     v_tracing_state := None |}.

Definition make_variable_leaf (d : TensorImpl) (rg : bool) (vc : block_id)
  : VariableImpl :=
  {| v_data := d;
     v_requires_grad := rg;
     v_grad_fn := None;
     v_output_nr := 0;
     v_version_counter := vc;
     v_grad_accumulator := None;
     v_tracing_state := None |}.

Definition set_accumulator_and_trace (var : VariableImpl) (acc : weak_fn)
    (ts : option ValueTracingState) : VariableImpl :=
  {| v_data := v_data var;
     v_requires_grad := v_requires_grad var;
     v_grad_fn := v_grad_fn var;
     v_output_nr := v_output_nr var;
     v_version_counter := v_version_counter var;
     v_grad_accumulator := acc;
     v_tracing_state :=
       match ts with Some t => Some t | None => v_tracing_state var end |}.

(** SavedVariable::unpack(std::shared_ptr<Function> saved_for) const,
    lines 31-76.  The method is const: it returns a value or throws, and
    leaves the guard and the heap as they are. *)
Definition unpack (self : SavedVariable) (saved_for : shared_fn) (h : Heap)
  : result Var :=
  match data self with
  | None =>
      if defined (version self) then throw (runtime_error ERR_BACKWARD_TWICE)
      else ret None
  | Some d =>
      match version self with
      | None => throw (undefined_behaviour "version")
      | Some ver =>
          if is_modified h ver then throw (runtime_error ERR_INPLACE)
          else
            (let! grad_fn :=
               (if has_grad_fn self && negb (defined (_grad_fn self)) then
                  if negb (defined saved_for)
                  then throw (runtime_error ERR_NO_GRAD_FN)
                  else ret saved_for
                else ret (_grad_fn self)) in
             let var :=
               match grad_fn with
               | Some fn =>
                   make_variable_fn h d (output_nr self) fn (version_block ver)
               | None =>
                   make_variable_leaf d (requires_grad self) (version_block ver)
               end in
             if requires_grad self && negb (defined (v_grad_fn var))
                && expired h (grad_accumulator self)
             then throw (logic_error ERR_NO_ACCUMULATOR)
             else ret (Some (set_accumulator_and_trace var
                               (grad_accumulator self) (tracing_state self))))%result
      end
  end.

(** What the releaseVariables methods do to one guard: [data.reset()]. *)
Definition data_reset (s : SavedVariable) : SavedVariable :=
  {| data := None;
     requires_grad := requires_grad s;
     expected_version := expected_version s;
     version := version s;
     has_grad_fn := has_grad_fn s;
     output_nr := output_nr s;
     grad_accumulator := grad_accumulator s;
     _grad_fn := _grad_fn s;
     tracing_state := tracing_state s |}.

End Values.

Arguments Tensor : clear implicits.
Arguments VariableImpl : clear implicits.
Arguments Var : clear implicits.
Arguments SavedVariable : clear implicits.

(** ** The numeric library (ATen, cuDNN, NNPACK): an external collaborator

    The kernels are not part of the sources.  A call is recorded as a value
    that lists its arguments as the source passes them; the library is an
    interpretation of calls ([NumericLibrary]).  Every function of
    convolution.cpp is written once, over an arbitrary library. *)

Inductive Backend : Type := kCPU | kCUDA.
Inductive ScalarType : Type :=
  kByte | kChar | kShort | kInt | kLong | kHalf | kFloat | kDouble.

(** at::Type, identified by its TypeID (backend and scalar type). *)
Record TensorType : Type := mkTensorType {
  backend : Backend;
  scalarType : ScalarType
}.

Global Instance Backend_eq_dec : EqDecision Backend.
Proof. solve_decision. Defined.
Global Instance ScalarType_eq_dec : EqDecision ScalarType.
Proof. solve_decision. Defined.
Global Instance TensorType_eq_dec : EqDecision TensorType.
Proof. solve_decision. Defined.

Definition isCuda (ty : TensorType) : bool := bool_decide (backend ty = kCUDA).
Definition CPUFloat : TensorType := {| backend := kCPU; scalarType := kFloat |}.

Definition output_mask3 : Type := bool * bool * bool.

Definition mask_bit (m : output_mask3) (i : nat) : bool :=
  let '(m0, m1, m2) := m in
  match i with
  | O => m0
  | S O => m1
  | S (S O) => m2
  | _ => false
  end.

Section Calls.

Context {T C : Type}.

(** Kernels that return the output of a convolution. *)
Inductive ForwardKernel : Type :=
| conv_depthwise2d_forward (input weight : T) (kernel_size : list Z)
    (bias : option T) (stride padding dilation : list Z)
| conv_transpose2d_forward (input weight : T) (kernel_size : list Z)
    (bias : option T) (stride padding output_padding dilation : list Z)
    (columns ones : option T)
| conv_transpose3d_forward (input weight : T)
    (bias : option T) (stride padding output_padding dilation : list Z)
    (columns ones : option T)
| conv_dilated2d_forward (input weight : T) (kernel_size : list Z)
    (bias : option T) (stride padding dilation : list Z)
    (columns ones : option T)
| nnpack_SpatialConvolution_updateOutput (input output weight : T)
    (bias : option T) (kW kH padW padH : Z)
| conv2d_forward (input weight : T) (kernel_size : list Z)
    (bias : option T) (stride padding : list Z) (columns ones : option T)
| conv_dilated3d_forward (input weight : T) (kernel_size : list Z)
    (bias : option T) (stride padding dilation : list Z)
    (columns ones : option T)
| conv3d_forward (input weight : T) (kernel_size : list Z)
    (bias : option T) (stride padding : list Z) (columns : option T).

(** The two cuDNN entry points that also create the Convolution descriptor. *)
Inductive CudnnFullForward : Type :=
| cudnn_convolution_full_forward (input weight : T) (bias : option T)
    (output : T) (padding stride dilation : list Z) (groups : Z)
    (benchmark deterministic : bool)
| cudnn_convolution_transpose_full_forward (input weight : T) (bias : option T)
    (output : T) (padding stride dilation : list Z) (groups : Z)
    (benchmark deterministic : bool).

(** Kernels that take the output mask and return up to three gradients. *)
Inductive BackwardKernel : Type :=
| conv_transpose2d_backward (grad_output input weight : T)
    (kernel_size stride padding output_padding dilation : list Z)
    (columns ones : option T) (output_mask : output_mask3)
| conv_transpose3d_backward (grad_output input weight : T)
    (stride padding output_padding dilation : list Z)
    (columns ones : option T) (output_mask : output_mask3)
| conv_dilated2d_backward (grad_output input weight : T)
    (kernel_size stride padding dilation : list Z)
    (columns ones : option T) (output_mask : output_mask3)
| conv2d_backward (grad_output input weight : T)
    (kernel_size stride padding : list Z)
    (columns ones : option T) (output_mask : output_mask3)
| conv_dilated3d_backward (grad_output input weight : T)
    (kernel_size stride padding dilation : list Z)
    (columns ones : option T) (output_mask : output_mask3)
| conv3d_backward (grad_output input weight : T)
    (kernel_size stride padding : list Z)
    (columns ones : option T) (output_mask : output_mask3).

(** at::conv_depthwise2d_backward: a two-bit mask, two gradients. *)
Inductive DepthwiseBackward : Type :=
| conv_depthwise2d_backward (grad_output input weight : T)
    (kernel_size stride padding dilation : list Z) (output_mask : bool * bool).

(** Routines that compute exactly one gradient. *)
Inductive GradientKernel : Type :=
| cudnn_convolution_forward (grad_output weight grad_input : T)
    (convolution : option C) (benchmark deterministic : bool)
| cudnn_convolution_backward_data (grad_output grad_input weight : T)
    (convolution : option C) (benchmark deterministic : bool)
| cudnn_convolution_backward_filter (grad_output input grad_weight : T)
    (convolution : option C) (benchmark deterministic : bool)
| cudnn_convolution_backward_bias (grad_output grad_bias : T)
    (convolution : option C)
| nnpack_SpatialConvolution_updateGradInput (input grad_output grad_input weight : T)
    (kW kH padW padH : Z)
| nnpack_SpatialConvolution_accGradWeight (input grad_output grad_weight : T)
    (kW kH padW padH : Z)
| sum_dim (self : T) (dim : Z).

(** One entry of the record of library calls. *)
Inductive Call : Type :=
| CallForward (k : ForwardKernel)
| CallCudnnFull (k : CudnnFullForward)
| CallBackward (k : BackwardKernel)
| CallDepthwiseBackward (k : DepthwiseBackward)
| CallGradient (k : GradientKernel)
| CallCat (tensors : list (option T)) (dim : Z).

End Calls.

Arguments ForwardKernel : clear implicits.
Arguments CudnnFullForward : clear implicits.
Arguments BackwardKernel : clear implicits.
Arguments DepthwiseBackward : clear implicits.
Arguments GradientKernel : clear implicits.
Arguments Call : clear implicits.

Class NumericLibrary : Type := {
  TensorImpl : Type;
  Convolution : Type;
  ValueTracingState : Type;
  (* shape and type queries *)
  sizes : TensorImpl -> list Z;
  type : TensorImpl -> TensorType;
  (* views and copies *)
  contiguous : TensorImpl -> TensorImpl;
  unsqueeze : TensorImpl -> Z -> TensorImpl;
  squeeze : TensorImpl -> Z -> TensorImpl;
  narrow : TensorImpl -> Z -> Z -> Z -> TensorImpl;
  transpose : TensorImpl -> Z -> Z -> TensorImpl;
  view : TensorImpl -> list Z -> TensorImpl;
  (* allocation *)
  type_tensor : TensorType -> TensorImpl;
  type_tensor_sized : TensorType -> list Z -> TensorImpl;
  type_zeros : TensorType -> list Z -> TensorImpl;
  resize_ : TensorImpl -> list Z -> TensorImpl;
  zero_ : TensorImpl -> TensorImpl;
  (* kernels *)
  run_forward : ForwardKernel TensorImpl -> result TensorImpl;
  run_cudnn_full : CudnnFullForward TensorImpl -> result (TensorImpl * Convolution);
  run_backward :
    BackwardKernel TensorImpl ->
    result (Tensor TensorImpl * Tensor TensorImpl * Tensor TensorImpl);
  run_depthwise_backward :
    DepthwiseBackward TensorImpl ->
    result (Tensor TensorImpl * Tensor TensorImpl);
  run_gradient : GradientKernel TensorImpl Convolution -> result TensorImpl;
  cat_out : TensorImpl -> list (Tensor TensorImpl) -> Z -> result TensorImpl
}.

(** Build-time configuration: the preprocessor symbols the sources test, and
    the compute capability of the current device. *)
Record BuildConfig : Type := mkBuildConfig {
  WITH_CUDNN : bool;
  WITH_NNPACK : bool;
  CUDNN_VERSION : Z;
  device_major : Z
}.

(** ** convolution.cpp *)

Record ConvParams : Type := mkConvParams {
  stride : list Z;
  padding : list Z;
  dilation : list Z;
  transposed : bool;
  output_padding : list Z;
  groups : Z;
  benchmark : bool;
  deterministic : bool;
  cudnn_enabled : bool
}.

(** The conversion of a 64-bit value to [int]: the value modulo 2^32 in the
    range of [int].  The entries of the parameter vectors are [int]s; the
    sizes of tensors and the arithmetic on them are 64-bit, taken here
    without overflow. *)
Definition to_int (x : Z) : Z := (x + 2 ^ 31) `mod` 2 ^ 32 - 2 ^ 31.

(** [out << sizes]: the entries between brackets, separated by a comma and
    a space. *)
Fixpoint show_entries (l : list Z) : string :=
  match l with
  | [] => ""
  | [x] => pretty x
  | x :: rest => pretty x +:+ ", " +:+ show_entries rest
  end.

Definition show_sizes (l : list Z) : string := "[" +:+ show_entries l +:+ "]".

(** The loops [for (int s : v) flag |= test(s)]. *)
Definition any_entry (test : Z -> bool) (v : list Z) : bool :=
  fold_left (fun flag s => flag || test s) v false.

Definition is_strided (p : ConvParams) : bool :=
  any_entry (fun s => negb (Z.eqb s 1)) (stride p).

Definition is_dilated (p : ConvParams) : bool :=
  any_entry (fun d => negb (Z.eqb d 1)) (dilation p).

Definition is_padded (p : ConvParams) : bool :=
  any_entry (fun x => negb (Z.eqb x 0)) (padding p).

Definition is_output_padding_neg (p : ConvParams) : bool :=
  any_entry (fun x => Z.ltb x 0) (output_padding p).

Definition is_padding_neg (p : ConvParams) : bool :=
  any_entry (fun x => Z.ltb x 0) (padding p).

(** [output_padding[i] >= stride[i] || output_padding[i] >= dilation[i]] for
    every index of output_padding.  The three vectors have one entry per
    spatial dimension; an index past the end of [stride] or [dilation] is
    undefined in the source and reads 0 here. *)
Definition is_output_padding_big (p : ConvParams) : bool :=
  fold_left
    (fun flag i =>
       flag || (Z.geb (nth i (output_padding p) 0) (nth i (stride p) 0)
                || Z.geb (nth i (output_padding p) 0) (nth i (dilation p) 0)))
    (seq 0 (length (output_padding p))) false.

Definition view1d_as_2d (p : ConvParams) : ConvParams :=
  if Nat.eqb (length (stride p)) 1 then
    {| stride := 1 :: stride p;
       padding := 0 :: padding p;
       dilation := 1 :: dilation p;
       transposed := transposed p;
       output_padding := 0 :: output_padding p;
       groups := groups p;
       benchmark := benchmark p;
       deterministic := deterministic p;
       cudnn_enabled := cudnn_enabled p |}
  else p.

Definition with_groups (p : ConvParams) (g : Z) : ConvParams :=
  {| stride := stride p;
     padding := padding p;
     dilation := dilation p;
     transposed := transposed p;
     output_padding := output_padding p;
     groups := g;
     benchmark := benchmark p;
     deterministic := deterministic p;
     cudnn_enabled := cudnn_enabled p |}.

Section Convolution.

Context {L : NumericLibrary} (cfg : BuildConfig).

Abbreviation tensor := (Tensor TensorImpl).
Abbreviation call := (Call TensorImpl Convolution).
Abbreviation var := (Var TensorImpl ValueTracingState).
Abbreviation saved_variable := (SavedVariable TensorImpl ValueTracingState).

(** Code that calls into the library: it may throw, and it appends to the
    record of library calls.  The record survives an exception. *)
Definition Lib (A : Type) : Type := list call -> result A * list call.

Definition lret {A} (a : A) : Lib A := fun log => (inr a, log).
Definition lthrow {A} (e : exception) : Lib A := fun log => (inl e, log).
Definition lift {A} (r : result A) : Lib A := fun log => (r, log).
Definition lbind {A B} (m : Lib A) (k : A -> Lib B) : Lib B :=
  fun log =>
    match m log with
    | (inl e, log') => (inl e, log')
    | (inr a, log') => k a log'
    end.

Definition invoke {A} (c : call) (r : result A) : Lib A :=
  fun log => (r, log ++ [c]).

Definition call_forward (k : ForwardKernel TensorImpl) : Lib TensorImpl :=
  invoke (CallForward k) (run_forward k).
Definition call_cudnn_full (k : CudnnFullForward TensorImpl)
  : Lib (TensorImpl * Convolution) :=
  invoke (CallCudnnFull k) (run_cudnn_full k).
Definition call_backward (k : BackwardKernel TensorImpl)
  : Lib (tensor * tensor * tensor) :=
  invoke (CallBackward k) (run_backward k).
Definition call_depthwise_backward (k : DepthwiseBackward TensorImpl)
  : Lib (tensor * tensor) :=
  invoke (CallDepthwiseBackward k) (run_depthwise_backward k).
Definition call_gradient (k : GradientKernel TensorImpl Convolution)
  : Lib TensorImpl :=
  invoke (CallGradient k) (run_gradient k).

Declare Scope lib_scope.
Delimit Scope lib_scope with lib.
Notation "'let!' x := m 'in' k" := (lbind m (fun x => k))
  (at level 10, x pattern, m at level 100, k at level 200) : lib_scope.
Notation "'check!' m 'in' k" := (lbind m (fun _ => k))
  (at level 10, m at level 100, k at level 200) : lib_scope.
Local Open Scope lib_scope.

(** [for (int g = 0; g < groups; ++g) out[g] = body(g)]. *)
Fixpoint for_each {A} (gs : list Z) (body : Z -> Lib A) : Lib (list A) :=
  match gs with
  | [] => lret []
  | g :: gs' =>
      let! x := body g in
      let! xs := for_each gs' body in
      lret (x :: xs)
  end.

(** Access through a handle that has to be defined. *)
Definition deref {A} (what : string) (x : option A) : Lib A :=
  match x with
  | Some a => lret a
  | None => lthrow (undefined_behaviour what)
  end.

Definition ndimension (t : TensorImpl) : Z := Z.of_nat (length (sizes t)).

(** [tensor.size(d)] and [sizes()[d]] where the dimension exists: behind a
    test of ndimension() or after check_input_shape_forward has read it.  An
    index past the end reads 0 here; [size_at] below is the call that
    throws. *)
Definition size (t : TensorImpl) (d : nat) : Z := nth d (sizes t) 0.

Definition use_cudnn (p : ConvParams) (input : TensorImpl) : bool :=
  if WITH_CUDNN cfg then
    if negb (isCuda (type input)) || negb (cudnn_enabled p) then false
    else if deterministic p && is_dilated p then false
    else if is_dilated p then
      (Z.geb (CUDNN_VERSION cfg) 6021
       || (Z.geb (CUDNN_VERSION cfg) 6000 && Z.geb (device_major cfg) 5))
      && negb (is_output_padding_big p)
    else negb (is_output_padding_big p)
  else false.

Definition use_nnpack (p : ConvParams) (input : TensorImpl) : bool :=
  if WITH_NNPACK cfg then
    bool_decide (type input = CPUFloat)
    && negb (is_strided p)
    && negb (is_dilated p)
    && negb (transposed p)
    && Z.eqb (ndimension input) 4
    && Z.geb (size input 0) 16
  else false.

Definition is_depthwise (p : ConvParams) (input weight : TensorImpl) (groups : Z)
  : bool :=
  isCuda (type input)
  && negb (transposed p)
  && Z.eqb (ndimension input) 4
  && Z.eqb (size input 1) groups
  && Z.gtb groups 1
  && Z.eqb (Z.rem (size weight 0) (size input 1)) 0.

(** ConvForward::output_size, lines 145-163; [kernel] is an [int]. *)
Definition output_size (p : ConvParams) (input weight : TensorImpl) : list Z :=
  let in_size := sizes input in
  let weight_size := sizes weight in
  let dim := length in_size in
  nth 0 in_size 0
  :: (if transposed p then nth 1 weight_size 0 * groups p else nth 0 weight_size 0)
  :: map (fun d =>
            let kernel :=
              to_int (nth (d - 2) (dilation p) 0 * (nth d weight_size 0 - 1) + 1) in
            if transposed p then
              (nth d in_size 0 - 1) * nth (d - 2) (stride p) 0
              - 2 * nth (d - 2) (padding p) 0
              + kernel + nth (d - 2) (output_padding p) 0
            else
              Z.quot (nth d in_size 0 + 2 * nth (d - 2) (padding p) 0 - kernel)
                     (nth (d - 2) (stride p) 0) + 1)
         (seq 2 (dim - 2)).

Definition view4d (t : TensorImpl) : Lib TensorImpl :=
  if negb (Z.eqb (ndimension t) 3) then lthrow (runtime_error "expected 3D tensor")
  else lret (unsqueeze t 2).

Definition view3d (t : TensorImpl) : Lib TensorImpl :=
  if negb (Z.eqb (ndimension t) 4) then lthrow (runtime_error "expected 4D tensor")
  else lret (squeeze t 2).

(** [tensor.size(d)]: a dimension that the tensor does not have makes the
    tensor library throw. *)
Definition size_at (t : TensorImpl) (d : nat) : Lib Z :=
  match sizes t !! d with
  | Some n => lret n
  | None => lthrow (library_error "dimension out of range")
  end.

(** check_input_shape_forward, lines 175-228. *)
Definition check_input_shape_forward (input weight : TensorImpl) (bias : tensor)
    (groups : Z) (transposed : bool) : Lib unit :=
  let k := ndimension input in
  if negb (Z.eqb (ndimension weight) k) then
    lthrow (runtime_error
              ("Expected " +:+ pretty k +:+ "-dimensional input for " +:+ pretty k +:+
               "-dimensional weight " +:+ show_sizes (sizes weight) +:+
               ", but got input of size " +:+ show_sizes (sizes input) +:+ " instead"))
  else
    let! weight0 := size_at weight 0 in
    if Z.ltb weight0 groups then
      lthrow (runtime_error
                ("Given groups=" +:+ pretty groups +:+
                 ", expected weight to be at least " +:+ pretty groups +:+
                 " at dimension 0, but got weight of size " +:+
                 show_sizes (sizes weight) +:+ " instead"))
    else if negb transposed then
      let! input1 := size_at input 1 in
      let! weight1 := size_at weight 1 in
      if negb (Z.eqb input1 (weight1 * groups)) then
        lthrow (runtime_error
                  ("Given groups=" +:+ pretty groups +:+ ", weight" +:+
                   show_sizes (sizes weight) +:+ ", so expected input" +:+
                   show_sizes (sizes input) +:+ " to have " +:+
                   pretty (weight1 * groups) +:+ " channels, but got " +:+
                   pretty input1 +:+ " channels instead"))
      else
        match bias with
        | Some b =>
            if negb (Z.eqb (ndimension b) 1) || negb (Z.eqb (size b 0) weight0)
            then lthrow (runtime_error
                           ("Given weight of size " +:+ show_sizes (sizes weight) +:+
                            ", expected bias to be 1-dimensional with " +:+
                            pretty weight0 +:+ " elements" +:+
                            ", but got bias of size " +:+ show_sizes (sizes b) +:+
                            " instead"))
            else lret tt
        | None => lret tt
        end
    else
      let! input1 := size_at input 1 in
      if negb (Z.eqb input1 weight0) then
        lthrow (runtime_error
                  ("Given transposed=1, weight" +:+ show_sizes (sizes weight) +:+
                   ", so expected input" +:+ show_sizes (sizes input) +:+
                   " to have " +:+ pretty weight0 +:+ " channels, but got " +:+
                   pretty input1 +:+ " channels instead"))
      else
        let! weight1 := size_at weight 1 in
        match bias with
        | Some b =>
            if negb (Z.eqb (ndimension b) 1)
               || negb (Z.eqb (size b 0) (weight1 * groups))
            then lthrow (runtime_error
                           ("Given transposed=1, weight of size " +:+
                            show_sizes (sizes weight) +:+
                            ", expected bias to be 1-dimensional with " +:+
                            pretty (weight1 * groups) +:+ " elements" +:+
                            ", but got bias of size " +:+ show_sizes (sizes b) +:+
                            " instead"))
            else lret tt
        | None => lret tt
        end.

(** subtensor, lines 230-236. *)
Definition subtensor (t : tensor) (dim : nat) (groups g : Z) : tensor :=
  match t with
  | None => None
  | Some x =>
      let n := Z.quot (size x dim) groups in
      Some (contiguous (narrow x (Z.of_nat dim) (n * g) n))
  end.

(** cat, lines 252-261. *)
Definition cat (tensors : list tensor) (dim : Z) : Lib tensor :=
  match tensors with
  | [] => lret None
  | first :: _ =>
      let! t0 := deref "tensors[0]" first in
      let output := type_tensor (type t0) in
      let! r := invoke (CallCat tensors dim) (cat_out output tensors dim) in
      lret (Some r)
  end.

(** compute_output, lines 716-786. *)
Definition compute_output (input weight bias columns ones : tensor)
    (params : ConvParams) : Lib TensorImpl :=
  let! i := deref "input" input in
  let! w := deref "weight" weight in
  let dim := ndimension i in
  let dilated := is_dilated params in
  let kernel_size := drop 2 (sizes w) in
  if transposed params then
    if Z.eqb dim 4 then
      call_forward (conv_transpose2d_forward i w kernel_size bias
                      (stride params) (padding params) (output_padding params)
                      (dilation params) columns ones)
    else if Z.eqb dim 5 then
      call_forward (conv_transpose3d_forward i w bias
                      (stride params) (padding params) (output_padding params)
                      (dilation params) columns ones)
    else lthrow (runtime_error "unsupported ConvNd parameters")
  else
    if Z.eqb dim 4 then
      if dilated then
        call_forward (conv_dilated2d_forward i w kernel_size bias
                        (stride params) (padding params) (dilation params)
                        columns ones)
      else if use_nnpack params i then
        if WITH_NNPACK cfg then
          let output := type_tensor_sized (type i) (output_size params i w) in
          call_forward (nnpack_SpatialConvolution_updateOutput i output w bias
                          (nth 1 kernel_size 0) (nth 0 kernel_size 0)
                          (nth 1 (padding params) 0) (nth 0 (padding params) 0))
        else lthrow (runtime_error "unsupported ConvNd parameters")
      else
        call_forward (conv2d_forward i w kernel_size bias
                        (stride params) (padding params) columns ones)
    else if Z.eqb dim 5 && (isCuda (type i) || dilated) then
      call_forward (conv_dilated3d_forward i w kernel_size bias
                      (stride params) (padding params) (dilation params)
                      columns ones)
    else if Z.eqb dim 5 then
      call_forward (conv3d_forward i w kernel_size bias
                      (stride params) (padding params) columns)
    else lthrow (runtime_error "unsupported ConvNd parameters").

(** Modelled from the spec: [check_input_variables] (functions/utils.cpp is
    not part of the sources) validates the arity of a node's inputs and that
    the required leading ones are defined (4.3 a). *)
Definition check_input_variables (name : string) (inputs : list var)
    (args required_args : nat) : Lib unit :=
  if negb (Nat.eqb (length inputs) args) then
    lthrow (runtime_error (name +:+ ": wrong number of arguments"))
  else if forallb defined (take required_args inputs) then lret tt
  else lthrow (runtime_error (name +:+ ": expected Variable argument (got None)")).

(** [inputs[i].opt_data()]: the data of a defined value, else no tensor. *)
Definition opt_data (v : option var) : tensor :=
  match v with
  | Some (Some impl) => Some (v_data impl)
  | _ => None
  end.

(** What the forward leaves behind for its backward node. *)
Record ConvCtx : Type := mkConvCtx {
  columns : list tensor;
  ones : list tensor;
  convolution : option Convolution
}.

(** The three-way choice of ConvForward::apply, lines 286-350, on the
    checked and reshaped tensors. *)
Definition ConvForward_dispatch (self : ConvParams) (input weight : TensorImpl)
    (bias : tensor) : Lib (tensor * ConvCtx) :=
  if Z.ltb (groups self) 0 then lthrow (logic_error "std::length_error") else
  let ngroups := Z.to_nat (groups self) in
  let columns0 : list tensor := replicate ngroups None in
  let ones0 : list tensor := replicate ngroups None in
  if is_depthwise self input weight (groups self) then
    let kernel_size := drop 2 (sizes weight) in
    let! output :=
      call_forward (conv_depthwise2d_forward input weight kernel_size bias
                      (stride self) (padding self) (dilation self)) in
    lret (Some output, mkConvCtx columns0 ones0 None)
  else if use_cudnn self input then
    if WITH_CUDNN cfg then
      if negb (bool_decide (type input = type weight)) then
        lthrow (runtime_error "Input type and weight type should be the same")
      else if match bias with
              | Some b => negb (bool_decide (type input = type b))
              | None => false
              end then
        lthrow (runtime_error "Input type and bias type should be the same")
      else
        let output := resize_ (type_tensor (type input)) (output_size self input weight) in
        let! (out, conv) :=
          call_cudnn_full
            (if transposed self then
               cudnn_convolution_transpose_full_forward input weight bias output
                 (padding self) (stride self) (dilation self) (groups self)
                 (benchmark self) (deterministic self)
             else
               cudnn_convolution_full_forward input weight bias output
                 (padding self) (stride self) (dilation self) (groups self)
                 (benchmark self) (deterministic self)) in
        lret (Some out, mkConvCtx columns0 ones0 (Some conv))
    else lret (Some (type_tensor (type input)), mkConvCtx columns0 ones0 None)
  else
    let columns1 : list tensor := replicate ngroups (Some (type_tensor (type input))) in
    let ones1 : list tensor := replicate ngroups (Some (type_tensor (type input))) in
    if Z.eqb (groups self) 1 then
      let! output :=
        compute_output (Some input) (Some weight) bias
          (default None (columns1 !! 0%nat)) (default None (ones1 !! 0%nat)) self in
      lret (Some output, mkConvCtx columns1 ones1 None)
    else
      let! outputs :=
        for_each (seqZ 0 (groups self))
          (fun g =>
             let input_g := subtensor (Some input) 1 (groups self) g in
             let weight_g := subtensor (Some weight) 0 (groups self) g in
             let bias_g := subtensor bias 0 (groups self) g in
             let! o := compute_output input_g weight_g bias_g
                         (default None (columns1 !! Z.to_nat g))
                         (default None (ones1 !! Z.to_nat g)) self in
             lret (Some o)) in
      let! output := cat outputs 1 in
      lret (output, mkConvCtx columns1 ones1 None).

(** ConvForward::apply, lines 265-363, up to the tensors it hands to
    [wrap_outputs] (functions/utils.h is not part of the sources): the
    parameters as [view1d_as_2d] leaves them, the output tensor and the
    context of the backward node. *)
Definition ConvForward_apply (self : ConvParams) (inputs : list var)
  : Lib (ConvParams * tensor * ConvCtx) :=
  check! check_input_variables "ConvNd" inputs 3 2 in
  if is_padding_neg self then
    lthrow (runtime_error "negative padding is not supported")
  else if is_output_padding_neg self then
    lthrow (runtime_error "negative output_padding is not supported")
  else
    let! input0 := deref "inputs[0]" (opt_data (inputs !! 0%nat)) in
    let input0 := contiguous input0 in
    let! weight0 := deref "inputs[1]" (opt_data (inputs !! 1%nat)) in
    let bias := opt_data (inputs !! 2%nat) in
    check! check_input_shape_forward input0 weight0 bias (groups self) (transposed self) in
    let k := ndimension input0 in
    let! (self1, input, weight) :=
      (if Z.eqb k 3 then
         let! i4 := view4d input0 in
         let! w4 := view4d weight0 in
         lret (view1d_as_2d self, i4, w4)
       else lret (self, input0, weight0)) in
    let! (output, ctx) := ConvForward_dispatch self1 input weight bias in
    let! output :=
      (if Z.eqb k 3 then
         let! o := deref "output" output in
         let! o3 := view3d o in
         lret (Some o3)
       else lret output) in
    lret (self1, output, ctx).

(** compute_grad_bias, lines 367-372. *)
Definition compute_grad_bias (grad_output : TensorImpl) : Lib TensorImpl :=
  let transposed := contiguous (transpose grad_output 0 1) in
  call_gradient (sum_dim (view transposed [size transposed 0; -1]) 1).

(** compute_backward, lines 788-879. *)
Definition compute_backward (input grad_output weight columns ones : tensor)
    (params : ConvParams) (output_mask : output_mask3)
  : Lib (tensor * tensor * tensor) :=
  let! w := deref "weight" weight in
  let kernel_size := drop 2 (sizes w) in
  let! i := deref "input" input in
  let! go := deref "grad_output" grad_output in
  let dim := ndimension i in
  let dilated := is_dilated params in
  if transposed params then
    if Z.eqb dim 4 then
      call_backward (conv_transpose2d_backward go i w kernel_size
                       (stride params) (padding params) (output_padding params)
                       (dilation params) columns ones output_mask)
    else if Z.eqb dim 5 then
      call_backward (conv_transpose3d_backward go i w
                       (stride params) (padding params) (output_padding params)
                       (dilation params) columns ones output_mask)
    else lthrow (runtime_error "unsupported ConvNdBackward parameters")
  else
    if Z.eqb dim 4 then
      if dilated then
        call_backward (conv_dilated2d_backward go i w kernel_size
                         (stride params) (padding params) (dilation params)
                         columns ones output_mask)
      else if use_nnpack params i then
        if WITH_NNPACK cfg then
          let kW := nth 1 kernel_size 0 in
          let kH := nth 0 kernel_size 0 in
          let padW := nth 1 (padding params) 0 in
          let padH := nth 0 (padding params) 0 in
          let! grad_input :=
            (if mask_bit output_mask 0 then
               let gi := type_tensor_sized (type i) (sizes i) in
               let! r := call_gradient
                           (nnpack_SpatialConvolution_updateGradInput i go gi w
                              kW kH padW padH) in
               lret (Some r)
             else lret None) in
          let! grad_weight :=
            (if mask_bit output_mask 1 then
               let gw := zero_ (type_tensor_sized (type w) (sizes w)) in
               let! r := call_gradient
                           (nnpack_SpatialConvolution_accGradWeight i go gw
                              kW kH padW padH) in
               lret (Some r)
             else lret None) in
          let! grad_bias :=
            (if mask_bit output_mask 2 then
               let! r := compute_grad_bias go in
               lret (Some r)
             else lret None) in
          lret (grad_input, grad_weight, grad_bias)
        else lthrow (runtime_error "unsupported ConvNdBackward parameters")
      else
        call_backward (conv2d_backward go i w kernel_size
                         (stride params) (padding params)
                         columns ones output_mask)
    else if Z.eqb dim 5 && (isCuda (type i) || dilated) then
      call_backward (conv_dilated3d_backward go i w kernel_size
                       (stride params) (padding params) (dilation params)
                       columns ones output_mask)
    else if Z.eqb dim 5 then
      call_backward (conv3d_backward go i w kernel_size
                       (stride params) (padding params)
                       columns ones output_mask)
    else lthrow (runtime_error "unsupported ConvNdBackward parameters").

(** A ConvBackward node: the Function base, the parameters and the context
    copied from the forward, and the three guards. *)
Record ConvBackward : Type := mkConvBackward {
  cb_function : Function;
  cb_params : ConvParams;
  cb_ctx : ConvCtx;
  input_ : saved_variable;
  weight_ : saved_variable;
  bias_ : saved_variable
}.

(** The output mask of ConvBackward::apply, lines 410-414. *)
Definition ConvBackward_output_mask (self : ConvBackward) (bias : tensor)
  : output_mask3 :=
  (should_compute_output (cb_function self) 0,
   should_compute_output (cb_function self) 1,
   should_compute_output (cb_function self) 2 && defined bias).

(** The choice of kernels in ConvBackward::apply, lines 416-494. *)
Definition ConvBackward_dispatch (self : ConvBackward)
    (input weight grad_output : TensorImpl) (bias : tensor)
    (output_mask : output_mask3) : Lib (tensor * tensor * tensor) :=
  let params := cb_params self in
  let use_depthwise := is_depthwise params input weight (groups params) in
  let use_cudnn := use_cudnn params input in
  if use_depthwise then
    let! (grad_input, grad_weight) :=
      (if mask_bit output_mask 0 || mask_bit output_mask 1 then
         let kernel_size := drop 2 (sizes weight) in
         call_depthwise_backward
           (conv_depthwise2d_backward grad_output input weight kernel_size
              (stride params) (padding params) (dilation params)
              (mask_bit output_mask 0, mask_bit output_mask 1))
       else lret (None, None)) in
    let! grad_bias :=
      (if mask_bit output_mask 2 then
         let! r := compute_grad_bias grad_output in lret (Some r)
       else lret None) in
    lret (grad_input, grad_weight, grad_bias)
  else if use_cudnn then
    if WITH_CUDNN cfg then
      let conv := convolution (cb_ctx self) in
      let! grad_input :=
        (if mask_bit output_mask 0 then
           let gi := resize_ (type_tensor (type input)) (sizes input) in
           let! r :=
             call_gradient
               (if transposed params then
                  cudnn_convolution_forward grad_output weight gi conv
                    (benchmark params) (deterministic params)
                else
                  cudnn_convolution_backward_data grad_output gi weight conv
                    (benchmark params) (deterministic params)) in
           lret (Some r)
         else lret None) in
      let! (grad_weight, grad_bias) :=
        (if mask_bit output_mask 1 || mask_bit output_mask 2 then
           let gw := resize_ (type_tensor (type weight)) (sizes weight) in
           let! rw :=
             call_gradient
               (cudnn_convolution_backward_filter grad_output input gw conv
                  (benchmark params) (deterministic params)) in
           let! grad_bias :=
             (if mask_bit output_mask 2 then
                let! b := deref "bias" bias in
                let gb := resize_ (type_tensor (type b)) (sizes b) in
                let! rb :=
                  call_gradient
                    (cudnn_convolution_backward_bias grad_output gb conv) in
                lret (Some rb)
              else lret None) in
           lret (Some rw, grad_bias)
         else lret (None, None)) in
      lret (grad_input, grad_weight, grad_bias)
    else lret (None, None, None)
  else if Z.eqb (groups params) 1 then
    compute_backward (Some input) (Some grad_output) (Some weight)
      (default None (columns (cb_ctx self) !! 0%nat))
      (default None (ones (cb_ctx self) !! 0%nat))
      params output_mask
  else
    if Z.ltb (groups params) 0 then lthrow (logic_error "std::length_error") else
    let! grads :=
      for_each (seqZ 0 (groups params))
        (fun g =>
           let input_g := subtensor (Some input) 1 (groups params) g in
           let grad_output_g := subtensor (Some grad_output) 1 (groups params) g in
           let weight_g := subtensor (Some weight) 0 (groups params) g in
           compute_backward input_g grad_output_g weight_g
             (default None (columns (cb_ctx self) !! Z.to_nat g))
             (default None (ones (cb_ctx self) !! Z.to_nat g))
             params output_mask) in
    let grad_inputs := map (fun t => fst (fst t)) grads in
    let grad_weights := map (fun t => snd (fst t)) grads in
    let grad_biases := map snd grads in
    let! grad_input :=
      (if mask_bit output_mask 0 then cat grad_inputs 1 else lret None) in
    let! grad_weight :=
      (if mask_bit output_mask 1 then cat grad_weights 0 else lret None) in
    let! grad_bias :=
      (if mask_bit output_mask 2 then cat grad_biases 0 else lret None) in
    lret (grad_input, grad_weight, grad_bias).

(** What ConvBackward::apply hands to [wrap_outputs]: the three gradient
    tensors and the unpacked values the next node is built from. *)
Record ConvBackwardResult : Type := mkConvBackwardResult {
  grad_input : tensor;
  grad_weight : tensor;
  grad_bias : tensor;
  input_var : var;
  weight_var : var;
  bias_var : var
}.

Definition var_data (what : string) (v : var) : Lib TensorImpl :=
  let! impl := deref what v in lret (v_data impl).

(** ConvBackward::apply, lines 376-519. *)
Definition ConvBackward_apply (self : ConvBackward) (grad_outputs : list var)
    (h : Heap) : Lib ConvBackwardResult :=
  check! check_input_variables "ConvNdBackward" grad_outputs 1 1 in
  if is_padding_neg (cb_params self) then
    lthrow (runtime_error "negative padding is not supported")
  else if is_output_padding_neg (cb_params self) then
    lthrow (runtime_error "negative output_padding is not supported")
  else
    let! input_var := lift (unpack (input_ self) None h) in
    let! weight_var := lift (unpack (weight_ self) None h) in
    let! bias_var := lift (unpack (bias_ self) None h) in
    let! input := var_data "input_var" input_var in
    let! weight := var_data "weight_var" weight_var in
    let bias : tensor := opt_data (Some bias_var) in
    let input := contiguous input in
    let! grad_output := var_data "grad_outputs[0]" (default None (grad_outputs !! 0%nat)) in
    let grad_output := contiguous grad_output in
    let k := ndimension input in
    let! (input, weight, grad_output) :=
      (if Z.eqb k 3 then
         let! i4 := view4d input in
         let! w4 := view4d weight in
         let! g4 := view4d grad_output in
         lret (i4, w4, g4)
       else lret (input, weight, grad_output)) in
    let output_mask := ConvBackward_output_mask self bias in
    let! (gi, gw, gb) :=
      ConvBackward_dispatch self input weight grad_output bias output_mask in
    let! (gi, gw) :=
      (if Z.eqb k 3 then
         let! gi' := match gi with
                     | Some t => let! r := view3d t in lret (Some r)
                     | None => lret None
                     end in
         let! gw' := match gw with
                     | Some t => let! r := view3d t in lret (Some r)
                     | None => lret None
                     end in
         lret (gi', gw')
       else lret (gi, gw)) in
    lret (mkConvBackwardResult gi gw gb input_var weight_var bias_var).

(** ConvBackward::releaseVariables, lines 521-525. *)
Definition ConvBackward_releaseVariables (self : ConvBackward) : ConvBackward :=
  {| cb_function := cb_function self;
     cb_params := cb_params self;
     cb_ctx := cb_ctx self;
     input_ := data_reset (input_ self);
     weight_ := data_reset (weight_ self);
     bias_ := data_reset (bias_ self) |}.

(** A ConvBackwardBackward node; its releaseVariables, lines 707-712. *)
Record ConvBackwardBackward : Type := mkConvBackwardBackward {
  cbb_function : Function;
  cbb_params : ConvParams;
  cbb_input_ : saved_variable;
  cbb_weight_ : saved_variable;
  cbb_bias_ : saved_variable;
  cbb_grad_output_ : saved_variable
}.

Definition ConvBackwardBackward_releaseVariables (self : ConvBackwardBackward)
  : ConvBackwardBackward :=
  {| cbb_function := cbb_function self;
     cbb_params := cbb_params self;
     cbb_input_ := data_reset (cbb_input_ self);
     cbb_weight_ := data_reset (cbb_weight_ self);
     cbb_bias_ := data_reset (cbb_bias_ self);
     cbb_grad_output_ := data_reset (cbb_grad_output_ self) |}.

End Convolution.

(** ** interpreter_autograd_function.cpp *)

(** jit::TensorType as far as zeroTensorWithType reads it. *)
Record TracedTensorType : Type := mkTracedTensorType {
  tt_device : Z;
  tt_scalarType : ScalarType;
  tt_sizes : list Z
}.

(** Modelled from the spec: the flags of a value (variable_flags.h is not part
    of the sources): whether it is defined and whether it requires grad. *)
Record VariableFlags : Type := mkVariableFlags {
  vf_defined : bool;
  vf_requires_grad : bool
}.

Record StageDetails : Type := mkStageDetails {
  input_flags : list VariableFlags;
  output_flags : list VariableFlags;
  copied_next_fns : list nat;
  used_inputs : list bool
}.

(** The interpreter of traced programs: an external collaborator. *)
Class Interpreter (L : NumericLibrary) : Type := {
  InterpreterState : Type;
  clone : InterpreterState -> InterpreterState;
  (** runs one stage: the advanced state, and the outputs or an exception *)
  runOneStage :
    InterpreterState -> list (Tensor TensorImpl) ->
    InterpreterState * result (list (Tensor TensorImpl));
  tensorTypeForInput : InterpreterState -> nat -> TracedTensorType
}.

Definition ERR_TRACED_UNDEFINED : string :=
  "JIT intepreter received a defined input, but the" +:+
  " trace was compiled with the input being undefined.".

Definition ERR_TRACED_NO_GRAD : string :=
  "JIT inteperpreter recieved an input with " +:+
  " requires_grad=True, but was compiled with requires_grad=False".

(** The message of line 20-22; [size - 1] is computed on std::size_t. *)
Definition ERR_NDERIVS (size : nat) : string :=
  "Function compiled only for " +:+
  pretty (Z.to_N ((Z.of_nat size - 1) `mod` 2 ^ 64)) +:+
  " derivatives. Use nderivs argument " +:+
  "to request more.".

(** The two input-flag incompatibilities are the spec's StageMismatchError. *)
Definition is_StageMismatchError (e : exception) : Prop :=
  e = runtime_error ERR_TRACED_UNDEFINED \/ e = runtime_error ERR_TRACED_NO_GRAD.

Section StagedInterpreter.

Context {L : NumericLibrary} {I : Interpreter L}.

Abbreviation tensor := (Tensor TensorImpl).
Abbreviation var := (Var TensorImpl ValueTracingState).

(** Modelled from the spec: [VariableFlags::of] reads the two flags off a
    live value; an undefined value does not require grad. *)
Definition VariableFlags_of (v : var) : VariableFlags :=
  match v with
  | Some impl => {| vf_defined := true; vf_requires_grad := v_requires_grad impl |}
  | None => {| vf_defined := false; vf_requires_grad := false |}
  end.

(** zeroTensorWithType, lines 8-14. *)
Definition zeroTensorWithType (ty : TracedTensorType) : TensorImpl :=
  let device := if Z.ltb (tt_device ty) 0 then kCPU else kCUDA in
  type_zeros {| backend := device; scalarType := tt_scalarType ty |} (tt_sizes ty).

Record InterpreterAutogradFunction : Type := mkInterpreterAutogradFunction {
  iaf_function : Function;
  interp_ : InterpreterState;
  stage_details_ : list StageDetails;
  stage_ : nat;
  used_ : bool;
  keep_graph_ : bool
}.

(** Modelled from the spec: the constructor (the header is not part of the
    sources) binds a node to one stage of the program; the new node has not
    been used, has no edges yet, and keeps its graph until the engine
    announces a release. *)
Definition InterpreterAutogradFunction_new (interp : InterpreterState)
    (stage_details : list StageDetails) (stage : nat)
  : InterpreterAutogradFunction :=
  {| iaf_function :=
       {| next_functions := []; num_inputs := 0; output_needed := [];
          is_executable := true |};
     interp_ := interp;
     stage_details_ := stage_details;
     stage_ := stage;
     used_ := false;
     keep_graph_ := true |}.

Definition set_used (self : InterpreterAutogradFunction) (u : bool)
  : InterpreterAutogradFunction :=
  {| iaf_function := iaf_function self; interp_ := interp_ self;
     stage_details_ := stage_details_ self; stage_ := stage_ self;
     used_ := u; keep_graph_ := keep_graph_ self |}.

Definition set_interp (self : InterpreterAutogradFunction) (i : InterpreterState)
  : InterpreterAutogradFunction :=
  {| iaf_function := iaf_function self; interp_ := i;
     stage_details_ := stage_details_ self; stage_ := stage_ self;
     used_ := used_ self; keep_graph_ := keep_graph_ self |}.

Definition set_function (self : InterpreterAutogradFunction) (f : Function)
  : InterpreterAutogradFunction :=
  {| iaf_function := f; interp_ := interp_ self;
     stage_details_ := stage_details_ self; stage_ := stage_ self;
     used_ := used_ self; keep_graph_ := keep_graph_ self |}.

(** The validation loop of apply, lines 34-75, from input position [i] on. *)
Fixpoint validate_inputs (interp : InterpreterState) (i : nat)
    (inputs : list var) (traced : list VariableFlags) : result (list tensor) :=
  match inputs with
  | [] => ret []
  | input :: inputs' =>
      match traced with
      | [] => throw (undefined_behaviour "input_flags[i]")
      | traced_flags :: traced' =>
          let actual_flags := VariableFlags_of input in
          if negb (vf_defined traced_flags) && vf_defined actual_flags then
            throw (runtime_error ERR_TRACED_UNDEFINED)
          else if negb (vf_requires_grad traced_flags)
                  && vf_requires_grad actual_flags then
            throw (runtime_error ERR_TRACED_NO_GRAD)
          else
            let t : tensor :=
              match input with
              | None =>
                  if vf_defined traced_flags
                  then Some (zeroTensorWithType (tensorTypeForInput interp i))
                  else None
              | Some impl => Some (v_data impl)
              end in
            (let! rest := validate_inputs interp (S i) inputs' traced' in
             ret (t :: rest))%result
      end
  end.

(** The second loop of make_grad_fn, lines 106-121: one edge per used input
    that the stage differentiates. *)
Fixpoint input_edges (inputs : list var) (details : StageDetails) (i : nat)
    (h : Heap) : list Edge * Heap :=
  match inputs with
  | [] => ([], h)
  | input :: inputs' =>
      if negb (default false (used_inputs details !! i)) then
        input_edges inputs' details (S i) h
      else if negb (default false (vf_requires_grad <$> input_flags details !! i)) then
        input_edges inputs' details (S i) h
      else
        match input with
        | Some impl =>
            if v_requires_grad impl then
              let '(fn, h1) :=
                match v_grad_fn impl with
                | Some g => (Some g, h)
                | None => Variable_grad_accumulator impl h
                end in
              let '(es, h2) := input_edges inputs' details (S i) h1 in
              ((fn, v_output_nr impl) :: es, h2)
            else
              let '(es, h2) := input_edges inputs' details (S i) h in
              ((None, 0) :: es, h2)
        | None =>
            let '(es, h2) := input_edges inputs' details (S i) h in
            ((None, 0) :: es, h2)
        end
  end.

(** make_grad_fn, lines 84-122: the node of the next stage.  When that stage
    was not compiled the node is returned as constructed, without edges. *)
Definition make_grad_fn (self : InterpreterAutogradFunction)
    (interp : InterpreterState) (inputs : list var) (details : StageDetails)
    (h : Heap) : InterpreterAutogradFunction * Heap :=
  let grad_fn :=
    InterpreterAutogradFunction_new interp (stage_details_ self) (stage_ self + 1) in
  if Nat.eqb (stage_ self + 1) (length (stage_details_ self)) then (grad_fn, h)
  else
    let next_details :=
      default (mkStageDetails [] [] [] []) (stage_details_ self !! (stage_ self + 1)%nat) in
    let copied :=
      map (fun copied_idx =>
             default (None, 0) (next_functions (iaf_function self) !! copied_idx))
          (copied_next_fns next_details) in
    let '(edges, h') := input_edges inputs details 0 h in
    (set_function grad_fn
       {| next_functions := next_functions (iaf_function grad_fn) ++ copied ++ edges;
          num_inputs := num_inputs (iaf_function grad_fn);
          output_needed := output_needed (iaf_function grad_fn);
          is_executable := is_executable (iaf_function grad_fn) |}, h').

(** Modelled from the spec: [make_variable(data, grad_fn)] binds an output to
    the next free output slot of its producing node; an undefined tensor
    gives the undefined Variable.  The new handle has its own version block. *)
Definition make_variable_of (data : tensor) (fn : fn_id)
    (node : InterpreterAutogradFunction) (h : Heap)
  : var * InterpreterAutogradFunction * Heap :=
  match data with
  | None => (None, node, h)
  | Some d =>
      let '(vc, h') := new_version_block h in
      let f := iaf_function node in
      (Some {| v_data := d; v_requires_grad := is_executable f;
               v_grad_fn := Some fn; v_output_nr := num_inputs f;
               v_version_counter := vc; v_grad_accumulator := None;
               v_tracing_state := None |},
       set_function node
         {| next_functions := next_functions f; num_inputs := num_inputs f + 1;
            output_needed := output_needed f; is_executable := is_executable f |},
       h')
  end.

Definition make_variable_plain (data : tensor) (rg : bool) (h : Heap) : var * Heap :=
  match data with
  | None => (None, h)
  | Some d =>
      let '(vc, h') := new_version_block h in
      (Some (make_variable_leaf d rg vc), h')
  end.

(** The loop that wraps the outputs, lines 129-137.  [grad_fn] is the node of
    the next stage once it exists, with the identity it was given. *)
Fixpoint wrap_stage_outputs (self : InterpreterAutogradFunction)
    (interp : InterpreterState) (inputs : list var) (details : StageDetails)
    (toutputs : list tensor) (flags : list VariableFlags)
    (grad_fn : option (fn_id * InterpreterAutogradFunction)) (h : Heap)
  : list var * option (fn_id * InterpreterAutogradFunction) * Heap :=
  match toutputs, flags with
  | t :: toutputs', fl :: flags' =>
      if vf_requires_grad fl then
        let '(id, node, h1) :=
          match grad_fn with
          | Some (id, node) => (id, node, h)
          | None =>
              let '(node, h0) := make_grad_fn self interp inputs details h in
              let '(id, h1) := new_function h0 (iaf_function node) in
              (id, node, h1)
          end in
        let '(v, node', h2) := make_variable_of t id node h1 in
        let h3 := set_functions h2 (<[id := iaf_function node']> (functions h2)) in
        let '(vs, g, h4) :=
          wrap_stage_outputs self interp inputs details toutputs' flags'
            (Some (id, node')) h3 in
        (v :: vs, g, h4)
      else
        let '(v, h1) := make_variable_plain t false h in
        let '(vs, g, h2) :=
          wrap_stage_outputs self interp inputs details toutputs' flags' grad_fn h1 in
        (v :: vs, g, h2)
  | _, _ => ([], grad_fn, h)
  end.

(** What a successful apply returns: the wrapped outputs, and the node of
    the next stage when one was made. *)
Record StageResult : Type := mkStageResult {
  outputs : list var;
  next_stage : option (fn_id * InterpreterAutogradFunction)
}.

(** InterpreterAutogradFunction::apply, lines 16-140.  The node and the heap
    are returned as the call leaves them, also when it throws. *)
Definition InterpreterAutogradFunction_apply (self : InterpreterAutogradFunction)
    (inputs : list var) (h : Heap)
  : InterpreterAutogradFunction * Heap * result StageResult :=
  if Nat.eqb (stage_ self) (length (stage_details_ self)) then
    (self, h, throw (runtime_error (ERR_NDERIVS (length (stage_details_ self)))))
  else if used_ self then (self, h, throw (runtime_error ERR_BACKWARD_TWICE))
  else
    let self1 := set_used self (used_ self || negb (keep_graph_ self)) in
    match stage_details_ self !! stage_ self with
    | None => (self1, h, throw (undefined_behaviour "stage_details_[stage_]"))
    | Some details =>
        if negb (Z.eqb (Z.of_nat (length inputs)) (num_inputs (iaf_function self))) then
          (self1, h, throw (assertion_failure "inputs.size() == static_cast<std::size_t>(num_inputs)"))
        else if negb (Nat.eqb (length inputs) (length (input_flags details))) then
          (self1, h, throw (assertion_failure "inputs.size() == details.input_flags.size()"))
        else
          match validate_inputs (interp_ self) 0 inputs (input_flags details) with
          | inl e => (self1, h, inl e)
          | inr tinputs =>
              let start := if keep_graph_ self then clone (interp_ self) else interp_ self in
              let '(interp, run) := runOneStage start tinputs in
              (* without keep_graph_ the local interp aliases interp_ *)
              let self2 := if keep_graph_ self then self1 else set_interp self1 interp in
              match run with
              | inl e => (self2, h, inl e)
              | inr toutputs =>
                  if negb (Nat.eqb (length toutputs) (length (output_flags details))) then
                    (self2, h, throw (assertion_failure "toutputs.size() == details.output_flags.size()"))
                  else
                    let '(result, grad_fn, h') :=
                      wrap_stage_outputs self2 interp inputs details toutputs
                        (output_flags details) None h in
                    (self2, h', ret (mkStageResult result grad_fn))
              end
          end
    end.

End StagedInterpreter.

(** ** A stub library, to run the model on concrete inputs

    Tensors carry their sizes, their type and a label; the kernels return
    tensors of plausible shapes.  The stub honours the output mask it is
    given.  It is only used to evaluate the definitions above. *)

Module Stub.

Record StubTensor : Type := mkStubTensor {
  st_sizes : list Z;
  st_type : TensorType;
  st_label : Z
}.

Definition set_sizes (t : StubTensor) (s : list Z) : StubTensor :=
  {| st_sizes := s; st_type := st_type t; st_label := st_label t |}.

Definition st_unsqueeze (t : StubTensor) (d : Z) : StubTensor :=
  set_sizes t (take (Z.to_nat d) (st_sizes t) ++ 1 :: drop (Z.to_nat d) (st_sizes t)).

Definition st_squeeze (t : StubTensor) (d : Z) : StubTensor :=
  if Z.eqb (nth (Z.to_nat d) (st_sizes t) 0) 1
  then set_sizes t (take (Z.to_nat d) (st_sizes t) ++ drop (S (Z.to_nat d)) (st_sizes t))
  else t.

Definition st_narrow (t : StubTensor) (d start len : Z) : StubTensor :=
  {| st_sizes := <[Z.to_nat d := len]> (st_sizes t);
     st_type := st_type t;
     st_label := st_label t * 100 + start |}.

Definition st_transpose (t : StubTensor) (a b : Z) : StubTensor :=
  set_sizes t
    (<[Z.to_nat a := nth (Z.to_nat b) (st_sizes t) 0]>
       (<[Z.to_nat b := nth (Z.to_nat a) (st_sizes t) 0]> (st_sizes t))).

Definition st_new (ty : TensorType) (s : list Z) : StubTensor :=
  {| st_sizes := s; st_type := ty; st_label := 0 |}.

Definition conv_shape (input weight : StubTensor) : StubTensor :=
  {| st_sizes := nth 0 (st_sizes input) 0 :: nth 0 (st_sizes weight) 0
                 :: drop 2 (st_sizes input);
     st_type := st_type input;
     st_label := st_label input + st_label weight |}.

Definition st_forward (k : ForwardKernel StubTensor) : result StubTensor :=
  match k with
  | conv_depthwise2d_forward i w _ _ _ _ _
  | conv_transpose2d_forward i w _ _ _ _ _ _ _ _
  | conv_transpose3d_forward i w _ _ _ _ _ _ _
  | conv_dilated2d_forward i w _ _ _ _ _ _ _
  | nnpack_SpatialConvolution_updateOutput i _ w _ _ _ _ _
  | conv2d_forward i w _ _ _ _ _ _
  | conv_dilated3d_forward i w _ _ _ _ _ _ _
  | conv3d_forward i w _ _ _ _ _ => inr (conv_shape i w)
  end.

Definition st_cudnn_full (k : CudnnFullForward StubTensor) : result (StubTensor * unit) :=
  match k with
  | cudnn_convolution_full_forward i w _ _ _ _ _ _ _ _
  | cudnn_convolution_transpose_full_forward i w _ _ _ _ _ _ _ _ =>
      inr (conv_shape i w, tt)
  end.

Definition masked (m : bool) (t : StubTensor) : option StubTensor :=
  if m then Some t else None.

Definition st_gradients (go i w : StubTensor) (m : output_mask3)
  : option StubTensor * option StubTensor * option StubTensor :=
  (masked (mask_bit m 0) (set_sizes go (st_sizes i)),
   masked (mask_bit m 1) (set_sizes go (st_sizes w)),
   masked (mask_bit m 2) (set_sizes go [nth 1 (st_sizes go) 0])).

Definition st_backward (k : BackwardKernel StubTensor)
  : result (option StubTensor * option StubTensor * option StubTensor) :=
  match k with
  | conv_transpose2d_backward go i w _ _ _ _ _ _ _ m
  | conv_transpose3d_backward go i w _ _ _ _ _ _ m
  | conv_dilated2d_backward go i w _ _ _ _ _ _ m
  | conv2d_backward go i w _ _ _ _ _ m
  | conv_dilated3d_backward go i w _ _ _ _ _ _ m
  | conv3d_backward go i w _ _ _ _ _ m => inr (st_gradients go i w m)
  end.

Definition st_depthwise_backward (k : DepthwiseBackward StubTensor)
  : result (option StubTensor * option StubTensor) :=
  match k with
  | conv_depthwise2d_backward go i w _ _ _ _ (m0, m1) =>
      inr (masked m0 (set_sizes go (st_sizes i)), masked m1 (set_sizes go (st_sizes w)))
  end.

Definition st_gradient (k : GradientKernel StubTensor unit) : result StubTensor :=
  match k with
  | cudnn_convolution_forward go _ gi _ _ _
  | cudnn_convolution_backward_data go gi _ _ _ _ => inr (set_sizes go (st_sizes gi))
  | cudnn_convolution_backward_filter go _ gw _ _ _ => inr (set_sizes go (st_sizes gw))
  | cudnn_convolution_backward_bias go gb _ => inr (set_sizes go (st_sizes gb))
  | nnpack_SpatialConvolution_updateGradInput _ go gi _ _ _ _ _ =>
      inr (set_sizes go (st_sizes gi))
  | nnpack_SpatialConvolution_accGradWeight _ go gw _ _ _ _ =>
      inr (set_sizes go (st_sizes gw))
  | sum_dim t d =>
      inr (set_sizes t (take (Z.to_nat d) (st_sizes t) ++ drop (S (Z.to_nat d)) (st_sizes t)))
  end.

Fixpoint total_along (d : nat) (ts : list (option StubTensor)) : option Z :=
  match ts with
  | [] => Some 0
  | None :: _ => None
  | Some t :: ts' =>
      match total_along d ts' with
      | Some n => Some (nth d (st_sizes t) 0 + n)
      | None => None
      end
  end.

Definition st_cat_out (out : StubTensor) (ts : list (option StubTensor)) (dim : Z)
  : result StubTensor :=
  match ts, total_along (Z.to_nat dim) ts with
  | Some t :: _, Some n =>
      inr {| st_sizes := <[Z.to_nat dim := n]> (st_sizes t);
             st_type := st_type out;
             st_label := st_label t |}
  | _, _ => inl (library_error "cat: undefined tensor")
  end.

Global Instance library : NumericLibrary := {|
  TensorImpl := StubTensor;
  Convolution := unit;
  ValueTracingState := unit;
  sizes := st_sizes;
  type := st_type;
  contiguous := fun t => t;
  unsqueeze := st_unsqueeze;
  squeeze := st_squeeze;
  narrow := st_narrow;
  transpose := st_transpose;
  view := set_sizes;
  type_tensor := fun ty => st_new ty [0];
  type_tensor_sized := st_new;
  type_zeros := st_new;
  resize_ := set_sizes;
  zero_ := fun t => t;
  run_forward := st_forward;
  run_cudnn_full := st_cudnn_full;
  run_backward := st_backward;
  run_depthwise_backward := st_depthwise_backward;
  run_gradient := st_gradient;
  cat_out := st_cat_out
|}.

(** A stub interpreter: its state counts the stages that ran, and a stage
    returns its inputs. *)
Global Instance interpreter : Interpreter library := {|
  InterpreterState := nat;
  clone := fun s => s;
  runOneStage := fun s inputs => (S s, inr inputs);
  tensorTypeForInput := fun _ i =>
    {| tt_device := -1; tt_scalarType := kFloat; tt_sizes := [2; Z.of_nat i] |}
|}.

Definition cpu_float (s : list Z) (label : Z) : StubTensor :=
  {| st_sizes := s; st_type := CPUFloat; st_label := label |}.

Definition cuda_float (s : list Z) (label : Z) : StubTensor :=
  {| st_sizes := s;
     st_type := {| backend := kCUDA; scalarType := kFloat |};
     st_label := label |}.

Definition empty_heap : Heap :=
  {| version_blocks := ∅; next_block := 0%nat; functions := ∅; next_fn := 0%nat |}.

(** A leaf value in its own version block. *)
Definition leaf (t : StubTensor) (rg : bool) (vc : block_id)
  : VariableImpl StubTensor unit :=
  make_variable_leaf t rg vc.

(** A value produced by node [fn]. *)
Definition produced (t : StubTensor) (fn : fn_id) (vc : block_id)
  : VariableImpl StubTensor unit :=
  {| v_data := t; v_requires_grad := true; v_grad_fn := Some fn;
     v_output_nr := 0; v_version_counter := vc; v_grad_accumulator := None;
     v_tracing_state := None |}.

(** A heap with two version blocks, a producing node (0) and the
    accumulator (1) of a leaf, both owned by the graph. *)
Definition graph_heap : Heap :=
  {| version_blocks := {[ 0%nat := 0; 1%nat := 0 ]};
     next_block := 2%nat;
     functions :=
       {[ 0%nat := {| next_functions := []; num_inputs := 1;
                      output_needed := [true]; is_executable := true |};
          1%nat := AccumulateGrad ]};
     next_fn := 2%nat |}.

(** A leaf that requires grad and whose accumulator is node 1. *)
Definition parameter (t : StubTensor) (vc : block_id)
  : VariableImpl StubTensor unit :=
  {| v_data := t; v_requires_grad := true; v_grad_fn := None;
     v_output_nr := 0; v_version_counter := vc; v_grad_accumulator := Some 1%nat;
     v_tracing_state := None |}.

Definition conv2d_params (g : Z) : ConvParams :=
  {| stride := [1; 1]; padding := [1; 1]; dilation := [1; 1];
     transposed := false; output_padding := [0; 0]; groups := g;
     benchmark := false; deterministic := false; cudnn_enabled := true |}.

Definition cpu_build : BuildConfig :=
  {| WITH_CUDNN := false; WITH_NNPACK := false; CUDNN_VERSION := 0; device_major := 0 |}.

Definition cudnn_build : BuildConfig :=
  {| WITH_CUDNN := true; WITH_NNPACK := false; CUDNN_VERSION := 7005; device_major := 6 |}.

(** The backward node of a convolution of an activation (produced by node 0)
    with a parameter, without bias; [needed] are its per-output flags. *)
Definition conv_backward_node (p : ConvParams) (input weight : StubTensor)
    (needed : list bool) : ConvBackward :=
  {| cb_function :=
       {| next_functions := []; num_inputs := 1; output_needed := needed;
          is_executable := true |};
     cb_params := p;
     cb_ctx :=
       {| columns := replicate (Z.to_nat (groups p)) (Some (st_new (st_type input) [0]));
          ones := replicate (Z.to_nat (groups p)) (Some (st_new (st_type input) [0]));
          convolution := None |};
     input_ := (SavedVariable_new (Some (produced input 0%nat 0%nat)) false graph_heap).1;
     weight_ := (SavedVariable_new (Some (parameter weight 1%nat)) false graph_heap).1;
     bias_ := (SavedVariable_new None false graph_heap).1 |}.

(** A program compiled for one derivative: the forward stage and one
    backward stage, each with one input and one output that requires grad. *)
Definition one_derivative : list StageDetails :=
  [ {| input_flags := [mkVariableFlags true true];
       output_flags := [mkVariableFlags true true];
       copied_next_fns := []; used_inputs := [true] |};
    {| input_flags := [mkVariableFlags true false];
       output_flags := [mkVariableFlags true true];
       copied_next_fns := []; used_inputs := [true] |} ].

(** The node of stage [stage] of that program, with one expected input. *)
Definition stage_node (stage : nat) (keep : bool) : InterpreterAutogradFunction :=
  {| iaf_function :=
       {| next_functions := []; num_inputs := 1; output_needed := [true];
          is_executable := true |};
     interp_ := stage;
     stage_details_ := one_derivative;
     stage_ := stage;
     used_ := false;
     keep_graph_ := keep |}.

End Stub.


(** ** interpreter_autograd_function.cpp: the factory *)

(** What the constructor of the factory reads of a graph input: the stage
    the input belongs to and the number of its uses. *)
Record GraphInput : Type := mkGraphInput {
  input_stage : nat;
  input_uses : nat
}.

(** The traced graph as far as the factory reads it: [stage()] is the last
    stage of the trace, [inputs()] the inputs of all stages in order. *)
Record Graph : Type := mkGraph {
  graph_stage : nat;
  graph_inputs : list GraphInput
}.

(** tracer::TracingState as far as the factory reads it. *)
Record TracingState : Type := mkTracingState {
  ts_graph : Graph;
  var_flags : list (list VariableFlags * list VariableFlags);
  output_edges : list (list Edge)
}.

(** The inner loop of line 150: the inputs at the iterator that belong to
    [stage] are consumed, each giving [uses().size() > 0]; the iterator
    stops at the first input of another stage. *)
Fixpoint take_stage_inputs (stage : nat) (inputs_it : list GraphInput)
  : list bool * list GraphInput :=
  match inputs_it with
  | [] => ([], [])
  | input :: rest =>
      if Nat.eqb (input_stage input) stage then
        let '(used, it) := take_stage_inputs stage rest in
        (Nat.ltb 0 (input_uses input) :: used, it)
      else ([], inputs_it)
  end.

(** [std::distance(begin, std::find(begin, end, output))] when the edge is
    found. *)
Fixpoint find_edge (output : Edge) (prev_outputs : list Edge) : option nat :=
  match prev_outputs with
  | [] => None
  | e :: rest =>
      if decide (e = output) then Some 0%nat
      else S <$> find_edge output rest
  end.

(** The loop of lines 156-163. *)
Definition copied_edges (current_outputs prev_outputs : list Edge) : list nat :=
  omap (fun output => find_edge output prev_outputs) current_outputs.

(** The loop over the stages, lines 147-165, from the stages still to do and
    the position of the input iterator.  Indexing a vector of the tracing
    state past its end is undefined in the source. *)
Fixpoint factory_stages (state : TracingState) (stages : list nat)
    (inputs_it : list GraphInput) : result (list StageDetails) :=
  match stages with
  | [] => ret []
  | stage :: stages' =>
      match var_flags state !! stage with
      | None => throw (undefined_behaviour "var_flags[stage]")
      | Some (in_flags, out_flags) =>
          let '(used, inputs_it') := take_stage_inputs stage inputs_it in
          (let! copied :=
             (if Nat.leb 1 stage then
                match output_edges state !! stage,
                      output_edges state !! (stage - 1)%nat with
                | Some current_outputs, Some prev_outputs =>
                    ret (copied_edges current_outputs prev_outputs)
                | _, _ => throw (undefined_behaviour "output_edges[stage]")
                end
              else ret []) in
           let! rest := factory_stages state stages' inputs_it' in
           ret ({| input_flags := in_flags;
                   output_flags := out_flags;
                   copied_next_fns := copied;
                   used_inputs := used |} :: rest))%result
      end
  end.

Section Factory.

Context {L : NumericLibrary} {I : Interpreter L}.

(** jit::Code and the interpreter state made from it are external. *)
Context {Code : Type} (Code_new : Graph -> Code)
        (InterpreterState_new : Code -> InterpreterState).

Record InterpreterFunctionFactory : Type := mkInterpreterFunctionFactory {
  code_ : Code;
  factory_stage_details_ : list StageDetails
}.

(** The constructor of InterpreterFunctionFactory from a tracing state,
    lines 142-166.  The flags are moved out of the tracing state, which the
    constructor does not read again. *)
Definition InterpreterFunctionFactory_new (state : TracingState)
  : result InterpreterFunctionFactory :=
  (let! details :=
     factory_stages state (seq 0 (graph_stage (ts_graph state) + 1))
       (graph_inputs (ts_graph state)) in
   ret {| code_ := Code_new (ts_graph state);
          factory_stage_details_ := details |})%result.

(** InterpreterFunctionFactory::construct, lines 168-170: a node of stage 0
    on a fresh interpreter state for the code. *)
Definition construct (self : InterpreterFunctionFactory)
  : InterpreterAutogradFunction :=
  InterpreterAutogradFunction_new (InterpreterState_new (code_ self))
    (factory_stage_details_ self) 0.

End Factory.


(** A trace of two stages for the stub interpreter: one input per stage,
    and the backward stage reuses the second output edge of the forward. *)
Module StubTrace.

Definition edge_a : Edge := (Some 0%nat, 0).
Definition edge_b : Edge := (Some 1%nat, 0).

Definition state : TracingState :=
  {| ts_graph :=
       {| graph_stage := 1;
          graph_inputs := [mkGraphInput 0 2; mkGraphInput 1 0] |};
     var_flags :=
       [([mkVariableFlags true true], [mkVariableFlags true true]);
        ([mkVariableFlags true false], [mkVariableFlags true true])];
     output_edges := [[edge_a; edge_b]; [edge_b]] |}.

Definition Code_new (g : Graph) : nat := graph_stage g.
Definition InterpreterState_new (code : nat) : nat := 0%nat.

End StubTrace.


(** ** copy_utils.h *)

(** A Python type object and a Python object, as far as the copy utilities
    read them: the name of the type, and [Py_TYPE] of the object.  Objects
    and types are told apart by their identity. *)
Record PyTypeObject : Type := mkPyTypeObject {
  tp_name : string;
  tp_id : nat
}.

Record PyObject : Type := mkPyObject {
  ob_id : nat;
  ob_type : PyTypeObject
}.

Section Copy.

(** The tensors and storages the copy functions read and write. *)
Context {World : Type}.

(** What the copy utilities change: the data, the reference counts, the
    Python error indicator and whether the thread holds the interpreter
    lock. *)
Record PyState : Type := mkPyState {
  world : World;
  ob_refcnt : gmap nat Z;
  error_indicator : option string;
  gil_held : bool
}.

Definition set_world (st : PyState) (w : World) : PyState :=
  {| world := w; ob_refcnt := ob_refcnt st;
     error_indicator := error_indicator st; gil_held := gil_held st |}.

(** Code that may throw a C++ exception and changes the state. *)
Definition Py (A : Type) : Type := PyState -> result A * PyState.

Definition THPCopyFunction : Type := PyObject -> PyObject -> bool -> Py unit.

Record THPCopyInfo : Type := mkTHPCopyInfo {
  srcType : PyTypeObject;
  copy : THPCopyFunction;
  async : bool;
  broadcast : bool
}.

Definition THPCopyList : Type := list THPCopyInfo.

(** CPython's subtype test. *)
Context (PyType_IsSubtype : PyTypeObject -> PyTypeObject -> bool).

(** tryTHPCopy, lines 18-27. *)
Fixpoint tryTHPCopy (v : THPCopyList) (dst src : PyObject)
    (async broadcast : bool) : Py bool :=
  fun st =>
    match v with
    | [] => (inr false, st)
    | {| srcType := it_srcType; copy := it_copy; async := it_async |} :: rest =>
        if Bool.eqb it_async async && PyType_IsSubtype (ob_type src) it_srcType then
          match it_copy dst src broadcast st with
          | (inl e, st') => (inl e, st')
          | (inr _, st') => (inr true, st')
          end
        else tryTHPCopy rest dst src async broadcast st
    end.

(** [THPUtils_setError] sets the Python error indicator. *)
Definition THPUtils_setError (msg : string) (st : PyState) : PyState :=
  {| world := world st; ob_refcnt := ob_refcnt st;
     error_indicator := Some msg; gil_held := gil_held st |}.

Definition THPUtils_typename (o : PyObject) : string := tp_name (ob_type o).

(** THPCopy, lines 29-39. *)
Definition THPCopy (v : THPCopyList) (dst src : PyObject)
    (async broadcast : bool) : Py bool :=
  fun st =>
    match tryTHPCopy v dst src async broadcast st with
    | (inl e, st1) => (inl e, st1)
    | (inr true, st1) => (inr true, st1)
    | (inr false, st1) =>
        match (if async then tryTHPCopy v dst src false broadcast st1
               else (inr false, st1)) with
        | (inl e, st2) => (inl e, st2)
        | (inr true, st2) => (inr true, st2)
        | (inr false, st2) =>
            (inr false,
             THPUtils_setError
               ("copy from " +:+ THPUtils_typename src +:+ " to " +:+
                THPUtils_typename dst +:+ " isn't implemented") st2)
        end
    end.

Definition Py_INCREF (o : PyObject) (st : PyState) : PyState :=
  {| world := world st;
     ob_refcnt := <[ob_id o := default 0 (ob_refcnt st !! ob_id o) + 1]> (ob_refcnt st);
     error_indicator := error_indicator st; gil_held := gil_held st |}.

(** CPython's argument parser: for a format with one object and optional
    ints it gives the object and, for each optional int, the value when the
    caller passed one; on failure it sets the error and gives nothing. *)
Context {Args Kwargs : Type}
        (PyArg_ParseTupleAndKeywords :
           Args -> Kwargs -> string -> list string -> PyState ->
           option (PyObject * list (option Z)) * PyState).

(** An int out-parameter with its initial value. *)
Definition parsed_int (ints : list (option Z)) (i : nat) (initial : Z) : Z :=
  default initial (mjoin (ints !! i)).

(** THPStorageCopyMethod, lines 41-57; [None] is the NULL result. *)
Definition THPStorageCopyMethod (v : THPCopyList) (self : PyObject)
    (args : Args) (kwargs : Kwargs) : Py (option PyObject) :=
  fun st =>
    match PyArg_ParseTupleAndKeywords args kwargs "O|i:copy_" ["source"; "async"] st with
    | (None, st1) => (inr None, st1)
    | (Some (src, ints), st1) =>
        let async := parsed_int ints 0 0 in
        match THPCopy v self src (negb (Z.eqb async 0)) false st1 with
        | (inl e, st2) => (inl e, st2)
        | (inr false, st2) => (inr None, st2)
        | (inr true, st2) => (inr (Some self), Py_INCREF self st2)
        end
    end.

(** THPTensorCopyMethod, lines 59-76. *)
Definition THPTensorCopyMethod (v : THPCopyList) (self : PyObject)
    (args : Args) (kwargs : Kwargs) : Py (option PyObject) :=
  fun st =>
    match PyArg_ParseTupleAndKeywords args kwargs "O|ii:copy_"
            ["source"; "async"; "broadcast"] st with
    | (None, st1) => (inr None, st1)
    | (Some (src, ints), st1) =>
        let async := parsed_int ints 0 0 in
        let broadcast := parsed_int ints 1 1 in
        match THPCopy v self src (negb (Z.eqb async 0))
                (negb (Z.eqb broadcast 0)) st1 with
        | (inl e, st2) => (inl e, st2)
        | (inr false, st2) => (inr None, st2)
        | (inr true, st2) => (inr (Some self), Py_INCREF self st2)
        end
    end.

(** [Py_UNBLOCK_THREADS] and [Py_BLOCK_THREADS]. *)
Definition Py_UNBLOCK_THREADS (st : PyState) : PyState :=
  {| world := world st; ob_refcnt := ob_refcnt st;
     error_indicator := error_indicator st; gil_held := false |}.

Definition Py_BLOCK_THREADS (st : PyState) : PyState :=
  {| world := world st; ob_refcnt := ob_refcnt st;
     error_indicator := error_indicator st; gil_held := true |}.

(** The source and destination types of a registration, with
    [THPTypeInfo<T>::cdata] and [THPTypeInfo<Src>::pyType()]. *)
Context {Dst Src : Type}
        (cdata_dst : PyObject -> Dst) (cdata_src : PyObject -> Src)
        (pyType_src : PyTypeObject).

(** A copy function of the library: it changes the data and may throw. *)
Definition CopyFunc : Type := Dst -> Src -> World -> World * option exception.

(** The try block of both wrappers, lines 88-98 and 131-141: the copy runs
    with the interpreter lock released; the lock is taken again on the way
    out, also when the copy throws. *)
Definition copy_unblocked (copyFunc : CopyFunc) (dst : Dst) (src : Src) : Py unit :=
  fun st =>
    let st1 := Py_UNBLOCK_THREADS st in
    let _save := true in
    match copyFunc dst src (world st1) with
    | (w, None) => (inr tt, Py_BLOCK_THREADS (set_world st1 w))
    | (w, Some e) =>
        (inl e, if _save then Py_BLOCK_THREADS (set_world st1 w) else set_world st1 w)
    end.

(** The wrapper of THPInsertStorageCopyFunction, lines 84-99. *)
Definition storage_copy_wrapper (copyFunc : CopyFunc) : THPCopyFunction :=
  fun dst_ src_ broadcast =>
    let dst := cdata_dst dst_ in
    let src := cdata_src src_ in
    copy_unblocked copyFunc dst src.

(** THPInsertStorageCopyFunction, lines 78-103; [async] defaults to false
    at the call sites. *)
Definition THPInsertStorageCopyFunction (copyList : THPCopyList)
    (copyFunc : CopyFunc) (async : bool) : THPCopyList :=
  copyList ++ [ {| srcType := pyType_src; copy := storage_copy_wrapper copyFunc;
                   async := async; broadcast := false |} ].

(** expand_utils.h is not part of the sources: [newForExpand] makes the
    tensor that receives the expanded view, the guard frees it at the end
    of the scope, and [expand_inplace1] fills it or throws a
    std::runtime_error. *)
Context (newForExpand : World -> Src * World)
        (free_guard : Src -> World -> World)
        (expand_inplace1 : Src -> Src -> Dst -> World -> World * option exception).

(** The wrapper of THPInsertTensorCopyFunction, lines 112-143. *)
Definition tensor_copy_wrapper (copyFunc : CopyFunc) : THPCopyFunction :=
  fun dst_ src_ broadcast st =>
    let dst := cdata_dst dst_ in
    let src := cdata_src src_ in
    let '(src_guard, w0) := newForExpand (world st) in
    let st0 := set_world st w0 in
    let '(src, st1) :=
      if broadcast then
        match expand_inplace1 src_guard src dst (world st0) with
        | (w, None) => (src_guard, set_world st0 w)
        | (w, Some _) => (src, set_world st0 w)
        end
      else (src, st0) in
    let '(r, st2) := copy_unblocked copyFunc dst src st1 in
    (r, set_world st2 (free_guard src_guard (world st2))).

(** THPInsertTensorCopyFunction, lines 105-147; [async] defaults to false
    and [broadcast] to true at the call sites. *)
Definition THPInsertTensorCopyFunction (copyList : THPCopyList)
    (copyFunc : CopyFunc) (async broadcast : bool) : THPCopyList :=
  copyList ++ [ {| srcType := pyType_src; copy := tensor_copy_wrapper copyFunc;
                   async := async; broadcast := broadcast |} ].

End Copy.

Arguments PyState : clear implicits.
Arguments THPCopyInfo : clear implicits.
Arguments THPCopyList : clear implicits.
Arguments THPCopyFunction : clear implicits.
Arguments Py : clear implicits.

(** A small Python world to run the copy utilities on: tensors are lists of
    numbers held in slots, a tensor type and a storage type, and a parser
    that reads its arguments from a list. *)
Module StubCopy.

Definition FloatTensor : PyTypeObject := {| tp_name := "torch.FloatTensor"; tp_id := 0 |}.
Definition DoubleTensor : PyTypeObject := {| tp_name := "torch.DoubleTensor"; tp_id := 1 |}.

Definition is_subtype (a b : PyTypeObject) : bool := Nat.eqb (tp_id a) (tp_id b).

Definition World : Type := gmap nat (list Z).

Definition cdata (o : PyObject) : nat := ob_id o.

(** Copies the source over the destination; a source that does not exist
    makes the copy throw. *)
Definition copy_slot (dst src : nat) (w : World) : World * option exception :=
  match w !! src with
  | Some xs => (<[dst := xs]> w, None)
  | None => (w, Some (runtime_error "no source"))
  end.

Definition new_for_expand (w : World) : nat * World := (99%nat, <[99%nat := []]> w).
Definition free_slot (t : nat) (w : World) : World := delete t w.

(** Expands a one-element source to the length of the destination. *)
Definition expand_slot (guard src dst : nat) (w : World) : World * option exception :=
  match w !! src, w !! dst with
  | Some [x], Some ys => (<[guard := replicate (length ys) x]> w, None)
  | _, _ => (w, Some (runtime_error "cannot expand"))
  end.

Definition parse (args : PyObject * list (option Z)) (kwargs : unit)
    (format : string) (kwlist : list string) (st : PyState World)
  : option (PyObject * list (option Z)) * PyState World :=
  (Some args, st).

Definition a : PyObject := {| ob_id := 1; ob_type := FloatTensor |}.
Definition b : PyObject := {| ob_id := 2; ob_type := FloatTensor |}.
Definition c : PyObject := {| ob_id := 3; ob_type := DoubleTensor |}.

Definition state0 : PyState World :=
  {| world := {[ 1%nat := [0; 0; 0]; 2%nat := [7] ]};
     ob_refcnt := {[ 1%nat := 1; 2%nat := 1 ]};
     error_indicator := None;
     gil_held := true |}.

(** The list of the float tensor type: copies from float tensors. *)
Definition float_copies : THPCopyList World :=
  THPInsertTensorCopyFunction cdata cdata FloatTensor
    new_for_expand free_slot expand_slot [] copy_slot false true.

(** The entry that registration made, and an asynchronous entry for
    sources of the double type. *)
Definition float_entry : THPCopyInfo World :=
  {| srcType := FloatTensor;
     copy := tensor_copy_wrapper cdata cdata new_for_expand free_slot expand_slot
               copy_slot;
     async := false; broadcast := true |}.

Definition async_double_entry : THPCopyInfo World :=
  {| srcType := DoubleTensor;
     copy := storage_copy_wrapper cdata cdata copy_slot;
     async := true; broadcast := false |}.

End StubCopy.


(** ** convolution.cpp: ConvBackwardBackward::apply *)

(** The autograd functions that ConvBackwardBackward::apply applies with
    [apply_fn<Op>(arguments)(variables)]. *)
Inductive AutogradOp : Type :=
| Contiguous
| ConvForwardOp (params : ConvParams)
| Add
| View (size : list Z)
| Expand (size : list Z)
| Transpose (dim0 dim1 : Z)
| Narrow (dim start length : Z)
| Cat (dim : Z).

(** [apply_fn] and the functions it applies (functions/utils.h,
    functions/basic_ops.h and functions/tensor.h are not part of the
    sources) are an external collaborator: applying a function to values
    returns a value or throws, and may allocate in the heap. *)
Class AutogradFunctions (L : NumericLibrary) : Type := {
  apply_op :
    AutogradOp -> list (Var TensorImpl ValueTracingState) -> Heap ->
    result (Var TensorImpl ValueTracingState) * Heap
}.

Definition swap_stride_dilation (p : ConvParams) : ConvParams :=
  {| stride := dilation p;
     padding := padding p;
     dilation := stride p;
     transposed := transposed p;
     output_padding := output_padding p;
     groups := groups p;
     benchmark := benchmark p;
     deterministic := deterministic p;
     cudnn_enabled := cudnn_enabled p |}.

Definition with_transposed (p : ConvParams) (t : bool) : ConvParams :=
  {| stride := stride p;
     padding := padding p;
     dilation := dilation p;
     transposed := t;
     output_padding := output_padding p;
     groups := groups p;
     benchmark := benchmark p;
     deterministic := deterministic p;
     cudnn_enabled := cudnn_enabled p |}.

(** [p.output_padding[i] = x]; writing past the end of the vector is
    undefined in the source and writes nothing here. *)
Definition set_output_padding (p : ConvParams) (i : nat) (x : Z) : ConvParams :=
  {| stride := stride p;
     padding := padding p;
     dilation := dilation p;
     transposed := transposed p;
     output_padding := <[i := x]> (output_padding p);
     groups := groups p;
     benchmark := benchmark p;
     deterministic := deterministic p;
     cudnn_enabled := cudnn_enabled p |}.

(** [expected_input_shape] of lines 652-654 and 660-662, for entry [k] of
    the kernel and of the shape of grad_output and entry [i] of the
    parameters. *)
Definition expected_input_shape (gi_conv_params : ConvParams)
    (kernel_size grad_output_shape : list Z) (k i : nat) : Z :=
  (nth k kernel_size 0 - 1) * nth i (stride gi_conv_params) 0
  - 2 * nth i (padding gi_conv_params) 0
  + (nth i (dilation gi_conv_params) 0 * (nth k grad_output_shape 0 - 1) + 1).

(** One check of the output padding, lines 655-657 and 663-665; the
    difference of the two 64-bit sizes is stored in an [int]. *)
Definition fix_output_padding (kernel_size input_shape grad_output_shape : list Z)
    (k i : nat) (gi_conv_params : ConvParams) : ConvParams :=
  let expected :=
    expected_input_shape gi_conv_params kernel_size grad_output_shape k i in
  if negb (Z.eqb expected (nth k input_shape 0)) then
    set_output_padding gi_conv_params i (to_int (nth k input_shape 0 - expected))
  else gi_conv_params.

(** The calculation of output_padding, lines 646-668. *)
Definition gi_output_padding (gi_conv_params : ConvParams)
    (kernel_size input_shape grad_output_shape : list Z) : ConvParams :=
  if Nat.eqb (length kernel_size) 1 then
    fix_output_padding kernel_size input_shape grad_output_shape 0 1 gi_conv_params
  else
    fold_left
      (fun q i => fix_output_padding kernel_size input_shape grad_output_shape i i q)
      (seq 0 (length kernel_size)) gi_conv_params.

Section DoubleBackward.

Context {L : NumericLibrary} {F : AutogradFunctions L}.

Abbreviation var := (Var TensorImpl ValueTracingState).

Definition OpCall : Type := AutogradOp * list var.

(** The state of a double backward: the heap and the record of the
    functions that were applied. *)
Record OpState : Type := mkOpState {
  op_heap : Heap;
  op_log : list OpCall
}.

Definition Ops (A : Type) : Type := OpState -> result A * OpState.

Definition oret {A} (a : A) : Ops A := fun s => (inr a, s).
Definition othrow {A} (e : exception) : Ops A := fun s => (inl e, s).
Definition olift {A} (r : result A) : Ops A := fun s => (r, s).
Definition obind {A B} (m : Ops A) (k : A -> Ops B) : Ops B :=
  fun s =>
    match m s with
    | (inl e, s') => (inl e, s')
    | (inr a, s') => k a s'
    end.

Declare Scope ops_scope.
Delimit Scope ops_scope with ops.
Notation "'let!' x := m 'in' k" := (obind m (fun x => k))
  (at level 10, x pattern, m at level 100, k at level 200) : ops_scope.
Notation "'check!' m 'in' k" := (obind m (fun _ => k))
  (at level 10, m at level 100, k at level 200) : ops_scope.
Local Open Scope ops_scope.

Definition apply_fn (op : AutogradOp) (vs : list var) : Ops var :=
  fun s =>
    let '(r, h') := apply_op op vs (op_heap s) in
    (r, {| op_heap := h'; op_log := op_log s ++ [(op, vs)] |}).

(** [guard.unpack()], without a caller node. *)
Definition ounpack (g : SavedVariable TensorImpl ValueTracingState) : Ops var :=
  fun s => (unpack g None (op_heap s), s).

Fixpoint ofor_each {A} (gs : list Z) (body : Z -> Ops A) : Ops (list A) :=
  match gs with
  | [] => oret []
  | g :: gs' =>
      let! x := body g in
      let! xs := ofor_each gs' body in
      oret (x :: xs)
  end.

(** Access to the tensor of a value, which has to be defined. *)
Definition var_tensor (what : string) (v : var) : Ops TensorImpl :=
  match v with
  | Some impl => oret (v_data impl)
  | None => othrow (undefined_behaviour what)
  end.

Definition var_sizes (what : string) (v : var) : Ops (list Z) :=
  let! t := var_tensor what v in oret (sizes t).

(** [if (x.type().isCuda()) x = apply_fn<Contiguous>()(x)]. *)
Definition contiguous_if_cuda (what : string) (x : var) : Ops var :=
  let! t := var_tensor what x in
  if isCuda (type t) then apply_fn Contiguous [x] else oret x.

(** subvariable, lines 238-242. *)
Definition subvariable (v : var) (dim : nat) (groups g : Z) : Ops var :=
  let! sz := var_sizes "var" v in
  let n := Z.quot (nth dim sz 0) groups in
  apply_fn (Narrow (Z.of_nat dim) (n * g) n) [v].

(** The loop of lines 625-629: gW is narrowed to the size of the weight in
    every spatial dimension where it is larger. *)
Fixpoint narrow_to_weight (dims : list nat) (gW_size w_size : list Z) (gW : var)
  : Ops var :=
  match dims with
  | [] => oret gW
  | i :: dims' =>
      if Z.gtb (nth i gW_size 0) (nth i w_size 0) then
        let! gW' := apply_fn (Narrow (Z.of_nat i) 0 (nth i w_size 0)) [gW] in
        narrow_to_weight dims' gW_size w_size gW'
      else narrow_to_weight dims' gW_size w_size gW
  end.

(** The convolution over the groups of lines 601-617 and 679-699: one
    ConvForward when there is a single group, else one per group on the
    slices of both operands and a concatenation. *)
Definition grouped_conv (conv_params : ConvParams) (groups : Z)
    (x : var) (x_dim : nat) (gOt : var) (cat_dim : Z) : Ops var :=
  if Z.eqb groups 1 then
    let! gOt := contiguous_if_cuda "gOt" gOt in
    apply_fn (ConvForwardOp conv_params) [x; gOt; None]
  else
    if Z.ltb groups 0 then othrow (logic_error "std::length_error") else
    let! list :=
      ofor_each (seqZ 0 groups)
        (fun g =>
           let! x_g := subvariable x x_dim groups g in
           let! gOt_g := subvariable gOt 0 groups g in
           let! gOt_g := contiguous_if_cuda "gOt_g" gOt_g in
           apply_fn (ConvForwardOp conv_params) [x_g; gOt_g; None]) in
    apply_fn (Cat cat_dim) list.

(** ConvBackwardBackward::apply, lines 530-705: the three values it
    returns, ggO, gI and gW. *)
Definition ConvBackwardBackward_apply (self : ConvBackwardBackward)
    (grad_grad_inputs : list var) : Ops (var * var * var) :=
  check! olift (check_input_variables "ConvNdBackwardBackward"
                  grad_grad_inputs 3 0 []).1 in
  let params := cbb_params self in
  if transposed params then
    othrow (runtime_error "ConvBackwardBackward does not support transposed convolution")
  else
    let ggI := default None (grad_grad_inputs !! 0%nat) in
    let ggW := default None (grad_grad_inputs !! 1%nat) in
    let ggb := default None (grad_grad_inputs !! 2%nat) in
    let! gO := ounpack (cbb_grad_output_ self) in
    let! weight := ounpack (cbb_weight_ self) in
    let! input := ounpack (cbb_input_ self) in
    check! var_tensor "input" input in
    (* ggO = conv(w, ggI) + conv(ggW, i) + ggb *)
    let! (ggO, weight) :=
      (if defined ggI then
         let! weight := contiguous_if_cuda "weight" weight in
         let! ggO := apply_fn (ConvForwardOp params) [ggI; weight; None] in
         oret (ggO, weight)
       else oret (None, weight)) in
    let! (ggO, ggW) :=
      (if defined ggW then
         let! ggW := contiguous_if_cuda "ggW" ggW in
         let! input2 := ounpack (cbb_input_ self) in
         let! ggW_term := apply_fn (ConvForwardOp params) [input2; ggW; None] in
         if defined ggO then
           let! sum := apply_fn Add [ggO; ggW_term] in oret (sum, ggW)
         else oret (ggW_term, ggW)
       else oret (ggO, ggW)) in
    let! ggO :=
      (if defined ggb then
         let! gO_sizes := var_sizes "gO" gO in
         let! ggb_sizes := var_sizes "ggb" ggb in
         let new_size :=
           <[1%nat := nth 0 ggb_sizes 0]> (replicate (length gO_sizes) 1) in
         let! ggb_contiguous := apply_fn Contiguous [ggb] in
         let! ggb_view := apply_fn (View new_size) [ggb_contiguous] in
         let! ggb_expanded := apply_fn (Expand gO_sizes) [ggb_view] in
         if defined ggO then apply_fn Add [ggO; ggb_expanded]
         else oret ggb_expanded
       else oret ggO) in
    (* gW = conv(ggI, gO) *)
    let! gW :=
      (if defined ggI then
         let gw_conv_params := swap_stride_dilation (with_groups params 1) in
         let! gOt := apply_fn (Transpose 0 1) [gO] in
         let! ggIt := apply_fn (Transpose 0 1) [ggI] in
         let! gWt := grouped_conv gw_conv_params (groups params) ggIt 0 gOt 1 in
         let! gW := apply_fn (Transpose 0 1) [gWt] in
         let! gW_size := var_sizes "gW" gW in
         let! w_size := var_sizes "weight" weight in
         narrow_to_weight (seq 2 (length gW_size - 2)) gW_size w_size gW
       else oret None) in
    (* gI = convT(gO, ggW) *)
    let! gI :=
      (if defined ggW then
         let gi_conv_params := swap_stride_dilation (with_transposed params true) in
         let! w_size := var_sizes "weight" weight in
         let! input_size := var_sizes "input" input in
         let! gO_size := var_sizes "gO" gO in
         let gi_conv_params :=
           gi_output_padding gi_conv_params
             (drop 2 w_size) (drop 2 input_size) (drop 2 gO_size) in
         let groups := groups gi_conv_params in
         let gi_conv_params := with_groups gi_conv_params 1 in
         let! ggWt := apply_fn (Transpose 0 1) [ggW] in
         let! gOt := apply_fn (Transpose 0 1) [gO] in
         let! gIt := grouped_conv gi_conv_params groups ggWt 1 gOt 0 in
         apply_fn (Transpose 0 1) [gIt]
       else oret None) in
    oret (ggO, gI, gW).

End DoubleBackward.

(** Stub autograd functions: they build leaves of plausible shapes and do
    not touch the heap. *)
Module StubOps.

Definition result_leaf (t : Stub.StubTensor) : Var Stub.StubTensor unit :=
  Some (Stub.leaf t false 0%nat).

Definition st_apply_op (op : AutogradOp) (vs : list (Var Stub.StubTensor unit))
    (h : Heap) : result (Var Stub.StubTensor unit) * Heap :=
  match op, vs with
  | Contiguous, [Some a] => (inr (Some a), h)
  | ConvForwardOp _, [Some a; Some b; _] =>
      (inr (result_leaf (Stub.conv_shape (v_data a) (v_data b))), h)
  | Add, [Some a; Some _] => (inr (Some a), h)
  | View size, [Some a] | Expand size, [Some a] =>
      (inr (result_leaf (Stub.set_sizes (v_data a) size)), h)
  | Transpose d0 d1, [Some a] =>
      (inr (result_leaf (Stub.st_transpose (v_data a) d0 d1)), h)
  | Narrow d start len, [Some a] =>
      (inr (result_leaf (Stub.st_narrow (v_data a) d start len)), h)
  | Cat _, Some a :: _ => (inr (Some a), h)
  | _, _ => (inl (library_error "unsupported arguments"), h)
  end.

Global Instance functions : AutogradFunctions Stub.library := {|
  apply_op := st_apply_op
|}.

(** The double-backward node of a convolution of an activation with a
    parameter, for the gradient [grad_output]. *)
Definition double_backward_node (p : ConvParams)
    (input weight grad_output : Stub.StubTensor) : ConvBackwardBackward :=
  {| cbb_function :=
       {| next_functions := []; num_inputs := 3; output_needed := [true; true; true];
          is_executable := true |};
     cbb_params := p;
     cbb_input_ :=
       (SavedVariable_new (Some (Stub.produced input 0%nat 0%nat)) false
          Stub.graph_heap).1;
     cbb_weight_ :=
       (SavedVariable_new (Some (Stub.parameter weight 1%nat)) false
          Stub.graph_heap).1;
     cbb_bias_ := (SavedVariable_new None false Stub.graph_heap).1;
     cbb_grad_output_ :=
       (SavedVariable_new (Some (Stub.leaf grad_output false 0%nat)) false
          Stub.graph_heap).1 |}.

Definition state0 : OpState (L := Stub.library) :=
  {| op_heap := Stub.graph_heap; op_log := [] |}.

End StubOps.

(** ** A library of integer tensors, to run convolutions on numbers

    Tensors are stored in row-major order.  Slicing, concatenation and the
    two-dimensional convolution (conv2d_forward, conv2d_backward) and the
    sum along a dimension compute on the entries; the other kernels are not
    provided.  It is only used to evaluate the definitions above. *)
Module Dense.

Record DenseTensor : Type := mkDenseTensor {
  dn_sizes : list Z;
  dn_type : TensorType;
  dn_data : list Z
}.

Definition numel (s : list Z) : Z := fold_right Z.mul 1 s.

Definition sum_list (l : list Z) : Z := fold_right Z.add 0 l.

(** The entries of [t] at positions [start .. start + len) of dimension [d],
    for the [o]-th index of the dimensions before [d]. *)
Definition chunk (t : DenseTensor) (d : nat) (o start len : Z) : list Z :=
  let n := nth d (dn_sizes t) 0 in
  let block := numel (drop (S d) (dn_sizes t)) in
  take (Z.to_nat (len * block)) (drop (Z.to_nat ((o * n + start) * block)) (dn_data t)).

Definition dn_narrow (t : DenseTensor) (d start len : Z) : DenseTensor :=
  let dn := Z.to_nat d in
  {| dn_sizes := <[dn := len]> (dn_sizes t);
     dn_type := dn_type t;
     dn_data :=
       concat (map (fun o => chunk t dn o start len)
                 (seqZ 0 (numel (take dn (dn_sizes t))))) |}.

Definition dn_cat_out (out : DenseTensor) (ts : list (option DenseTensor)) (dim : Z)
  : result DenseTensor :=
  let dn := Z.to_nat dim in
  match ts with
  | Some t :: _ =>
      if forallb (fun x : option DenseTensor => bool_decide (is_Some x)) ts then
        let defined_ts := omap id ts in
        inr {| dn_sizes :=
                 <[dn := sum_list (map (fun x => nth dn (dn_sizes x) 0) defined_ts)]>
                   (dn_sizes t);
               dn_type := dn_type out;
               dn_data :=
                 concat (map (fun o =>
                                concat (map (fun x =>
                                               chunk x dn o 0 (nth dn (dn_sizes x) 0))
                                          defined_ts))
                           (seqZ 0 (numel (take dn (dn_sizes t))))) |}
      else inl (library_error "cat: undefined tensor")
  | _ => inl (library_error "cat: undefined tensor")
  end.

(** The entry [n, c, y, x] of a tensor of four dimensions; 0 outside of it,
    which is the padding of a convolution. *)
Definition at4 (t : DenseTensor) (n c y x : Z) : Z :=
  let C := nth 1 (dn_sizes t) 0 in
  let H := nth 2 (dn_sizes t) 0 in
  let W := nth 3 (dn_sizes t) 0 in
  if (0 <=? y) && (y <? H) && (0 <=? x) && (x <? W)
  then nth (Z.to_nat (((n * C + c) * H + y) * W + x)) (dn_data t) 0
  else 0.

(** The tensor of sizes [n1; n2; n3; n4] with the entries [f a b c d]. *)
Definition tabulate4 (ty : TensorType) (n1 n2 n3 n4 : Z) (f : Z -> Z -> Z -> Z -> Z)
  : DenseTensor :=
  {| dn_sizes := [n1; n2; n3; n4];
     dn_type := ty;
     dn_data :=
       a ← seqZ 0 n1; b ← seqZ 0 n2; c ← seqZ 0 n3; d ← seqZ 0 n4; [f a b c d] |}.

Definition sum_over (n : Z) (f : Z -> Z) : Z := sum_list (map f (seqZ 0 n)).

Definition out_extent (size kernel stride padding : Z) : Z :=
  (size + 2 * padding - kernel) `div` stride + 1.

Definition conv2d (i w : DenseTensor) (bias : option DenseTensor)
    (stride padding : list Z) : DenseTensor :=
  let sh := nth 0 stride 1 in let sw := nth 1 stride 1 in
  let ph := nth 0 padding 0 in let pw := nth 1 padding 0 in
  let kh := nth 2 (dn_sizes w) 0 in let kw := nth 3 (dn_sizes w) 0 in
  tabulate4 (dn_type i)
    (nth 0 (dn_sizes i) 0) (nth 0 (dn_sizes w) 0)
    (out_extent (nth 2 (dn_sizes i) 0) kh sh ph)
    (out_extent (nth 3 (dn_sizes i) 0) kw sw pw)
    (fun n o oy ox =>
       match bias with Some b => nth (Z.to_nat o) (dn_data b) 0 | None => 0 end
       + sum_over (nth 1 (dn_sizes w) 0) (fun c =>
           sum_over kh (fun ky =>
             sum_over kw (fun kx =>
               at4 i n c (oy * sh + ky - ph) (ox * sw + kx - pw) * at4 w o c ky kx)))).

Definition conv2d_grad_input (go i w : DenseTensor) (stride padding : list Z)
  : DenseTensor :=
  let sh := nth 0 stride 1 in let sw := nth 1 stride 1 in
  let ph := nth 0 padding 0 in let pw := nth 1 padding 0 in
  let kh := nth 2 (dn_sizes w) 0 in let kw := nth 3 (dn_sizes w) 0 in
  tabulate4 (dn_type i)
    (nth 0 (dn_sizes i) 0) (nth 1 (dn_sizes i) 0)
    (nth 2 (dn_sizes i) 0) (nth 3 (dn_sizes i) 0)
    (fun n c y x =>
       sum_over (nth 0 (dn_sizes w) 0) (fun o =>
         sum_over kh (fun ky =>
           sum_over kw (fun kx =>
             if ((y + ph - ky) `mod` sh =? 0) && ((x + pw - kx) `mod` sw =? 0)
             then at4 go n o ((y + ph - ky) `div` sh) ((x + pw - kx) `div` sw)
                  * at4 w o c ky kx
             else 0)))).

Definition conv2d_grad_weight (go i w : DenseTensor) (stride padding : list Z)
  : DenseTensor :=
  let sh := nth 0 stride 1 in let sw := nth 1 stride 1 in
  let ph := nth 0 padding 0 in let pw := nth 1 padding 0 in
  tabulate4 (dn_type w)
    (nth 0 (dn_sizes w) 0) (nth 1 (dn_sizes w) 0)
    (nth 2 (dn_sizes w) 0) (nth 3 (dn_sizes w) 0)
    (fun o c ky kx =>
       sum_over (nth 0 (dn_sizes go) 0) (fun n =>
         sum_over (nth 2 (dn_sizes go) 0) (fun oy =>
           sum_over (nth 3 (dn_sizes go) 0) (fun ox =>
             at4 go n o oy ox * at4 i n c (oy * sh + ky - ph) (ox * sw + kx - pw))))).

Definition conv2d_grad_bias (go : DenseTensor) : DenseTensor :=
  {| dn_sizes := [nth 1 (dn_sizes go) 0];
     dn_type := dn_type go;
     dn_data :=
       map (fun o =>
              sum_over (nth 0 (dn_sizes go) 0) (fun n =>
                sum_over (nth 2 (dn_sizes go) 0) (fun oy =>
                  sum_over (nth 3 (dn_sizes go) 0) (fun ox => at4 go n o oy ox))))
         (seqZ 0 (nth 1 (dn_sizes go) 0)) |}.

Definition not_provided {A} : result A := inl (library_error "kernel not provided").

Definition dn_forward (k : ForwardKernel DenseTensor) : result DenseTensor :=
  match k with
  | conv2d_forward i w _ bias stride padding _ _ => inr (conv2d i w bias stride padding)
  | _ => not_provided
  end.

Definition dn_backward (k : BackwardKernel DenseTensor)
  : result (option DenseTensor * option DenseTensor * option DenseTensor) :=
  match k with
  | conv2d_backward go i w _ stride padding _ _ m =>
      inr (if mask_bit m 0 then Some (conv2d_grad_input go i w stride padding) else None,
           if mask_bit m 1 then Some (conv2d_grad_weight go i w stride padding) else None,
           if mask_bit m 2 then Some (conv2d_grad_bias go) else None)
  | _ => not_provided
  end.

Definition dn_new (ty : TensorType) (s : list Z) : DenseTensor :=
  {| dn_sizes := s; dn_type := ty; dn_data := replicate (Z.to_nat (numel s)) 0 |}.

Definition set_sizes (t : DenseTensor) (s : list Z) : DenseTensor :=
  {| dn_sizes := s; dn_type := dn_type t; dn_data := dn_data t |}.

#[local] Instance library : NumericLibrary := {|
  TensorImpl := DenseTensor;
  Convolution := unit;
  ValueTracingState := unit;
  sizes := dn_sizes;
  type := dn_type;
  contiguous := fun t => t;
  unsqueeze := fun t d =>
    set_sizes t (take (Z.to_nat d) (dn_sizes t) ++ 1 :: drop (Z.to_nat d) (dn_sizes t));
  squeeze := fun t d =>
    if Z.eqb (nth (Z.to_nat d) (dn_sizes t) 0) 1
    then set_sizes t (take (Z.to_nat d) (dn_sizes t) ++ drop (S (Z.to_nat d)) (dn_sizes t))
    else t;
  narrow := dn_narrow;
  transpose := fun t _ _ => t;
  view := set_sizes;
  type_tensor := fun ty => dn_new ty [0];
  type_tensor_sized := dn_new;
  type_zeros := dn_new;
  resize_ := fun t s => dn_new (dn_type t) s;
  zero_ := fun t => dn_new (dn_type t) (dn_sizes t);
  run_forward := dn_forward;
  run_cudnn_full := fun _ => not_provided;
  run_backward := dn_backward;
  run_depthwise_backward := fun _ => not_provided;
  run_gradient := fun _ => not_provided;
  cat_out := dn_cat_out
|}.

(** The tensor of the given sizes whose entries count up from [first] in
    steps of [step], modulo 7, on the CPU. *)
Definition ramp (s : list Z) (first step : Z) : DenseTensor :=
  {| dn_sizes := s; dn_type := CPUFloat;
     dn_data := map (fun k => (first + step * k) `mod` 7) (seqZ 0 (numel s)) |}.

(** The weight of the convolution with a single group that computes what
    the convolution with [G] groups and the weight [w] computes: [w] on the
    diagonal blocks, 0 elsewhere. *)
Definition block_diagonal (w : DenseTensor) (G : Z) : DenseTensor :=
  let O := nth 0 (dn_sizes w) 0 in
  let C := nth 1 (dn_sizes w) 0 in
  tabulate4 (dn_type w) O (C * G) (nth 2 (dn_sizes w) 0) (nth 3 (dn_sizes w) 0)
    (fun o c ky kx =>
       if o `div` (O `div` G) =? c `div` C then at4 w o (c `mod` C) ky kx else 0).

(** A backward node with the given parameters, the workspace of the
    fallback path and empty guards. *)
Definition conv_backward_node (p : ConvParams) : ConvBackward :=
  {| cb_function :=
       {| next_functions := []; num_inputs := 1; output_needed := [true; true; true];
          is_executable := true |};
     cb_params := p;
     cb_ctx :=
       {| columns := replicate (Z.to_nat (groups p)) (Some (dn_new CPUFloat [0]));
          ones := replicate (Z.to_nat (groups p)) (Some (dn_new CPUFloat [0]));
          convolution := None |};
     input_ := SavedVariable_empty;
     weight_ := SavedVariable_empty;
     bias_ := SavedVariable_empty |}.

End Dense.

(** ** Vocabulary of the statements *)

(** [g'] is [g] with its data reference cleared and nothing else changed. *)
Definition released_from {T S} (g g' : SavedVariable T S) : Prop :=
  data g' = None
  /\ requires_grad g' = requires_grad g
  /\ expected_version g' = expected_version g
  /\ version g' = version g
  /\ has_grad_fn g' = has_grad_fn g
  /\ output_nr g' = output_nr g
  /\ grad_accumulator g' = grad_accumulator g
  /\ _grad_fn g' = _grad_fn g
  /\ tracing_state g' = tracing_state g.

(** The invariant of a correctly constructed graph: a guard of a leaf that
    requires grad points to an accumulator that is still owned by the graph. *)
Definition accumulator_kept {T S} (h : Heap) (g : SavedVariable T S) : Prop :=
  requires_grad g = true -> has_grad_fn g = false ->
  expired h (grad_accumulator g) = false.

(** An action that only appends calls satisfying [P] to the record. *)
Definition appends {L : NumericLibrary} {A}
    (P : Call TensorImpl Convolution -> Prop) (m : Lib A) : Prop :=
  forall log, exists new, (m log).2 = log ++ new /\ Forall P new.

(** The input-flag contract of a stage, in the words of the specification:
    a live input is incompatible with the stage when it is defined but the
    stage was compiled with that input undefined, or when it requires grad
    but the stage was compiled with requires_grad false. *)
Definition flag_mismatch {T S} (traced : VariableFlags) (input : Var T S) : bool :=
  match input with
  | Some impl =>
      negb (vf_defined traced) || (negb (vf_requires_grad traced) && v_requires_grad impl)
  | None => false
  end.

(** The zero-filled tensor of a traced type, in the words of the
    specification: the zeros that the library makes with the traced sizes,
    of the traced scalar type, on the CPU when the traced device is negative
    and on CUDA otherwise. *)
Definition traced_zeros {L : NumericLibrary} (ty : TracedTensorType) : TensorImpl :=
  type_zeros
    {| backend := if Z.ltb (tt_device ty) 0 then kCPU else kCUDA;
       scalarType := tt_scalarType ty |}
    (tt_sizes ty).

(** What the stage is run on at one input position: the zero-filled tensor
    of the traced type when the stage expects a defined input and the live
    one is undefined, else the data of the live input as it is. *)
Definition stage_input {L : NumericLibrary} {I : Interpreter L}
    (interp : InterpreterState) (i : nat) (traced : VariableFlags)
    (input : Var TensorImpl ValueTracingState) : Tensor TensorImpl :=
  match input with
  | None =>
      if vf_defined traced
      then Some (traced_zeros (tensorTypeForInput interp i))
      else None
  | Some impl => Some (v_data impl)
  end.

(** What a library is expected to do when it makes zeros: the tensor has
    the sizes and the type it was asked for. *)
Definition zeros_as_asked (L : NumericLibrary) : Prop :=
  forall ty s, sizes (type_zeros ty s) = s /\ type (type_zeros ty s) = ty.

(** [reaches self k last]: [last] is the node that [k] applies in a row
    lead to from [self]; each of them returns, the first one is on [self] and
    every later one on the node of the next stage that the apply before it
    returned.  The inputs and the heap of each apply are arbitrary. *)
Inductive reaches {L : NumericLibrary} {I : Interpreter L}
    (self : InterpreterAutogradFunction)
  : nat -> InterpreterAutogradFunction -> Prop :=
| reaches_self : reaches self 0 self
| reaches_next k mid inputs h mid' h' res id gf :
    reaches self k mid ->
    InterpreterAutogradFunction_apply mid inputs h = (mid', h', inr res) ->
    next_stage res = Some (id, gf) ->
    reaches self (S k) gf.

(** What wrapping the outputs keeps true of the node of the next stage. *)
Definition next_stage_node {L : NumericLibrary} {I : Interpreter L}
    (self gf : InterpreterAutogradFunction) : Prop :=
  stage_ gf = S (stage_ self)
  /\ stage_details_ gf = stage_details_ self
  /\ used_ gf = false
  /\ (S (stage_ self) = length (stage_details_ self) ->
      next_functions (iaf_function gf) = []).

(** The gradient a library call is asked for: slot 0 is the input gradient,
    slot 1 the weight gradient, slot 2 the bias gradient.  A kernel that takes
    an output mask is asked for the slots whose bit is set. *)
Definition backward_mask {T} (k : BackwardKernel T) : output_mask3 :=
  match k with
  | conv_transpose2d_backward _ _ _ _ _ _ _ _ _ _ m
  | conv_transpose3d_backward _ _ _ _ _ _ _ _ _ m
  | conv_dilated2d_backward _ _ _ _ _ _ _ _ _ m
  | conv2d_backward _ _ _ _ _ _ _ _ m
  | conv_dilated3d_backward _ _ _ _ _ _ _ _ _ m
  | conv3d_backward _ _ _ _ _ _ _ _ m => m
  end.

Definition gradient_slot {T C} (k : GradientKernel T C) : nat :=
  match k with
  | cudnn_convolution_forward _ _ _ _ _ _
  | cudnn_convolution_backward_data _ _ _ _ _ _
  | nnpack_SpatialConvolution_updateGradInput _ _ _ _ _ _ _ _ => 0
  | cudnn_convolution_backward_filter _ _ _ _ _ _
  | nnpack_SpatialConvolution_accGradWeight _ _ _ _ _ _ _ => 1
  | cudnn_convolution_backward_bias _ _ _
  | sum_dim _ _ => 2
  end.

Definition computes {T C} (c : Call T C) (slot : nat) : bool :=
  match c with
  | CallBackward k => mask_bit (backward_mask k) slot
  | CallDepthwiseBackward (conv_depthwise2d_backward _ _ _ _ _ _ _ (m0, m1)) =>
      mask_bit (m0, m1, false) slot
  | CallGradient k => Nat.eqb (gradient_slot k) slot
  | CallForward _ | CallCudnnFull _ | CallCat _ _ => false
  end.

(** Every call asks only for gradients whose mask bit is set. *)
Definition within_mask {T C} (m : output_mask3) (c : Call T C) : Prop :=
  forall slot, computes c slot = true -> mask_bit m slot = true.

(** The one call of the code that is not guarded by the bit of its own
    gradient: cudnn_convolution_backward_filter, on an input for which
    use_cudnn holds (lines 451-457). *)
Definition cudnn_filter_call {L : NumericLibrary} (cfg : BuildConfig) (p : ConvParams)
    (c : Call TensorImpl Convolution) : Prop :=
  match c with
  | CallGradient (cudnn_convolution_backward_filter _ input _ _ _ _) =>
      use_cudnn cfg p input = true
  | _ => False
  end.

(** Every call asks only for gradients whose mask bit is set, but for the
    weight gradient that cudnn_convolution_backward_filter computes, which
    may also be asked for when the bias bit is set. *)
Definition within_mask_or_cudnn_filter {L : NumericLibrary} (cfg : BuildConfig)
    (p : ConvParams) (m : output_mask3) (c : Call TensorImpl Convolution) : Prop :=
  forall slot,
    computes c slot = true ->
    mask_bit m slot = true
    \/ (slot = 1%nat /\ WITH_CUDNN cfg = true /\ cudnn_filter_call cfg p c
        /\ mask_bit m 2 = true).

(** The g-th of [groups] equal slices of a tensor along [dim]: what
    [subtensor] returns for a defined tensor. *)
Definition slice {L : NumericLibrary} (t : TensorImpl) (dim : nat) (groups g : Z)
  : TensorImpl :=
  let n := Z.quot (size t dim) groups in
  contiguous (narrow t (Z.of_nat dim) (n * g) n).

(** The context the fallback path of the forward leaves behind. *)
Definition fallback_ctx {L : NumericLibrary} (self : ConvParams) (input : TensorImpl)
  : ConvCtx :=
  {| columns := replicate (Z.to_nat (groups self)) (Some (type_tensor (type input)));
     ones := replicate (Z.to_nat (groups self)) (Some (type_tensor (type input)));
     convolution := None |}.

(** The grouped convolution in the words of the specification: split the
    channels, run one convolution with a single group on each slice, and
    concatenate the results in group order along dimension 1. *)
Definition split_conv_forward {L : NumericLibrary} (cfg : BuildConfig)
    (self : ConvParams) (input weight : TensorImpl) (bias : Tensor TensorImpl)
  : Lib (Tensor TensorImpl * ConvCtx) :=
  lbind
    (for_each (seqZ 0 (groups self))
       (fun g =>
          lbind
            (ConvForward_dispatch cfg (with_groups self 1)
               (slice input 1 (groups self) g) (slice weight 0 (groups self) g)
               (subtensor bias 0 (groups self) g))
            (fun r => lret r.1)))
    (fun outputs =>
       lbind (cat outputs 1) (fun output => lret (output, fallback_ctx self input))).

(** The backward node of the single-group convolution on slice [g]: the same
    node with one group and the workspace of that group. *)
Definition group_node {L : NumericLibrary} (self : ConvBackward) (g : Z)
  : ConvBackward :=
  {| cb_function := cb_function self;
     cb_params := with_groups (cb_params self) 1;
     cb_ctx :=
       {| columns := [default None (columns (cb_ctx self) !! Z.to_nat g)];
          ones := [default None (ones (cb_ctx self) !! Z.to_nat g)];
          convolution := convolution (cb_ctx self) |};
     input_ := input_ self;
     weight_ := weight_ self;
     bias_ := bias_ self |}.

(** The grouped backward in the same words: one single-group backward per
    slice, then one concatenation per requested gradient, along dimension 1
    for the input gradient and dimension 0 for the weight and bias
    gradients. *)
Definition split_conv_backward {L : NumericLibrary} (cfg : BuildConfig)
    (self : ConvBackward) (input weight grad_output : TensorImpl)
    (bias : Tensor TensorImpl) (output_mask : output_mask3)
  : Lib (Tensor TensorImpl * Tensor TensorImpl * Tensor TensorImpl) :=
  let G := groups (cb_params self) in
  lbind
    (for_each (seqZ 0 G)
       (fun g =>
          ConvBackward_dispatch cfg (group_node self g)
            (slice input 1 G g) (slice weight 0 G g) (slice grad_output 1 G g)
            (subtensor bias 0 G g) output_mask))
    (fun grads =>
       lbind (if mask_bit output_mask 0
              then cat (map (fun t => t.1.1) grads) 1 else lret None)
         (fun grad_input =>
            lbind (if mask_bit output_mask 1
                   then cat (map (fun t => t.1.2) grads) 0 else lret None)
              (fun grad_weight =>
                 lbind (if mask_bit output_mask 2
                        then cat (map (fun t => t.2) grads) 0 else lret None)
                   (fun grad_bias => lret (grad_input, grad_weight, grad_bias))))).


(** The calls of the fallback path: the THNN and NNPACK kernels, the
    reduction that gives the bias gradient and the concatenation; neither a
    cuDNN entry point nor a depthwise kernel. *)
Definition is_fallback_call {T C} (c : Call T C) : bool :=
  match c with
  | CallForward (conv_depthwise2d_forward _ _ _ _ _ _ _) => false
  | CallForward _ => true
  | CallBackward _ => true
  | CallGradient (nnpack_SpatialConvolution_updateGradInput _ _ _ _ _ _ _ _)
  | CallGradient (nnpack_SpatialConvolution_accGradWeight _ _ _ _ _ _ _)
  | CallGradient (sum_dim _ _) => true
  | CallGradient _ => false
  | CallCat _ _ => true
  | CallCudnnFull _ | CallDepthwiseBackward _ => false
  end.


(** [h'] has every version block of [h], each with the version it has in
    [h]; blocks may have been added after them. *)
Definition keeps_versions (h h' : Heap) : Prop :=
  (next_block h <= next_block h')%nat
  /\ forall b, (b < next_block h)%nat -> version_blocks h' !! b = version_blocks h !! b.

(** The inputs a stage differentiates: used in the trace, and traced as
    requiring grad. *)
Definition differentiated (details : StageDetails) (i : nat) : bool :=
  default false (used_inputs details !! i)
  && default false (vf_requires_grad <$> input_flags details !! i).


(** An entry of a copy list serves a request: it was registered with the
    requested asyncness and for a type the source is an instance of. *)
Definition serves {World} (PyType_IsSubtype : PyTypeObject -> PyTypeObject -> bool)
    (src : PyObject) (want_async : bool) (it : THPCopyInfo World) : bool :=
  Bool.eqb (async it) want_async && PyType_IsSubtype (ob_type src) (srcType it).

(** Running the copy function of an entry as the dispatch does: with the
    broadcast flag of the caller, reporting success unless it throws. *)
Definition run_entry {World} (it : THPCopyInfo World) (dst src : PyObject)
    (caller_broadcast : bool) : Py World bool :=
  fun st =>
    match copy it dst src caller_broadcast st with
    | (inl e, st') => (inl e, st')
    | (inr _, st') => (inr true, st')
    end.

(** The message of the error THPCopy sets. *)
Definition not_implemented (dst src : PyObject) : string :=
  "copy from " +:+ THPUtils_typename src +:+ " to " +:+
  THPUtils_typename dst +:+ " isn't implemented".


(** The parameters of the convolutions a double backward applies: the
    parameters of the node itself, or, for the terms that handle the groups
    themselves, a single group with the stride and the dilation of the node
    exchanged and its padding. *)
Definition double_backward_conv {L : NumericLibrary} (params : ConvParams)
    (c : OpCall) : Prop :=
  match c.1 with
  | ConvForwardOp p =>
      p = params
      \/ (groups p = 1
          /\ stride p = dilation params
          /\ dilation p = stride params
          /\ padding p = padding params
          /\ (transposed p = false -> output_padding p = output_padding params))
  | _ => True
  end.

(** An action that only appends applications satisfying [P] to the record
    of applied functions. *)
Definition applies {L : NumericLibrary} {F : AutogradFunctions L} {A}
    (P : OpCall -> Prop) (m : Ops A) : Prop :=
  forall s, exists new, op_log (m s).2 = op_log s ++ new /\ Forall P new.


(** What a computation returns, seen through [f], or the exception it
    throws. *)
Definition returned {A B} (f : A -> B) (r : result A) : result B :=
  match r with
  | inl e => inl e
  | inr a => inr (f a)
  end.

(** * Properties *)

(** ** Snapshot guards *)

Section SavedVariableFacts.

Context {T S : Type}.

Implicit Types (g : SavedVariable T S) (v : VariableImpl T S) (h : Heap).
Implicit Types (saved_for : shared_fn).

Lemma unpack_released g saved_for h :
  data g = None -> defined (version g) = true ->
  unpack g saved_for h = inl ReusedAfterReleaseError.
Proof.
  intros Hd Hv. unfold unpack. rewrite Hd, Hv. reflexivity.
Qed.

Lemma unpack_never_populated g saved_for h :
  data g = None -> version g = None -> unpack g saved_for h = inr None.
Proof.
  intros Hd Hv. unfold unpack. rewrite Hd, Hv. reflexivity.
Qed.

Lemma unpack_stale g saved_for h d ver :
  data g = Some d -> version g = Some ver -> is_modified h ver = true ->
  unpack g saved_for h = inl StaleVersionError.
Proof.
  intros Hd Hv Hm. unfold unpack. rewrite Hd, Hv, Hm. reflexivity.
Qed.

(** The fields the constructor records for a defined value. *)
Lemma SavedVariable_new_fields v is_output h :
  let g := (SavedVariable_new (Some v) is_output h).1 in
  data g = Some (v_data v)
  /\ requires_grad g = v_requires_grad v
  /\ version g = Some (save h v)
  /\ has_grad_fn g = negb (is_leaf v)
  /\ output_nr g = v_output_nr v
  /\ _grad_fn g = (if is_output then None else v_grad_fn v)
  /\ tracing_state g = v_tracing_state v.
Proof.
  unfold SavedVariable_new.
  destruct (negb (negb (is_leaf v))).
  - destruct (Variable_grad_accumulator v h) as [p h1]. simpl.
    destruct is_output; repeat split.
  - simpl. destruct is_output; repeat split.
Qed.

Lemma SavedVariable_new_accumulator v is_output h :
  grad_accumulator (SavedVariable_new (Some v) is_output h).1 =
  if is_leaf v then (Variable_grad_accumulator v h).1 else None.
Proof.
  unfold SavedVariable_new. rewrite negb_involutive.
  destruct (is_leaf v); [|reflexivity].
  destruct (Variable_grad_accumulator v h) as [p h1]. reflexivity.
Qed.

Lemma drop_temporary_blocks h p h1 :
  version_blocks (drop_temporary h p h1) = version_blocks h1.
Proof.
  unfold drop_temporary. destruct p; [|reflexivity]. case_bool_decide; reflexivity.
Qed.

Lemma Variable_grad_accumulator_blocks v h :
  version_blocks (Variable_grad_accumulator v h).2 = version_blocks h.
Proof.
  unfold Variable_grad_accumulator.
  destruct (v_requires_grad v); [|reflexivity].
  destruct (expired h (v_grad_accumulator v)); reflexivity.
Qed.

(** Capturing a value does not touch any version block. *)
Lemma SavedVariable_new_blocks (variable : Var T S) is_output h :
  version_blocks (SavedVariable_new variable is_output h).2 = version_blocks h.
Proof.
  unfold SavedVariable_new. destruct variable as [v|]; [|reflexivity].
  destruct (negb (negb (is_leaf v))); [|reflexivity].
  pose proof (Variable_grad_accumulator_blocks v h) as Hb.
  destruct (Variable_grad_accumulator v h) as [p h1]. simpl in *.
  rewrite drop_temporary_blocks. exact Hb.
Qed.

Lemma live_version_unchanged h h' b :
  version_blocks h' = version_blocks h -> live_version h' b = live_version h b.
Proof. unfold live_version. intros ->. reflexivity. Qed.

Lemma live_version_bump v h :
  live_version (bump_version v h) (v_version_counter v) = current_version h v + 1.
Proof.
  unfold live_version, bump_version, set_version_blocks. simpl.
  rewrite lookup_insert_eq. reflexivity.
Qed.

(** [n] in-place mutations raise the live version by [n]. *)
Lemma live_version_mutate n v h :
  live_version (mutate_in_place n v h) (v_version_counter v) =
  live_version h (v_version_counter v) + Z.of_nat n.
Proof.
  revert h. induction n as [|n IH]; intros h.
  - simpl. lia.
  - cbn [mutate_in_place]. rewrite IH, live_version_bump.
    unfold current_version. lia.
Qed.

Lemma is_modified_iff h ver :
  is_modified h ver = true <->
  version_at_save ver <> live_version h (version_block ver).
Proof.
  unfold is_modified. rewrite negb_true_iff, Z.eqb_neq. reflexivity.
Qed.

Lemma is_modified_false_iff h ver :
  is_modified h ver = false <->
  version_at_save ver = live_version h (version_block ver).
Proof.
  unfold is_modified. rewrite negb_false_iff, Z.eqb_eq. reflexivity.
Qed.

(** A guard is not stale in a heap where its value kept the saved version. *)
Lemma save_unmodified v h h' :
  live_version h' (v_version_counter v) = live_version h (v_version_counter v) ->
  is_modified h' (save h v) = false.
Proof.
  intros H. apply is_modified_false_iff. simpl. unfold current_version. lia.
Qed.

(** The outcome of unpack once the release and version checks are passed. *)
Lemma unpack_checked g saved_for h d ver :
  data g = Some d -> version g = Some ver -> is_modified h ver = false ->
  unpack g saved_for h =
  if has_grad_fn g && negb (defined (_grad_fn g)) && negb (defined saved_for)
  then inl MissingProducerError
  else
    let grad_fn :=
      if has_grad_fn g && negb (defined (_grad_fn g)) then saved_for else _grad_fn g in
    if requires_grad g && negb (defined grad_fn) && expired h (grad_accumulator g)
    then inl MissingAccumulatorError
    else
      inr (Some (set_accumulator_and_trace
                   match grad_fn with
                   | Some fn => make_variable_fn h d (output_nr g) fn (version_block ver)
                   | None => make_variable_leaf d (requires_grad g) (version_block ver)
                   end
                   (grad_accumulator g) (tracing_state g))).
Proof.
  intros Hd Hv Hm. unfold unpack. rewrite Hd, Hv, Hm.
  destruct (has_grad_fn g && negb (defined (_grad_fn g))) eqn:E; simpl.
  - destruct saved_for as [fn|]; simpl; [|reflexivity].
    rewrite andb_false_r. simpl. reflexivity.
  - destruct (_grad_fn g) as [fn|]; simpl.
    + rewrite andb_false_r. reflexivity.
    + reflexivity.
Qed.

(** releaseVariables on one guard: every field but [data] is kept. *)
Lemma data_reset_frame g :
  requires_grad (data_reset g) = requires_grad g
  /\ expected_version (data_reset g) = expected_version g
  /\ version (data_reset g) = version g
  /\ has_grad_fn (data_reset g) = has_grad_fn g
  /\ output_nr (data_reset g) = output_nr g
  /\ grad_accumulator (data_reset g) = grad_accumulator g
  /\ _grad_fn (data_reset g) = _grad_fn g
  /\ tracing_state (data_reset g) = tracing_state g.
Proof. repeat split. Qed.

(** A populated guard that was released. *)
Lemma unpack_after_release g saved_for h :
  defined (version g) = true ->
  unpack (data_reset g) saved_for h = inl ReusedAfterReleaseError.
Proof. intros Hv. apply unpack_released; [reflexivity | exact Hv]. Qed.

(** A guard that unpacks to a defined value is populated. *)
Lemma unpack_defined_populated g saved_for h x :
  unpack g saved_for h = inr (Some x) ->
  defined (data g) = true /\ defined (version g) = true.
Proof.
  unfold unpack. destruct (data g) as [d|].
  - destruct (version g) as [ver|]; [split; reflexivity | discriminate].
  - destruct (defined (version g)); [discriminate|]. simpl. intros [=].
Qed.

End SavedVariableFacts.

Section SavedVariableClaims.

Context {T S : Type}.

Implicit Types (g : SavedVariable T S) (v : VariableImpl T S) (h : Heap).
Implicit Types (saved_for : shared_fn).

Lemma error_messages_distinct :
  MissingProducerError <> StaleVersionError
  /\ MissingAccumulatorError <> StaleVersionError
  /\ ReusedAfterReleaseError <> StaleVersionError
  /\ MissingProducerError <> MissingAccumulatorError
  /\ ReusedAfterReleaseError <> MissingAccumulatorError
  /\ StaleVersionError <> MissingAccumulatorError.
Proof. repeat split; intros [=]. Qed.

Lemma unpack_success_conditions g saved_for h d ver :
  data g = Some d -> version g = Some ver -> is_modified h ver = false ->
  (has_grad_fn g = false \/ defined (_grad_fn g) = true \/ defined saved_for = true) ->
  accumulator_kept h g ->
  (has_grad_fn g = false -> _grad_fn g = None) ->
  exists x, unpack g saved_for h = inr (Some x).
Proof.
  intros Hd Hv Hm Hp Hacc Hcons.
  rewrite (unpack_checked g saved_for h d ver Hd Hv Hm).
  destruct (has_grad_fn g) eqn:Hh; simpl.
  - destruct (_grad_fn g) as [fn|] eqn:Hg; simpl.
    + rewrite andb_false_r. simpl. eauto.
    + destruct Hp as [Hp | [Hp | Hp]]; try discriminate.
      destruct saved_for as [fn|]; [|discriminate]. simpl.
      rewrite andb_false_r. simpl. eauto.
  - rewrite (Hcons eq_refl). simpl.
    destruct (requires_grad g) eqn:Hr; simpl; [|eauto].
    rewrite (Hacc Hr Hh). simpl. eauto.
Qed.

(** C2 (amended): for every captured value, n >= 1 in-place mutations after
    the capture make unpack fail with StaleVersionError; with no mutation
    since the capture the version check passes (unpack never reports a stale
    version), and unpack returns a value whenever the producing node is
    available (the value is a leaf, or the node was stored, or the caller
    supplies it) and, for a leaf that requires grad, the accumulator has not
    expired. *)
Theorem saved_version_check v is_output saved_for h :
  let g := (SavedVariable_new (Some v) is_output h).1 in
  let h1 := (SavedVariable_new (Some v) is_output h).2 in
  (forall n, (0 < n)%nat ->
     unpack g saved_for (mutate_in_place n v h1) = inl StaleVersionError)
  /\ (forall h2,
        live_version h2 (v_version_counter v) = live_version h1 (v_version_counter v) ->
        unpack g saved_for h2 <> inl StaleVersionError
        /\ ((is_leaf v = true \/ is_output = false \/ defined saved_for = true) ->
            (is_leaf v = true -> v_requires_grad v = true ->
             expired h2 (grad_accumulator g) = false) ->
            exists x, unpack g saved_for h2 = inr (Some x))).
Proof.
  intros g h1.
  destruct (SavedVariable_new_fields v is_output h)
    as (Hd & Hr & Hv & Hh & Ho & Hg & Ht). fold g in Hd, Hr, Hv, Hh, Ho, Hg, Ht.
  assert (Hb : forall b, live_version h1 b = live_version h b).
  { intros b. apply live_version_unchanged, SavedVariable_new_blocks. }
  split.
  - intros n Hn.
    apply (unpack_stale g saved_for _ (v_data v) (save h v) Hd Hv).
    apply is_modified_iff. simpl.
    rewrite live_version_mutate, Hb. unfold current_version. lia.
  - intros h2 Hsame.
    assert (Hm : is_modified h2 (save h v) = false).
    { apply save_unmodified. rewrite Hsame. apply Hb. }
    split.
    + rewrite (unpack_checked g saved_for h2 _ _ Hd Hv Hm).
      destruct (_ && _ && negb (defined saved_for)); [intros [=]|].
      simpl. destruct (_ && _ && expired _ _); intros [=].
    + intros Hp Hacc.
      apply (unpack_success_conditions g saved_for h2 _ _ Hd Hv Hm).
      * rewrite Hh, Hg.
        destruct Hp as [Hp | [Hp | Hp]].
        -- left. rewrite Hp. reflexivity.
        -- subst is_output. unfold is_leaf.
           destruct (v_grad_fn v); [right; left | left]; reflexivity.
        -- right; right; exact Hp.
      * intros Hrg Hhas. apply Hacc.
        -- rewrite Hh in Hhas. apply negb_false_iff in Hhas. exact Hhas.
        -- rewrite <- Hr. exact Hrg.
      * rewrite Hh, Hg. intros Hl. apply negb_false_iff in Hl.
        unfold is_leaf in Hl. destruct (v_grad_fn v); [discriminate|].
        destruct is_output; reflexivity.
Qed.

(** C7: a guard captured with is_output true stores no producing node; when
    the value is not a leaf, and its version is the saved one, unpack
    without a caller node fails with MissingProducerError, and unpack with a
    caller node returns the value bound to that node. *)
Theorem output_guard_needs_caller_node :
  (forall (variable : Var T S) h,
     _grad_fn (SavedVariable_new variable true h).1 = None)
  /\ (forall v h h2,
        is_leaf v = false ->
        live_version h2 (v_version_counter v) = live_version h (v_version_counter v) ->
        let g := (SavedVariable_new (Some v) true h).1 in
        unpack g None h2 = inl MissingProducerError
        /\ forall fn,
             exists x,
               unpack g (Some fn) h2 = inr (Some x)
               /\ v_grad_fn x = Some fn
               /\ v_data x = v_data v
               /\ v_output_nr x = v_output_nr v
               /\ v_version_counter x = v_version_counter v).
Proof.
  split.
  { intros [v|] h; [|reflexivity].
    destruct (SavedVariable_new_fields v true h) as (_ & _ & _ & _ & _ & Hg & _).
    exact Hg. }
  intros v h h2 Hleaf Hsame g.
  destruct (SavedVariable_new_fields v true h)
    as (Hd & Hr & Hv & Hh & Ho & Hg & Ht). fold g in Hd, Hr, Hv, Hh, Ho, Hg, Ht.
  assert (Hm : is_modified h2 (save h v) = false) by (apply save_unmodified; exact Hsame).
  rewrite Hleaf in Hh. simpl in Hh, Hg.
  split.
  - rewrite (unpack_checked g None h2 _ _ Hd Hv Hm), Hh, Hg. reflexivity.
  - intros fn.
    rewrite (unpack_checked g (Some fn) h2 _ _ Hd Hv Hm), Hh, Hg. simpl.
    rewrite andb_false_r. simpl.
    eexists. split; [reflexivity|]. simpl. rewrite Ho. repeat split.
Qed.

(** C8: the constructor records the accumulator of a leaf that requires grad
    (the one the value already has when it is alive); unpack fails with
    MissingAccumulatorError whenever the reconstructed value is a leaf that
    requires grad and the recorded accumulator has expired; and where the
    graph keeps the accumulators of such leaves, unpack never fails with
    that error. *)
Theorem leaf_accumulator_guard :
  (forall v is_output h,
     is_leaf v = true -> v_requires_grad v = true ->
     let g := (SavedVariable_new (Some v) is_output h).1 in
     grad_accumulator g = (Variable_grad_accumulator v h).1
     /\ (expired h (v_grad_accumulator v) = false ->
         grad_accumulator g = v_grad_accumulator v))
  /\ (forall g saved_for h d ver,
        data g = Some d -> version g = Some ver -> is_modified h ver = false ->
        requires_grad g = true -> has_grad_fn g = false -> _grad_fn g = None ->
        expired h (grad_accumulator g) = true ->
        unpack g saved_for h = inl MissingAccumulatorError)
  /\ (forall g saved_for h,
        accumulator_kept h g ->
        unpack g saved_for h <> inl MissingAccumulatorError).
Proof.
  split; [|split].
  - intros v is_output h Hleaf Hrg g. subst g.
    rewrite SavedVariable_new_accumulator, Hleaf. split; [reflexivity|].
    intros Hexp. unfold Variable_grad_accumulator. rewrite Hrg, Hexp. reflexivity.
  - intros g saved_for h d ver Hd Hv Hm Hrg Hh Hg Hexp.
    rewrite (unpack_checked g saved_for h d ver Hd Hv Hm), Hh, Hg, Hrg, Hexp.
    reflexivity.
  - intros g saved_for h Hkept.
    destruct (data g) as [d|] eqn:Hd.
    + destruct (version g) as [ver|] eqn:Hv.
      * destruct (is_modified h ver) eqn:Hm.
        -- rewrite (unpack_stale g saved_for h d ver Hd Hv Hm). intros [=].
        -- rewrite (unpack_checked g saved_for h d ver Hd Hv Hm).
           destruct (has_grad_fn g) eqn:Hh; simpl.
           ++ destruct (_grad_fn g); simpl.
              ** rewrite andb_false_r. simpl. intros [=].
              ** destruct saved_for; simpl; [|intros [=]].
                 rewrite andb_false_r. simpl. intros [=].
           ++ destruct (_grad_fn g); simpl.
              ** rewrite andb_false_r. simpl. intros [=].
              ** destruct (requires_grad g) eqn:Hrg; simpl; [|intros [=]].
                 rewrite (Hkept Hrg Hh). intros [=].
      * unfold unpack. rewrite Hd, Hv. intros [=].
    + unfold unpack. rewrite Hd. destruct (defined (version g)); intros [=].
Qed.

End SavedVariableClaims.

(** ** Code that calls into the library *)

Section LibFacts.

Context {L : NumericLibrary}.

Abbreviation call := (Call TensorImpl Convolution).

Lemma lbind_inr {A B} (m : Lib A) (k : A -> Lib B) log b log' :
  lbind m k log = (inr b, log') ->
  exists a log1, m log = (inr a, log1) /\ k a log1 = (inr b, log').
Proof.
  unfold lbind. destruct (m log) as [[e|a] log1]; [discriminate|]. eauto.
Qed.

Lemma lbind_ok {A B} (m : Lib A) (k : A -> Lib B) log a log1 :
  m log = (inr a, log1) -> lbind m k log = k a log1.
Proof. unfold lbind. intros ->. reflexivity. Qed.

Lemma lbind_throw {A B} (m : Lib A) (k : A -> Lib B) log e log1 :
  m log = (inl e, log1) -> lbind m k log = (inl e, log1).
Proof. unfold lbind. intros ->. reflexivity. Qed.

Lemma lift_inr {A} (r : result A) (log log' : list call) a :
  lift r log = (inr a, log') -> r = inr a /\ log' = log.
Proof. unfold lift. intros [= -> ->]. split; reflexivity. Qed.

Lemma deref_inr {A} what (x : option A) (log log' : list call) a :
  deref what x log = (inr a, log') -> x = Some a /\ log' = log.
Proof.
  destruct x; unfold deref, lret, lthrow; intros [=]; subst; split; reflexivity.
Qed.

Lemma appends_lret {A} P (a : A) : appends P (lret a).
Proof. intros log. exists []. simpl. rewrite app_nil_r. auto. Qed.

Lemma appends_lthrow {A} P e : appends P (@lthrow L A e).
Proof. intros log. exists []. simpl. rewrite app_nil_r. auto. Qed.

Lemma appends_lift {A} P (r : result A) : appends P (lift r).
Proof. intros log. exists []. simpl. rewrite app_nil_r. auto. Qed.

Lemma appends_deref {A} P what (x : option A) : appends P (deref what x).
Proof. destruct x; [apply appends_lret | apply appends_lthrow]. Qed.

Lemma appends_invoke {A} (P : call -> Prop) c (r : result A) :
  P c -> appends P (invoke c r).
Proof. intros Hc log. exists [c]. simpl. auto. Qed.

Lemma appends_lbind {A B} P (m : Lib A) (k : A -> Lib B) :
  appends P m -> (forall a, appends P (k a)) -> appends P (lbind m k).
Proof.
  intros Hm Hk log. unfold lbind.
  destruct (Hm log) as (new1 & E1 & F1).
  destruct (m log) as [[e|a] log1]; simpl in *.
  - exists new1. auto.
  - destruct (Hk a log1) as (new2 & E2 & F2).
    exists (new1 ++ new2). rewrite E2, E1, app_assoc.
    split; [reflexivity | apply Forall_app; auto].
Qed.

Lemma appends_for_each {A} P (gs : list Z) (body : Z -> Lib A) :
  (forall g, appends P (body g)) -> appends P (for_each gs body).
Proof.
  intros Hb. induction gs as [|g gs IH]; simpl.
  - apply appends_lret.
  - apply appends_lbind; [apply Hb|]. intros x.
    apply appends_lbind; [apply IH|]. intros xs. apply appends_lret.
Qed.

Lemma appends_weaken {A} (P Q : call -> Prop) (m : Lib A) :
  (forall c, P c -> Q c) -> appends P m -> appends Q m.
Proof.
  intros HPQ Hm log. destruct (Hm log) as (new & E & F).
  exists new. split; [exact E|]. eapply Forall_impl; eauto.
Qed.

(** An action that appends only impossible calls leaves the record as it
    is. *)
Lemma appends_nothing {A} (m : Lib A) :
  appends (fun _ => False) m -> forall log, (m log).2 = log.
Proof.
  intros Hm log. destruct (Hm log) as (new & E & F).
  destruct new as [|c new]; [rewrite E; apply app_nil_r|].
  inversion F; contradiction.
Qed.

Lemma size_at_appends P (t : TensorImpl) d : appends P (size_at t d).
Proof.
  unfold size_at. destruct (sizes t !! d); [apply appends_lret | apply appends_lthrow].
Qed.

Lemma size_at_inr (t : TensorImpl) d (log log' : list call) n :
  size_at t d log = (inr n, log') ->
  sizes t !! d = Some n /\ size t d = n /\ log' = log.
Proof.
  unfold size_at, size. destruct (sizes t !! d) as [x|] eqn:E; [|discriminate].
  intros [= <- <-]. split; [reflexivity|]. split; [|reflexivity].
  apply nth_lookup_Some. exact E.
Qed.

(** The shape check makes no call into the library. *)
Lemma check_input_shape_forward_appends P (input weight : TensorImpl)
    (bias : Tensor TensorImpl) groups transposed :
  appends P (check_input_shape_forward input weight bias groups transposed).
Proof.
  unfold check_input_shape_forward.
  repeat first
    [ apply appends_lret
    | apply appends_lthrow
    | apply size_at_appends
    | apply appends_lbind; [|intros ?]
    | match goal with
      | |- appends _ (if ?b then _ else _) => destruct b
      | |- appends _ (match ?x with Some _ => _ | None => _ end) => destruct x
      end ].
Qed.

Lemma check_input_shape_forward_log (input weight : TensorImpl)
    (bias : Tensor TensorImpl) groups transposed (log : list call) :
  (check_input_shape_forward input weight bias groups transposed log).2 = log.
Proof. apply appends_nothing, check_input_shape_forward_appends. Qed.

Lemma check_input_variables_log name (inputs : list (Var TensorImpl ValueTracingState))
    args required (log : list call) :
  (check_input_variables name inputs args required log).2 = log.
Proof.
  unfold check_input_variables.
  destruct (negb _); [reflexivity|]. destruct (forallb _ _); reflexivity.
Qed.

End LibFacts.


(** ** Release and reuse of a convolution node *)

Section ReleaseFacts.

Context {L : NumericLibrary} (cfg : BuildConfig).

Implicit Types (self : ConvBackward) (h : Heap).
Implicit Types (grad_outputs : list (Var TensorImpl ValueTracingState)).

(** A ConvBackward::apply that returned has passed the argument checks and has
    unpacked defined values from the input and weight guards. *)
Lemma ConvBackward_apply_ok self grad_outputs h log r log' :
  ConvBackward_apply cfg self grad_outputs h log = (inr r, log') ->
  (check_input_variables "ConvNdBackward" grad_outputs 1 1 log).1 = inr tt
  /\ is_padding_neg (cb_params self) = false
  /\ is_output_padding_neg (cb_params self) = false
  /\ unpack (input_ self) None h = inr (input_var r)
  /\ unpack (weight_ self) None h = inr (weight_var r)
  /\ unpack (bias_ self) None h = inr (bias_var r)
  /\ defined (input_var r) = true
  /\ defined (weight_var r) = true.
Proof.
  unfold ConvBackward_apply. intros H.
  apply lbind_inr in H as ([] & log1 & Hc & H).
  destruct (is_padding_neg _); [discriminate|].
  destruct (is_output_padding_neg _); [discriminate|].
  apply lbind_inr in H as (iv & log2 & Hi & H). apply lift_inr in Hi as [Hi ->].
  apply lbind_inr in H as (wv & log3 & Hw & H). apply lift_inr in Hw as [Hw ->].
  apply lbind_inr in H as (bv & log4 & Hb & H). apply lift_inr in Hb as [Hb ->].
  apply lbind_inr in H as (i & log5 & Hdi & H).
  apply lbind_inr in H as (w & log6 & Hdw & H).
  apply lbind_inr in H as (go & log7 & Hgo & H).
  apply lbind_inr in H as ([[i4 w4] g4] & log8 & Hview & H).
  apply lbind_inr in H as ([[gi gw] gb] & log9 & Hdisp & H).
  apply lbind_inr in H as ([gi' gw'] & log10 & Hv3 & H).
  unfold lret in H. injection H as <- <-. simpl.
  rewrite Hc. simpl. repeat split; auto.
  - unfold var_data in Hdi. apply lbind_inr in Hdi as (impl & l & Hd & _).
    apply deref_inr in Hd as [-> _]. reflexivity.
  - unfold var_data in Hdw. apply lbind_inr in Hdw as (impl & l & Hd & _).
    apply deref_inr in Hd as [-> _]. reflexivity.
Qed.

Lemma ConvBackward_apply_ok_populated self grad_outputs h log r log' :
  ConvBackward_apply cfg self grad_outputs h log = (inr r, log') ->
  defined (version (input_ self)) = true /\ defined (version (weight_ self)) = true.
Proof.
  intros H. apply ConvBackward_apply_ok in H
    as (_ & _ & _ & Hi & Hw & _ & Hdi & Hdw).
  destruct (input_var r) as [x|]; [|discriminate].
  destruct (weight_var r) as [y|]; [|discriminate].
  apply unpack_defined_populated in Hi as [_ Hi].
  apply unpack_defined_populated in Hw as [_ Hw]. auto.
Qed.

(** After releaseVariables, apply stops at the first unpack. *)
Lemma ConvBackward_apply_released self grad_outputs h log :
  (check_input_variables "ConvNdBackward" grad_outputs 1 1 log).1 = inr tt ->
  is_padding_neg (cb_params self) = false ->
  is_output_padding_neg (cb_params self) = false ->
  defined (version (input_ self)) = true ->
  ConvBackward_apply cfg (ConvBackward_releaseVariables self) grad_outputs h log =
  (inl ReusedAfterReleaseError, log).
Proof.
  intros Hc Hp Hop Hv. unfold ConvBackward_apply.
  pose proof (check_input_variables_log "ConvNdBackward" grad_outputs 1 1 log) as Hl.
  destruct (check_input_variables "ConvNdBackward" grad_outputs 1 1 log) as [rc l] eqn:E.
  simpl in Hc, Hl. subst rc l.
  rewrite (lbind_ok _ _ _ _ _ E). simpl. rewrite Hp, Hop.
  apply lbind_throw. unfold lift.
  rewrite (unpack_after_release (input_ self) None h Hv). reflexivity.
Qed.

End ReleaseFacts.

(** ** The staged interpreter: the two initial checks *)

Section StageFacts.

Context {L : NumericLibrary} {I : Interpreter L}.

Implicit Types (self : InterpreterAutogradFunction) (h : Heap).
Implicit Types (inputs : list (Var TensorImpl ValueTracingState)).

Lemma apply_stage_limit self inputs h :
  stage_ self = length (stage_details_ self) ->
  InterpreterAutogradFunction_apply self inputs h =
  (self, h, inl (runtime_error (ERR_NDERIVS (length (stage_details_ self))))).
Proof.
  intros H. unfold InterpreterAutogradFunction_apply.
  rewrite H, Nat.eqb_refl. reflexivity.
Qed.

Lemma apply_used self inputs h :
  stage_ self <> length (stage_details_ self) -> used_ self = true ->
  InterpreterAutogradFunction_apply self inputs h =
  (self, h, inl ReusedAfterReleaseError).
Proof.
  intros Hs Hu. unfold InterpreterAutogradFunction_apply.
  apply Nat.eqb_neq in Hs. rewrite Hs, Hu. reflexivity.
Qed.

(** What apply never changes, and what it does to [used_]. *)
Lemma apply_node_after self inputs h :
  let self' := (InterpreterAutogradFunction_apply self inputs h).1.1 in
  stage_ self' = stage_ self
  /\ stage_details_ self' = stage_details_ self
  /\ keep_graph_ self' = keep_graph_ self
  /\ iaf_function self' = iaf_function self
  /\ (stage_ self <> length (stage_details_ self) ->
      used_ self' = used_ self || negb (keep_graph_ self))
  /\ (stage_ self = length (stage_details_ self) -> used_ self' = used_ self).
Proof.
  unfold InterpreterAutogradFunction_apply.
  destruct (Nat.eqb_spec (stage_ self) (length (stage_details_ self))) as [E|E].
  { simpl. repeat split; auto. contradiction. }
  destruct (used_ self) eqn:Hu.
  { simpl. rewrite Hu. repeat split; auto. }
  destruct (stage_details_ self !! stage_ self) as [details|];
    [|simpl; repeat split; auto; contradiction].
  destruct (negb (Z.eqb _ _)); [simpl; repeat split; auto; contradiction|].
  destruct (negb (Nat.eqb _ _)); [simpl; repeat split; auto; contradiction|].
  destruct (validate_inputs _ _ _ _) as [e|tinputs];
    [simpl; repeat split; auto; contradiction|].
  destruct (runOneStage _ tinputs) as [interp [e|toutputs]].
  - destruct (keep_graph_ self) eqn:Hk; simpl; rewrite ?Hk;
      repeat split; auto; contradiction.
  - destruct (negb (Nat.eqb _ _)).
    + destruct (keep_graph_ self) eqn:Hk; simpl; rewrite ?Hk;
        repeat split; auto; contradiction.
    + destruct (wrap_stage_outputs _ _ _ _ _ _ _ _) as [[res gf] h'].
      destruct (keep_graph_ self) eqn:Hk; simpl; rewrite ?Hk;
        repeat split; auto; contradiction.
Qed.

(** Two applies in a row on a node that does not keep its graph. *)
Lemma apply_twice_fails self inputs h inputs2 h2 :
  stage_ self <> length (stage_details_ self) ->
  keep_graph_ self = false ->
  (InterpreterAutogradFunction_apply
     (InterpreterAutogradFunction_apply self inputs h).1.1 inputs2 h2).2 =
  inl ReusedAfterReleaseError.
Proof.
  intros Hs Hk.
  destruct (apply_node_after self inputs h) as (E1 & E2 & _ & _ & Hu & _).
  rewrite apply_used; [reflexivity | rewrite E1, E2; exact Hs |].
  rewrite (Hu Hs), Hk. apply orb_true_r.
Qed.

End StageFacts.

(** ** Release, reuse and the lifecycle of guards *)

Lemma unpack_data_reset {T S} (g : SavedVariable T S) saved_for h :
  unpack (data_reset g) saved_for h =
  if defined (version g) then inl ReusedAfterReleaseError else inr None.
Proof. reflexivity. Qed.

(** C1 as stated fails on a guard that never captured a value: the bias guard
    of a convolution without bias is empty, stays empty when the node is
    released, and still unpacks to the undefined value. *)
Lemma released_empty_guard_unpacks :
  let g : SavedVariable Stub.StubTensor unit :=
    (SavedVariable_new None false Stub.graph_heap).1 in
  unpack (data_reset g) None Stub.graph_heap = inr None
  /\ unpack (data_reset g) None Stub.graph_heap <> inl ReusedAfterReleaseError.
Proof. split; [reflexivity | intros [=]]. Qed.

(** C1 (amended): a guard that captured a defined value fails every unpack
    with ReusedAfterReleaseError once it is released; after a backward pass
    that returned and the release of the node, a second ConvBackward::apply
    fails with that error; the staged interpreter's apply fails with it when
    it is invoked again on a node that does not keep its graph, and whenever
    the node is marked used. *)
Theorem reuse_after_release :
  (forall (T S : Type) (v : VariableImpl T S) is_output h saved_for h2,
     unpack (data_reset (SavedVariable_new (Some v) is_output h).1) saved_for h2 =
     inl ReusedAfterReleaseError)
  /\ (forall (L : NumericLibrary) cfg (self : ConvBackward) go h log r log',
        ConvBackward_apply cfg self [Some go] h log = (inr r, log') ->
        forall go2 h2 log2,
          ConvBackward_apply cfg (ConvBackward_releaseVariables self)
            [Some go2] h2 log2 =
          (inl ReusedAfterReleaseError, log2))
  /\ (forall (L : NumericLibrary) (I : Interpreter L)
             (self : InterpreterAutogradFunction) inputs h inputs2 h2,
        stage_ self <> length (stage_details_ self) ->
        keep_graph_ self = false ->
        (InterpreterAutogradFunction_apply
           (InterpreterAutogradFunction_apply self inputs h).1.1 inputs2 h2).2 =
        inl ReusedAfterReleaseError)
  /\ (forall (L : NumericLibrary) (I : Interpreter L)
             (self : InterpreterAutogradFunction) inputs h,
        stage_ self <> length (stage_details_ self) ->
        used_ self = true ->
        (InterpreterAutogradFunction_apply self inputs h).2 =
        inl ReusedAfterReleaseError).
Proof.
  split; [|split; [|split]].
  - intros T S v is_output h saved_for h2.
    apply unpack_after_release.
    destruct (SavedVariable_new_fields v is_output h) as (_ & _ & Hv & _).
    rewrite Hv. reflexivity.
  - intros L cfg self go h log r log' Hok go2 h2 log2.
    pose proof (ConvBackward_apply_ok_populated cfg _ _ _ _ _ _ Hok) as [Hv _].
    apply ConvBackward_apply_ok in Hok as (_ & Hp & Hop & _).
    apply ConvBackward_apply_released; auto.
  - intros L I self inputs h inputs2 h2 Hs Hk. apply apply_twice_fails; auto.
  - intros L I self inputs h Hs Hu. rewrite apply_used; auto.
Qed.

Lemma reuse_after_release_witness :
  let go := Stub.leaf (Stub.cpu_float [1; 4; 8; 8] 3) false 0%nat in
  let node :=
    Stub.conv_backward_node (Stub.conv2d_params 2)
      (Stub.cpu_float [1; 4; 8; 8] 1) (Stub.cpu_float [4; 2; 3; 3] 2)
      [true; true; true] in
  is_ok (ConvBackward_apply Stub.cpu_build node [Some go] Stub.graph_heap []).1 = true
  /\ (ConvBackward_apply Stub.cpu_build (ConvBackward_releaseVariables node)
        [Some go] Stub.graph_heap []).1 = inl ReusedAfterReleaseError.
Proof.
  intros go node.
  destruct (ConvBackward_apply Stub.cpu_build node [Some go] Stub.graph_heap [])
    as [[e|r] log'] eqn:E; [vm_compute in E; discriminate|].
  split; [reflexivity|].
  destruct reuse_after_release as (_ & H & _).
  rewrite (H Stub.library Stub.cpu_build node go Stub.graph_heap [] r log' E).
  reflexivity.
Defined.

(** C9 as stated fails on the empty bias guard: the first backward pass of a
    convolution without bias returns, the node is released, and a later
    unpack of the bias guard returns (the undefined value) instead of
    failing. *)
Lemma unpack_after_release_returns :
  let go := Stub.leaf (Stub.cpu_float [1; 4; 8; 8] 3) false 0%nat in
  let node :=
    Stub.conv_backward_node (Stub.conv2d_params 2)
      (Stub.cpu_float [1; 4; 8; 8] 1) (Stub.cpu_float [4; 2; 3; 3] 2)
      [true; true; true] in
  is_ok (ConvBackward_apply Stub.cpu_build node [Some go] Stub.graph_heap []).1 = true
  /\ unpack (bias_ (ConvBackward_releaseVariables node)) None Stub.graph_heap =
     inr None.
Proof. vm_compute. split; reflexivity. Qed.

(** C9 (amended): unpack records nothing; what ends the use of a guard is the
    release.  After a backward pass that returned, and as long as the node is
    not released (the graph is retained), unpacking the guards again yields
    the values the pass used.  Once the node is released every later unpack
    of the input and weight guards fails with ReusedAfterReleaseError, and so
    does every later unpack of the bias guard if it had captured a value; a
    bias guard that never captured one still unpacks to the undefined
    value. *)
Theorem guard_lifecycle (L : NumericLibrary) cfg (self : ConvBackward)
    grad_outputs h log r log' :
  ConvBackward_apply cfg self grad_outputs h log = (inr r, log') ->
  (unpack (input_ self) None h = inr (input_var r)
   /\ unpack (weight_ self) None h = inr (weight_var r)
   /\ unpack (bias_ self) None h = inr (bias_var r))
  /\ (let self' := ConvBackward_releaseVariables self in
      (forall saved_for h2,
         unpack (input_ self') saved_for h2 = inl ReusedAfterReleaseError)
      /\ (forall saved_for h2,
            unpack (weight_ self') saved_for h2 = inl ReusedAfterReleaseError)
      /\ (forall saved_for h2,
            unpack (bias_ self') saved_for h2 =
            if defined (version (bias_ self))
            then inl ReusedAfterReleaseError else inr None)).
Proof.
  intros Hok.
  pose proof (ConvBackward_apply_ok_populated cfg _ _ _ _ _ _ Hok) as [Hi Hw].
  apply ConvBackward_apply_ok in Hok as (_ & _ & _ & Ui & Uw & Ub & _).
  split; [auto|].
  simpl. repeat split; intros; rewrite unpack_data_reset.
  - rewrite Hi. reflexivity.
  - rewrite Hw. reflexivity.
Qed.

Lemma guard_lifecycle_witness :
  let go := Stub.leaf (Stub.cpu_float [1; 4; 8; 8] 3) false 0%nat in
  let node :=
    Stub.conv_backward_node (Stub.conv2d_params 2)
      (Stub.cpu_float [1; 4; 8; 8] 1) (Stub.cpu_float [4; 2; 3; 3] 2)
      [true; true; true] in
  is_ok (unpack (input_ node) None Stub.graph_heap) = true
  /\ unpack (input_ (ConvBackward_releaseVariables node)) None Stub.graph_heap =
     inl ReusedAfterReleaseError.
Proof.
  intros go node.
  destruct (ConvBackward_apply Stub.cpu_build node [Some go] Stub.graph_heap [])
    as [[e|r] log'] eqn:E; [vm_compute in E; discriminate|].
  destruct (guard_lifecycle Stub.library Stub.cpu_build node [Some go]
              Stub.graph_heap [] r log' E) as [(Hin & _) (Hrel & _)].
  split; [rewrite Hin; reflexivity | apply Hrel].
Defined.

(** C10: releaseVariables clears the data reference of each guard of the node
    and changes nothing else, in the guards (saved version, requires_grad,
    output index and the rest) or in the node; a released guard whose version
    is recorded makes unpack fail with ReusedAfterReleaseError, while a guard
    that was never populated unpacks to the undefined value, before and after
    the release. *)
Theorem releaseVariables_frame (L : NumericLibrary)
    (self : ConvBackward) (bb : ConvBackwardBackward) :
  let self' := ConvBackward_releaseVariables self in
  let bb' := ConvBackwardBackward_releaseVariables bb in
  (cb_function self' = cb_function self
   /\ cb_params self' = cb_params self
   /\ cb_ctx self' = cb_ctx self
   /\ released_from (input_ self) (input_ self')
   /\ released_from (weight_ self) (weight_ self')
   /\ released_from (bias_ self) (bias_ self'))
  /\ (cbb_function bb' = cbb_function bb
      /\ cbb_params bb' = cbb_params bb
      /\ released_from (cbb_input_ bb) (cbb_input_ bb')
      /\ released_from (cbb_weight_ bb) (cbb_weight_ bb')
      /\ released_from (cbb_bias_ bb) (cbb_bias_ bb')
      /\ released_from (cbb_grad_output_ bb) (cbb_grad_output_ bb'))
  /\ (forall (g g' : SavedVariable TensorImpl ValueTracingState) saved_for h,
        released_from g g' ->
        (defined (version g) = true ->
         unpack g' saved_for h = inl ReusedAfterReleaseError)
        /\ (data g = None -> version g = None ->
            unpack g saved_for h = inr None /\ unpack g' saved_for h = inr None)).
Proof.
  intros self' bb'. split; [|split].
  - repeat split.
  - repeat split.
  - intros g g' saved_for h (Hd & _ & _ & Hv & _). split.
    + intros Hdef. apply unpack_released; [exact Hd | rewrite Hv; exact Hdef].
    + intros Hd0 Hv0. split; apply unpack_never_populated; auto. rewrite Hv. exact Hv0.
Qed.

Lemma releaseVariables_frame_witness :
  let node :=
    Stub.conv_backward_node (Stub.conv2d_params 2)
      (Stub.cpu_float [1; 4; 8; 8] 1) (Stub.cpu_float [4; 2; 3; 3] 2)
      [true; true; true] in
  unpack (weight_ (ConvBackward_releaseVariables node)) None Stub.graph_heap =
    inl ReusedAfterReleaseError
  /\ unpack (bias_ (ConvBackward_releaseVariables node)) None Stub.graph_heap =
    inr None.
Proof.
  intros node.
  pose proof (releaseVariables_frame Stub.library node
                (mkConvBackwardBackward (cb_function node) (cb_params node)
                   (input_ node) (weight_ node) (bias_ node) (input_ node)))
    as ((_ & _ & _ & _ & Hw & Hb) & _ & H).
  split.
  - apply (H _ _ None Stub.graph_heap Hw). reflexivity.
  - apply (H _ _ None Stub.graph_heap Hb); reflexivity.
Defined.

(** ** The version check, the caller node and the accumulator on concrete
    values *)

(** C2 as stated fails where no mutation occurred and unpack still does not
    succeed: the guard of a node's own output, unpacked without the caller
    node right after the capture. *)
Lemma unmutated_output_guard_fails :
  let v := Stub.produced (Stub.cpu_float [2] 1) 0%nat 0%nat in
  let captured := SavedVariable_new (Some v) true Stub.graph_heap in
  live_version captured.2 (v_version_counter v) =
    live_version Stub.graph_heap (v_version_counter v)
  /\ unpack captured.1 None captured.2 = inl MissingProducerError.
Proof. split; reflexivity. Qed.

Lemma saved_version_check_witness :
  let v := Stub.parameter (Stub.cpu_float [2] 1) 1%nat in
  let captured := SavedVariable_new (Some v) false Stub.graph_heap in
  unpack captured.1 None (mutate_in_place 1 v captured.2) = inl StaleVersionError
  /\ exists x, unpack captured.1 None captured.2 = inr (Some x).
Proof.
  intros v captured.
  destruct (saved_version_check v false None Stub.graph_heap) as [Hstale Hfresh].
  split.
  - apply Hstale. lia.
  - apply (Hfresh captured.2); [reflexivity | left; reflexivity |].
    intros _ _. reflexivity.
Defined.

Lemma output_guard_needs_caller_node_witness :
  let v := Stub.produced (Stub.cpu_float [2] 1) 0%nat 0%nat in
  let g := (SavedVariable_new (Some v) true Stub.graph_heap).1 in
  unpack g None Stub.graph_heap = inl MissingProducerError
  /\ exists x, unpack g (Some 7%nat) Stub.graph_heap = inr (Some x)
               /\ v_grad_fn x = Some 7%nat.
Proof.
  intros v g.
  destruct (@output_guard_needs_caller_node Stub.StubTensor unit) as [_ Hnode].
  destruct (Hnode v Stub.graph_heap Stub.graph_heap eq_refl eq_refl)
    as (Hnone & Hsome).
  split; [exact Hnone|].
  destruct (Hsome 7%nat) as (x & Hx & Hfn & _). exists x. split; assumption.
Defined.

Lemma leaf_accumulator_guard_witness :
  let v := Stub.parameter (Stub.cpu_float [2] 1) 1%nat in
  let g := (SavedVariable_new (Some v) false Stub.graph_heap).1 in
  grad_accumulator g = Some 1%nat
  /\ unpack g None Stub.empty_heap = inl MissingAccumulatorError
  /\ unpack g None Stub.graph_heap <> inl MissingAccumulatorError.
Proof.
  intros v g.
  destruct (@leaf_accumulator_guard Stub.StubTensor unit) as (Hrec & Hfail & Hkept).
  split; [|split].
  - destruct (Hrec v false Stub.graph_heap eq_refl eq_refl) as [_ H].
    apply H. reflexivity.
  - apply (Hfail g None Stub.empty_heap (v_data v) (save Stub.graph_heap v));
      reflexivity.
  - apply Hkept. intros _ _. reflexivity.
Defined.

(** ** The staged interpreter *)

Section StageClaims.

Context {L : NumericLibrary} {I : Interpreter L}.

Implicit Types (self : InterpreterAutogradFunction) (h : Heap).
Implicit Types (inputs : list (Var TensorImpl ValueTracingState)).
Implicit Types (traced : list VariableFlags).

Lemma flag_mismatch_checks (tr : VariableFlags)
    (input : Var TensorImpl ValueTracingState) :
  flag_mismatch tr input =
  (negb (vf_defined tr) && vf_defined (VariableFlags_of input))
  || (negb (vf_requires_grad tr) && vf_requires_grad (VariableFlags_of input)).
Proof.
  destruct input as [impl|]; simpl.
  - rewrite andb_true_r. reflexivity.
  - rewrite !andb_false_r. reflexivity.
Qed.

(** The validation loop, position by position. *)
Lemma validate_inputs_spec interp inputs :
  forall i traced,
    length inputs = length traced ->
    match validate_inputs interp i inputs traced with
    | inl e =>
        is_StageMismatchError e
        /\ exists j input tr,
             inputs !! j = Some input /\ traced !! j = Some tr
             /\ flag_mismatch tr input = true
    | inr tinputs =>
        length tinputs = length inputs
        /\ forall j input tr,
             inputs !! j = Some input -> traced !! j = Some tr ->
             flag_mismatch tr input = false
             /\ tinputs !! j = Some (stage_input interp (i + j) tr input)
    end.
Proof.
  induction inputs as [|input inputs IH]; intros i traced Hlen.
  - simpl. split; [reflexivity|]. intros j x tr Hj. discriminate.
  - destruct traced as [|tr traced]; [discriminate|].
    simpl in Hlen. injection Hlen as Hlen.
    cbn [validate_inputs].
    pose proof (flag_mismatch_checks tr input) as Hmis.
    destruct (negb (vf_defined tr) && vf_defined (VariableFlags_of input)) eqn:E1.
    { split; [left; reflexivity|]. exists 0%nat, input, tr. auto. }
    destruct (negb (vf_requires_grad tr) && vf_requires_grad (VariableFlags_of input)) eqn:E2.
    { split; [right; reflexivity|]. exists 0%nat, input, tr. auto. }
    simpl in Hmis.
    specialize (IH (S i) traced Hlen).
    destruct (validate_inputs interp (S i) inputs traced) as [e|rest]; simpl.
    + destruct IH as (He & j & x & t & Hj1 & Hj2 & Hj3).
      split; [exact He|]. exists (S j), x, t. auto.
    + destruct IH as (Hl & IH). split; [simpl; congruence|].
      intros [|j] x t Hj1 Hj2; simpl in Hj1, Hj2.
      * injection Hj1 as <-. injection Hj2 as <-.
        split; [exact Hmis|]. rewrite Nat.add_0_r. reflexivity.
      * destruct (IH j x t Hj1 Hj2) as [Hm Ht]. split; [exact Hm|].
        simpl. rewrite Ht. f_equal. f_equal. lia.
Qed.

(** apply, up to the validation loop, on a node that may run. *)
Lemma apply_reaches_validation self inputs h details :
  stage_details_ self !! stage_ self = Some details ->
  used_ self = false ->
  Z.of_nat (length inputs) = num_inputs (iaf_function self) ->
  length inputs = length (input_flags details) ->
  forall e,
    validate_inputs (interp_ self) 0 inputs (input_flags details) = inl e ->
    (InterpreterAutogradFunction_apply self inputs h).2 = inl e.
Proof.
  intros Hd Hu Hn Hl e Hv. unfold InterpreterAutogradFunction_apply.
  assert (Hs : stage_ self <> length (stage_details_ self)).
  { apply lookup_lt_Some in Hd. lia. }
  apply Nat.eqb_neq in Hs. rewrite Hs, Hu, Hd.
  apply Z.eqb_eq in Hn. rewrite Hn. apply Nat.eqb_eq in Hl. rewrite Hl. simpl.
  rewrite Hv. reflexivity.
Qed.

(** A successful apply ran the stage on the validated inputs. *)
Lemma apply_ok_ran self inputs h self' h' res :
  InterpreterAutogradFunction_apply self inputs h = (self', h', inr res) ->
  exists details tinputs interp toutputs,
    stage_details_ self !! stage_ self = Some details
    /\ validate_inputs (interp_ self) 0 inputs (input_flags details) = inr tinputs
    /\ runOneStage (if keep_graph_ self then clone (interp_ self) else interp_ self)
         tinputs = (interp, inr toutputs)
    /\ length inputs = length (input_flags details).
Proof.
  unfold InterpreterAutogradFunction_apply.
  destruct (Nat.eqb _ _); [discriminate|].
  destruct (used_ self); [discriminate|].
  destruct (stage_details_ self !! stage_ self) as [details|]; [|discriminate].
  destruct (negb (Z.eqb _ _)); [discriminate|].
  destruct (negb (Nat.eqb _ _)) eqn:Hl; [discriminate|].
  destruct (validate_inputs _ _ _ _) as [e|tinputs] eqn:Hv; [discriminate|].
  destruct (runOneStage _ tinputs) as [interp [e|toutputs]] eqn:Hr; [discriminate|].
  intros _. exists details, tinputs, interp, toutputs.
  apply negb_false_iff, Nat.eqb_eq in Hl. auto.
Qed.

(** C5: on a node that may run (its stage exists, it is not used, the arity
    assertions hold), an input position whose live input is defined while the
    stage was compiled with it undefined, or requires grad while the stage was
    compiled without, makes apply fail with StageMismatchError; when no
    position is incompatible the validation succeeds, and whenever apply
    returns, the stage was run on one tensor per position: where the stage
    expects a defined input and the live one is undefined, the zeros that the
    library makes with the sizes and the scalar type traced for that
    position (on the CPU for a negative traced device, else on CUDA), a
    tensor of the traced sizes and type in a library whose zeros are as
    asked; the data of the live input unchanged otherwise. *)
Theorem stage_input_contract self inputs h details :
  stage_details_ self !! stage_ self = Some details ->
  used_ self = false ->
  Z.of_nat (length inputs) = num_inputs (iaf_function self) ->
  length inputs = length (input_flags details) ->
  (forall i input tr,
     inputs !! i = Some input -> input_flags details !! i = Some tr ->
     flag_mismatch tr input = true ->
     exists e,
       (InterpreterAutogradFunction_apply self inputs h).2 = inl e
       /\ is_StageMismatchError e)
  /\ ((forall i input tr,
         inputs !! i = Some input -> input_flags details !! i = Some tr ->
         flag_mismatch tr input = false) ->
      exists tinputs,
        validate_inputs (interp_ self) 0 inputs (input_flags details) = inr tinputs)
  /\ (forall self' h' res,
        InterpreterAutogradFunction_apply self inputs h = (self', h', inr res) ->
        exists tinputs interp toutputs,
          runOneStage (if keep_graph_ self then clone (interp_ self) else interp_ self)
            tinputs = (interp, inr toutputs)
          /\ length tinputs = length inputs
          /\ (forall i input tr,
                inputs !! i = Some input -> input_flags details !! i = Some tr ->
                tinputs !! i = Some (stage_input (interp_ self) i tr input))
          /\ (forall i tr,
                inputs !! i = Some None -> input_flags details !! i = Some tr ->
                vf_defined tr = true ->
                let ty := tensorTypeForInput (interp_ self) i in
                exists z,
                  tinputs !! i = Some (Some z)
                  /\ z = type_zeros
                           {| backend := if Z.ltb (tt_device ty) 0 then kCPU else kCUDA;
                              scalarType := tt_scalarType ty |}
                           (tt_sizes ty)
                  /\ (zeros_as_asked L ->
                      sizes z = tt_sizes ty
                      /\ scalarType (type z) = tt_scalarType ty
                      /\ backend (type z) =
                         (if Z.ltb (tt_device ty) 0 then kCPU else kCUDA)))
          /\ (forall i impl tr,
                inputs !! i = Some (Some impl) -> input_flags details !! i = Some tr ->
                tinputs !! i = Some (Some (v_data impl)))).
Proof.
  intros Hd Hu Hn Hl.
  pose proof (validate_inputs_spec (interp_ self) inputs 0 (input_flags details) Hl) as Hspec.
  split; [|split].
  - intros i input tr Hi Ht Hmis.
    destruct (validate_inputs (interp_ self) 0 inputs (input_flags details))
      as [e|tinputs] eqn:Hv.
    + exists e. split; [|apply Hspec].
      apply (apply_reaches_validation self inputs h details); auto.
    + destruct Hspec as [_ Hall]. destruct (Hall i input tr Hi Ht) as [Hno _].
      congruence.
  - intros Hnone.
    destruct (validate_inputs (interp_ self) 0 inputs (input_flags details))
      as [e|tinputs] eqn:Hv; [|eauto].
    destruct Hspec as (_ & j & x & t & Hj1 & Hj2 & Hj3).
    rewrite (Hnone j x t Hj1 Hj2) in Hj3. discriminate.
  - intros self' h' res Hok.
    apply apply_ok_ran in Hok as (d & tinputs & interp & toutputs & Hd' & Hv & Hr & _).
    rewrite Hd in Hd'. injection Hd' as <-.
    rewrite Hv in Hspec. destruct Hspec as [Hlen Hall].
    exists tinputs, interp, toutputs. split; [exact Hr|]. split; [exact Hlen|].
    split; [|split].
    + intros i input tr Hi Ht. apply (Hall i input tr Hi Ht).
    + intros i tr Hi Ht Hdef ty.
      destruct (Hall i None tr Hi Ht) as [_ Hz]. simpl in Hz. rewrite Hdef in Hz.
      eexists. split; [exact Hz|]. split; [reflexivity|].
      intros Hlaw. unfold traced_zeros. fold ty.
      destruct (Hlaw {| backend := if Z.ltb (tt_device ty) 0 then kCPU else kCUDA;
                        scalarType := tt_scalarType ty |} (tt_sizes ty)) as [Hs Hty].
      rewrite Hs, Hty. auto.
    + intros i impl tr Hi Ht. destruct (Hall i (Some impl) tr Hi Ht) as [_ Hz].
      exact Hz.
Qed.

End StageClaims.

Section StageLimit.

Context {L : NumericLibrary} {I : Interpreter L}.

Implicit Types (self : InterpreterAutogradFunction) (h : Heap).
Implicit Types (inputs : list (Var TensorImpl ValueTracingState)).

(** At the last compiled stage make_grad_fn returns the node as constructed:
    bound to the next stage, without edges, and the heap is not touched. *)
Lemma make_grad_fn_last_stage self interp inputs details h :
  S (stage_ self) = length (stage_details_ self) ->
  make_grad_fn self interp inputs details h =
  (InterpreterAutogradFunction_new interp (stage_details_ self) (S (stage_ self)), h).
Proof.
  intros Hlast. unfold make_grad_fn.
  replace (stage_ self + 1)%nat with (S (stage_ self)) by lia.
  rewrite Hlast, Nat.eqb_refl. reflexivity.
Qed.

Lemma make_grad_fn_stage self interp inputs details h :
  let gf := (make_grad_fn self interp inputs details h).1 in
  stage_ gf = S (stage_ self)
  /\ stage_details_ gf = stage_details_ self
  /\ used_ gf = false.
Proof.
  unfold make_grad_fn.
  replace (stage_ self + 1)%nat with (S (stage_ self)) by lia.
  destruct (Nat.eqb _ _); [simpl; auto|].
  destruct (input_edges _ _ _ _) as [edges h']. simpl. auto.
Qed.

Lemma make_variable_of_node (t : Tensor TensorImpl) id (node : InterpreterAutogradFunction) h :
  let node' := (make_variable_of t id node h).1.2 in
  stage_ node' = stage_ node
  /\ stage_details_ node' = stage_details_ node
  /\ used_ node' = used_ node
  /\ next_functions (iaf_function node') = next_functions (iaf_function node).
Proof.
  unfold make_variable_of. destruct t as [d|]; simpl; auto.
Qed.

Lemma wrap_stage_outputs_node self interp inputs details toutputs :
  forall flags grad_fn h,
    (forall id gf, grad_fn = Some (id, gf) -> next_stage_node self gf) ->
    forall id gf,
      (wrap_stage_outputs self interp inputs details toutputs flags grad_fn h).1.2
      = Some (id, gf) ->
      next_stage_node self gf.
Proof.
  induction toutputs as [|t toutputs IH]; intros flags grad_fn h Hinv id gf.
  - simpl. intros H. eapply Hinv; eauto.
  - destruct flags as [|fl flags]; [simpl; intros H; eapply Hinv; eauto|].
    cbn [wrap_stage_outputs].
    destruct (vf_requires_grad fl).
    + set (made :=
             match grad_fn with
             | Some (id0, node) => (id0, node, h)
             | None =>
                 let '(node, h0) := make_grad_fn self interp inputs details h in
                 let '(id0, h1) := new_function h0 (iaf_function node) in
                 (id0, node, h1)
             end).
      assert (Hmade : next_stage_node self made.1.2).
      { subst made. destruct grad_fn as [[id0 node]|].
        - simpl. eapply Hinv; eauto.
        - pose proof (make_grad_fn_stage self interp inputs details h) as (E1 & E2 & E3).
          pose proof (make_grad_fn_last_stage self interp inputs details h) as Elast.
          destruct (make_grad_fn self interp inputs details h) as [node h0].
          simpl in *. unfold next_stage_node. repeat split; auto.
          intros Hl. specialize (Elast Hl). injection Elast as -> _. reflexivity. }
      destruct made as [[id0 node] h1]. simpl in Hmade.
      pose proof (make_variable_of_node t id0 node h1) as (E1 & E2 & E3 & E4).
      destruct (make_variable_of t id0 node h1) as [[v node'] h2]. simpl in *.
      specialize (IH flags (Some (id0, node'))
                    (set_functions h2 (<[id0:=iaf_function node']> (functions h2)))).
      destruct (wrap_stage_outputs self interp inputs details toutputs flags
                  (Some (id0, node')) _) as [[vs g] h4].
      simpl in *. intros Hg. eapply IH; eauto.
      intros id1 gf1 [= <- <-]. destruct Hmade as (M1 & M2 & M3 & M4).
      unfold next_stage_node. rewrite E1, E2, E3, E4. auto.
    + destruct (make_variable_plain t false h) as [v h1].
      specialize (IH flags grad_fn h1 Hinv id gf).
      destruct (wrap_stage_outputs self interp inputs details toutputs flags grad_fn h1)
        as [[vs g] h2]. simpl in *. exact IH.
Qed.

Lemma wrap_stage_outputs_makes_node self interp inputs details toutputs :
  forall flags grad_fn h,
    length toutputs = length flags ->
    (existsb vf_requires_grad flags = true \/ is_Some grad_fn) ->
    is_Some (wrap_stage_outputs self interp inputs details toutputs flags grad_fn h).1.2.
Proof.
  induction toutputs as [|t toutputs IH]; intros flags grad_fn h Hlen Hsome.
  - destruct flags; [|discriminate]. simpl in *.
    destruct Hsome as [Hf|Hs]; [discriminate | exact Hs].
  - destruct flags as [|fl flags]; [discriminate|].
    injection Hlen as Hlen. cbn [wrap_stage_outputs].
    destruct (vf_requires_grad fl) eqn:Hfl.
    + destruct (match grad_fn with
                | Some (id0, node) => (id0, node, h)
                | None => _
                end) as [[id0 node] h1].
      destruct (make_variable_of t id0 node h1) as [[v node'] h2].
      specialize (IH flags (Some (id0, node'))
                    (set_functions h2 (<[id0:=iaf_function node']> (functions h2)))
                    Hlen (or_intror (mk_is_Some _ _ eq_refl))).
      destruct (wrap_stage_outputs self interp inputs details toutputs flags
                  (Some (id0, node')) _) as [[vs g] h4]. exact IH.
    + destruct (make_variable_plain t false h) as [v h1].
      simpl in Hsome. rewrite Hfl in Hsome. simpl in Hsome.
      specialize (IH flags grad_fn h1 Hlen Hsome).
      destruct (wrap_stage_outputs self interp inputs details toutputs flags grad_fn h1)
        as [[vs g] h2]. exact IH.
Qed.

(** apply returns once the checks are passed and the stage has run. *)
Lemma apply_returns self inputs h details tinputs interp toutputs :
  stage_details_ self !! stage_ self = Some details ->
  used_ self = false ->
  Z.of_nat (length inputs) = num_inputs (iaf_function self) ->
  length inputs = length (input_flags details) ->
  validate_inputs (interp_ self) 0 inputs (input_flags details) = inr tinputs ->
  runOneStage (if keep_graph_ self then clone (interp_ self) else interp_ self) tinputs
    = (interp, inr toutputs) ->
  length toutputs = length (output_flags details) ->
  let self1 := set_used self (used_ self || negb (keep_graph_ self)) in
  let self2 := if keep_graph_ self then self1 else set_interp self1 interp in
  let wrapped :=
    wrap_stage_outputs self2 interp inputs details toutputs (output_flags details) None h in
  InterpreterAutogradFunction_apply self inputs h =
  (self2, wrapped.2, inr (mkStageResult wrapped.1.1 wrapped.1.2)).
Proof.
  intros Hd Hu Hn Hl Hv Hr Ho self1 self2 wrapped.
  unfold InterpreterAutogradFunction_apply.
  assert (Hs : stage_ self <> length (stage_details_ self)).
  { apply lookup_lt_Some in Hd. lia. }
  apply Nat.eqb_neq in Hs. rewrite Hs, Hu, Hd.
  apply Z.eqb_eq in Hn. rewrite Hn. apply Nat.eqb_eq in Hl. rewrite Hl. simpl.
  rewrite Hv, Hr. apply Nat.eqb_eq in Ho. rewrite Ho. simpl.
  subst wrapped self2 self1. rewrite Hu. simpl.
  destruct (keep_graph_ self);
    destruct (wrap_stage_outputs _ _ _ _ _ _ _ _) as [[res gf] h']; reflexivity.
Qed.

(** The node of the next stage that a successful apply returns. *)
Lemma apply_ok_next_stage self inputs h self' h' res id gf :
  InterpreterAutogradFunction_apply self inputs h = (self', h', inr res) ->
  next_stage res = Some (id, gf) ->
  next_stage_node self gf.
Proof.
  unfold InterpreterAutogradFunction_apply.
  destruct (Nat.eqb _ _); [discriminate|].
  destruct (used_ self); [discriminate|].
  destruct (stage_details_ self !! stage_ self) as [details|]; [|discriminate].
  destruct (negb (Z.eqb _ _)); [discriminate|].
  destruct (negb (Nat.eqb _ _)); [discriminate|].
  destruct (validate_inputs _ _ _ _) as [e|tinputs]; [discriminate|].
  destruct (runOneStage _ tinputs) as [interp [e|toutputs]]; [discriminate|].
  destruct (negb (Nat.eqb _ _)); [discriminate|].
  set (self2 := if keep_graph_ self then _ else _).
  assert (E2 : stage_ self2 = stage_ self /\ stage_details_ self2 = stage_details_ self).
  { subst self2. destruct (keep_graph_ self); simpl; auto. }
  destruct E2 as [Es Ed].
  pose proof (wrap_stage_outputs_node self2 interp inputs details toutputs
                (output_flags details) None h ltac:(intros ? ? [=]) id gf) as Hnode.
  destruct (wrap_stage_outputs self2 interp inputs details toutputs
              (output_flags details) None h) as [[vs g] h4].
  simpl in Hnode. intros [= _ _ <-] Hn. simpl in Hn. specialize (Hnode Hn).
  unfold next_stage_node in *. rewrite Es, Ed in Hnode. exact Hnode.
Qed.

(** Each apply of a chain advances the stage by one and keeps the program;
    the chain ends at the latest on the stage that was not compiled. *)
Lemma reaches_stage self k last :
  reaches self k last ->
  stage_ last = (stage_ self + k)%nat
  /\ stage_details_ last = stage_details_ self
  /\ ((0 < k)%nat ->
      used_ last = false
      /\ (stage_ self + k <= length (stage_details_ self))%nat).
Proof.
  induction 1 as [|k mid inputs h mid' h' res id gf Hreach IH Happ Hnext].
  - split; [lia|]. split; [reflexivity|]. lia.
  - destruct IH as (IHs & IHd & _).
    destruct (apply_ok_next_stage _ _ _ _ _ _ _ _ Happ Hnext) as (G1 & G2 & G3 & _).
    apply apply_ok_ran in Happ as (d & _ & _ & _ & Hd & _).
    apply lookup_lt_Some in Hd. rewrite IHs, IHd in Hd.
    split; [rewrite G1, IHs; lia|]. split; [congruence|].
    intros _. split; [exact G3 | lia].
Qed.

(** C4: on a node of the last compiled stage that may run, whose stage has run
    and one of whose outputs requires grad, apply returns, and it returns the
    node of the next stage: bound to the stage that was not compiled, without
    edges, not used; the compiled-derivative-limit error is raised by every
    apply on that node.  In general a node whose stage index equals the number
    of compiled stages fails every apply with that error, and a node of an
    earlier stage that may run returns once its stage has run.  The node of
    the next stage that an apply returns is bound to the stage after the one
    of the node applied, of the same program, and is not used.  So with N
    derivatives compiled (N + 1 stages) and the forward node at stage 0, the
    node reached after k applies in a row is at stage k, and k is at most
    N + 1: for k from 1 to N the apply on it, which is backward pass k, only
    needs the checks of its stage to pass and the stage to run, and returns
    the node of pass k + 1 when an output requires grad; for k = N + 1 every
    apply on it fails with the limit error, which names N. *)
Theorem deferred_derivative_limit :
  (forall self inputs h details tinputs interp toutputs,
     S (stage_ self) = length (stage_details_ self) ->
     stage_details_ self !! stage_ self = Some details ->
     used_ self = false ->
     Z.of_nat (length inputs) = num_inputs (iaf_function self) ->
     length inputs = length (input_flags details) ->
     validate_inputs (interp_ self) 0 inputs (input_flags details) = inr tinputs ->
     runOneStage (if keep_graph_ self then clone (interp_ self) else interp_ self)
       tinputs = (interp, inr toutputs) ->
     length toutputs = length (output_flags details) ->
     existsb vf_requires_grad (output_flags details) = true ->
     exists self' h' res id gf,
       InterpreterAutogradFunction_apply self inputs h = (self', h', inr res)
       /\ next_stage res = Some (id, gf)
       /\ stage_ gf = length (stage_details_ gf)
       /\ next_functions (iaf_function gf) = []
       /\ used_ gf = false
       /\ forall inputs2 h2,
            (InterpreterAutogradFunction_apply gf inputs2 h2).2 =
            inl (runtime_error (ERR_NDERIVS (length (stage_details_ self)))))
  /\ (forall self inputs h,
        stage_ self = length (stage_details_ self) ->
        InterpreterAutogradFunction_apply self inputs h =
        (self, h, inl (runtime_error (ERR_NDERIVS (length (stage_details_ self))))))
  /\ (forall self inputs h details tinputs interp toutputs,
        (stage_ self < length (stage_details_ self))%nat ->
        stage_details_ self !! stage_ self = Some details ->
        used_ self = false ->
        Z.of_nat (length inputs) = num_inputs (iaf_function self) ->
        length inputs = length (input_flags details) ->
        validate_inputs (interp_ self) 0 inputs (input_flags details) = inr tinputs ->
        runOneStage (if keep_graph_ self then clone (interp_ self) else interp_ self)
          tinputs = (interp, inr toutputs) ->
        length toutputs = length (output_flags details) ->
        exists self' h' res,
          InterpreterAutogradFunction_apply self inputs h = (self', h', inr res))
  /\ (forall self inputs h self' h' res id gf,
        InterpreterAutogradFunction_apply self inputs h = (self', h', inr res) ->
        next_stage res = Some (id, gf) ->
        stage_ gf = S (stage_ self)
        /\ stage_details_ gf = stage_details_ self
        /\ used_ gf = false)
  /\ (forall self N k last,
        stage_ self = 0%nat ->
        length (stage_details_ self) = S N ->
        reaches self k last ->
        stage_ last = k
        /\ stage_details_ last = stage_details_ self
        /\ (k <= S N)%nat
        /\ (k = S N ->
            forall inputs h,
              InterpreterAutogradFunction_apply last inputs h =
              (last, h, inl (runtime_error (ERR_NDERIVS (S N)))))
        /\ ((1 <= k <= N)%nat ->
            used_ last = false
            /\ exists details,
                 stage_details_ self !! k = Some details
                 /\ forall inputs h tinputs interp toutputs,
                      Z.of_nat (length inputs) = num_inputs (iaf_function last) ->
                      length inputs = length (input_flags details) ->
                      validate_inputs (interp_ last) 0 inputs (input_flags details)
                        = inr tinputs ->
                      runOneStage
                        (if keep_graph_ last then clone (interp_ last) else interp_ last)
                        tinputs = (interp, inr toutputs) ->
                      length toutputs = length (output_flags details) ->
                      exists self' h' res,
                        InterpreterAutogradFunction_apply last inputs h
                          = (self', h', inr res)
                        /\ (existsb vf_requires_grad (output_flags details) = true ->
                            exists id gf,
                              next_stage res = Some (id, gf)
                              /\ reaches self (S k) gf))).
Proof.
  split; [|split; [|split; [|split]]].
  - intros self inputs h details tinputs interp toutputs
      Hlast Hd Hu Hn Hl Hv Hr Ho Hrg.
    rewrite (apply_returns self inputs h details tinputs interp toutputs
               Hd Hu Hn Hl Hv Hr Ho).
    set (self2 := if keep_graph_ self then _ else _).
    assert (E2 : stage_ self2 = stage_ self /\ stage_details_ self2 = stage_details_ self).
    { subst self2. destruct (keep_graph_ self); simpl; auto. }
    destruct E2 as [Es Ed].
    destruct (wrap_stage_outputs_makes_node self2 interp inputs details toutputs
                (output_flags details) None h Ho (or_introl Hrg)) as [[id gf] Hgf].
    pose proof (wrap_stage_outputs_node self2 interp inputs details toutputs
                  (output_flags details) None h) as Hnode.
    destruct (Hnode ltac:(intros ? ? [=]) id gf Hgf) as (G1 & G2 & G3 & G4).
    rewrite Es, Ed in *.
    eexists _, _, _, id, gf. split; [reflexivity|]. simpl.
    split; [exact Hgf|].
    split; [rewrite G1, G2; exact Hlast|].
    split; [apply G4; exact Hlast|].
    split; [exact G3|].
    intros inputs2 h2. rewrite apply_stage_limit.
    + rewrite G2. reflexivity.
    + rewrite G1, G2. exact Hlast.
  - intros self inputs h Hs. apply apply_stage_limit. exact Hs.
  - intros self inputs h details tinputs interp toutputs _ Hd Hu Hn Hl Hv Hr Ho.
    rewrite (apply_returns self inputs h details tinputs interp toutputs
               Hd Hu Hn Hl Hv Hr Ho).
    eauto.
  - intros self inputs h self' h' res id gf Happ Hnext.
    destruct (apply_ok_next_stage _ _ _ _ _ _ _ _ Happ Hnext) as (G1 & G2 & G3 & _).
    auto.
  - intros self N k last Hs0 HN Hreach.
    destruct (reaches_stage self k last Hreach) as (Rs & Rd & Rk).
    rewrite Hs0 in Rs, Rk. simpl in Rs, Rk. rewrite HN in Rk.
    split; [exact Rs|]. split; [exact Rd|].
    split; [destruct k; [lia | apply Rk; lia]|].
    split.
    + intros Hk inputs h. rewrite apply_stage_limit.
      * rewrite Rd, HN. reflexivity.
      * rewrite Rs, Rd, HN. exact Hk.
    + intros Hk. destruct (Rk ltac:(lia)) as [Hu _]. split; [exact Hu|].
      destruct (lookup_lt_is_Some_2 (stage_details_ self) k ltac:(lia)) as [details Hd].
      exists details. split; [exact Hd|].
      intros inputs h tinputs interp toutputs Hn Hl Hv Hr Ho.
      assert (Hd' : stage_details_ last !! stage_ last = Some details)
        by (rewrite Rs, Rd; exact Hd).
      pose proof (apply_returns last inputs h details tinputs interp toutputs
                    Hd' Hu Hn Hl Hv Hr Ho) as Happ.
      cbv zeta in Happ.
      eexists _, _, _. split; [exact Happ|].
      intros Hrg. simpl.
      destruct (wrap_stage_outputs_makes_node
                  (if keep_graph_ last
                   then set_used last (used_ last || negb (keep_graph_ last))
                   else set_interp (set_used last (used_ last || negb (keep_graph_ last)))
                          interp)
                  interp inputs details toutputs
                  (output_flags details) None h Ho (or_introl Hrg)) as [[id gf] Hgf].
      exists id, gf. split; [exact Hgf|].
      eapply reaches_next; [exact Hreach | exact Happ | exact Hgf].
Qed.

End StageLimit.

Lemma stage_input_contract_witness :
  let grad := Some (Stub.parameter (Stub.cpu_float [2; 3] 5) 1%nat) in
  (exists e,
     (InterpreterAutogradFunction_apply (Stub.stage_node 1 false) [grad]
        Stub.graph_heap).2 = inl e
     /\ is_StageMismatchError e)
  /\ (exists tinputs,
        validate_inputs (interp_ (Stub.stage_node 1 false)) 0 [None]
          [mkVariableFlags true false] = inr tinputs)
  /\ (exists tinputs interp toutputs,
        runOneStage (interp_ (Stub.stage_node 1 false)) tinputs = (interp, inr toutputs)
        /\ tinputs !! 0%nat = Some (Some (Stub.st_new CPUFloat [2; 0]))).
Proof.
  intros grad. split; [|split].
  - destruct (stage_input_contract (Stub.stage_node 1 false) [grad] Stub.graph_heap
                (mkStageDetails [mkVariableFlags true false]
                   [mkVariableFlags true true] [] [true])
                eq_refl eq_refl eq_refl eq_refl) as (Hbad & _ & _).
    apply (Hbad 0%nat grad (mkVariableFlags true false)); reflexivity.
  - destruct (stage_input_contract (Stub.stage_node 1 false) [None] Stub.graph_heap
                (mkStageDetails [mkVariableFlags true false]
                   [mkVariableFlags true true] [] [true])
                eq_refl eq_refl eq_refl eq_refl) as (_ & Hgood & _).
    apply Hgood. intros [|i] input tr Hi Ht; [|discriminate].
    injection Hi as <-. reflexivity.
  - destruct (InterpreterAutogradFunction_apply (Stub.stage_node 1 false) [None]
                Stub.graph_heap) as [[self' h'] [e|res]] eqn:E;
      [vm_compute in E; discriminate|].
    destruct (stage_input_contract (Stub.stage_node 1 false) [None] Stub.graph_heap
                (mkStageDetails [mkVariableFlags true false]
                   [mkVariableFlags true true] [] [true])
                eq_refl eq_refl eq_refl eq_refl) as (_ & _ & Hran).
    destruct (Hran self' h' res E)
      as (tinputs & interp & toutputs & Hr & _ & _ & Hzero & _).
    destruct (Hzero 0%nat (mkVariableFlags true false) eq_refl eq_refl eq_refl)
      as (z & Hz & -> & Hlaw).
    exists tinputs, interp, toutputs. split; [exact Hr | exact Hz].
Defined.

Lemma deferred_derivative_limit_witness :
  let grad := Some (Stub.leaf (Stub.cpu_float [2; 3] 5) false 0%nat) in
  let x := Some (Stub.leaf (Stub.cpu_float [2; 3] 5) true 0%nat) in
  (exists self' h' res id gf,
     InterpreterAutogradFunction_apply (Stub.stage_node 1 false) [grad] Stub.graph_heap
       = (self', h', inr res)
     /\ next_stage res = Some (id, gf)
     /\ next_functions (iaf_function gf) = []
     /\ (InterpreterAutogradFunction_apply gf [] Stub.graph_heap).2 =
        inl (runtime_error
               "Function compiled only for 1 derivatives. Use nderivs argument to request more."))
  /\ (exists h1 res1 id1 gf1 self2 h2 res2 id2 gf2,
        (InterpreterAutogradFunction_apply (Stub.stage_node 0 false) [x]
           Stub.graph_heap).2 = inr res1
        /\ (InterpreterAutogradFunction_apply (Stub.stage_node 0 false) [x]
              Stub.graph_heap).1.2 = h1
        /\ next_stage res1 = Some (id1, gf1)
        /\ stage_ gf1 = 1%nat
        /\ InterpreterAutogradFunction_apply gf1 [grad] h1 = (self2, h2, inr res2)
        /\ next_stage res2 = Some (id2, gf2)
        /\ stage_ gf2 = 2%nat
        /\ forall inputs h,
             InterpreterAutogradFunction_apply gf2 inputs h =
             (gf2, h,
              inl (runtime_error
                     "Function compiled only for 1 derivatives. Use nderivs argument to request more."))).
Proof.
  intros grad x.
  destruct (@deferred_derivative_limit Stub.library Stub.interpreter)
    as (Hlast & _ & _ & _ & Hchain).
  split.
  - destruct (Hlast (Stub.stage_node 1 false) [grad] Stub.graph_heap
                (mkStageDetails [mkVariableFlags true false]
                   [mkVariableFlags true true] [] [true])
                [Some (Stub.cpu_float [2; 3] 5)] 2%nat [Some (Stub.cpu_float [2; 3] 5)]
                eq_refl eq_refl eq_refl eq_refl eq_refl eq_refl eq_refl eq_refl eq_refl)
      as (self' & h' & res & id & gf & Happ & Hnext & _ & Hedges & _ & Hlimit).
    exists self', h', res, id, gf. repeat split; auto.
  - destruct (InterpreterAutogradFunction_apply (Stub.stage_node 0 false) [x]
                Stub.graph_heap) as [[self1 h1] [e|res1]] eqn:E1;
      [vm_compute in E1; discriminate|].
    destruct (next_stage res1) as [[id1 gf1]|] eqn:N1;
      [|vm_compute in E1; injection E1 as _ _ <-; discriminate].
    pose proof (reaches_next (Stub.stage_node 0 false) 0 _ _ _ _ _ _ _ _
                  (reaches_self _) E1 N1) as R1.
    destruct (Hchain (Stub.stage_node 0 false) 1%nat 1%nat gf1 eq_refl eq_refl R1)
      as (S1 & D1 & _ & _ & Hrun).
    destruct (Hrun ltac:(lia)) as (U1 & details & Hd & Hgo).
    injection Hd as <-.
    assert (Hv : exists tinputs,
               validate_inputs (interp_ gf1) 0 [grad]
                 [mkVariableFlags true false] = inr tinputs).
    { vm_compute in E1. injection E1 as _ _ <-. injection N1 as _ <-. eexists.
      reflexivity. }
    destruct Hv as [tinputs Hv].
    assert (Hn : Z.of_nat (length [grad]) = num_inputs (iaf_function gf1)).
    { vm_compute in E1. injection E1 as _ _ <-. injection N1 as _ <-. reflexivity. }
    destruct (runOneStage (if keep_graph_ gf1 then clone (interp_ gf1) else interp_ gf1)
                tinputs) as [interp [e|toutputs]] eqn:Hr.
    { vm_compute in E1. injection E1 as _ _ <-. injection N1 as _ <-.
      vm_compute in Hv. injection Hv as <-. vm_compute in Hr. discriminate. }
    assert (Ho : length toutputs = 1%nat).
    { vm_compute in E1. injection E1 as _ _ <-. injection N1 as _ <-.
      vm_compute in Hv. injection Hv as <-. vm_compute in Hr.
      injection Hr as _ <-. reflexivity. }
    destruct (Hgo [grad] h1 tinputs interp toutputs Hn eq_refl Hv Hr Ho)
      as (self2 & h2 & res2 & E2 & Hnode).
    destruct (Hnode eq_refl) as (id2 & gf2 & N2 & R2).
    destruct (Hchain (Stub.stage_node 0 false) 1%nat 2%nat gf2 eq_refl eq_refl R2)
      as (S2 & _ & _ & Hfail & _).
    exists h1, res1, id1, gf1, self2, h2, res2, id2, gf2.
    split; [reflexivity|]. split; [reflexivity|]. split; [exact N1|].
    split; [exact S1|]. split; [exact E2|]. split; [exact N2|].
    split; [exact S2|]. intros inputs h. exact (Hfail eq_refl inputs h).
Defined.

(** ** The output mask of ConvBackward *)

Section OutputMask.

Context {L : NumericLibrary} (cfg : BuildConfig).

Implicit Types (self : ConvBackward) (m : output_mask3).

Ltac appends_walk :=
  repeat first
    [ apply appends_lret
    | apply appends_lthrow
    | apply appends_lift
    | apply appends_deref
    | apply appends_lbind; [|intros ?]
    | match goal with
      | |- appends _ (if ?b then _ else _) => destruct b eqn:?
      | |- appends _ (match ?x with _ => _ end) => destruct x eqn:?
      end ].

Lemma compute_grad_bias_appends (grad_output : TensorImpl) :
  appends (fun c => forall slot, computes c slot = true -> slot = 2%nat)
    (compute_grad_bias grad_output).
Proof.
  unfold compute_grad_bias, call_gradient. apply appends_invoke.
  intros slot H. unfold computes in H. apply Nat.eqb_eq in H. auto.
Qed.

Lemma compute_grad_bias_within m (grad_output : TensorImpl) :
  mask_bit m 2 = true -> appends (within_mask m) (compute_grad_bias grad_output).
Proof.
  intros Hm. eapply appends_weaken; [|apply compute_grad_bias_appends].
  intros c Hc slot Hs. rewrite (Hc slot Hs). exact Hm.
Qed.

Lemma call_backward_within (k : BackwardKernel TensorImpl) :
  appends (within_mask (backward_mask k)) (call_backward k).
Proof. apply appends_invoke. intros slot H. exact H. Qed.

Lemma call_gradient_within m (k : GradientKernel TensorImpl Convolution) :
  mask_bit m (gradient_slot k) = true -> appends (within_mask m) (call_gradient k).
Proof.
  intros Hm. apply appends_invoke. intros slot H. unfold computes in H.
  apply Nat.eqb_eq in H. subst slot. exact Hm.
Qed.

(** compute_backward asks the library only for what the mask requests. *)
Lemma compute_backward_within (input grad_output weight columns ones : Tensor TensorImpl)
    params m :
  appends (within_mask m)
    (compute_backward cfg input grad_output weight columns ones params m).
Proof.
  unfold compute_backward. appends_walk;
    try (apply call_backward_within);
    try (apply call_gradient_within; assumption);
    try (apply compute_grad_bias_within; assumption).
Qed.

Lemma within_mask_weaken p m (c : Call TensorImpl Convolution) :
  within_mask m c -> within_mask_or_cudnn_filter cfg p m c.
Proof. intros H slot Hs. left. apply H. exact Hs. Qed.

Lemma cat_appends (tensors : list (Tensor TensorImpl)) dim
    (P : Call TensorImpl Convolution -> Prop) :
  (forall ts d, P (CallCat ts d)) -> appends P (cat tensors dim).
Proof.
  intros HP. unfold cat. destruct tensors as [|first rest]; [apply appends_lret|].
  apply appends_lbind; [apply appends_deref|]. intros t0.
  apply appends_lbind; [apply appends_invoke; apply HP|]. intros r. apply appends_lret.
Qed.

Lemma cat_within m (tensors : list (Tensor TensorImpl)) dim :
  appends (within_mask m) (cat tensors dim).
Proof. apply cat_appends. intros ts d slot H. discriminate. Qed.

(** Off the cuDNN branch the kernels ConvBackward::apply chooses are asked
    only for gradients whose mask bit is set. *)
Lemma ConvBackward_dispatch_within_mask self (input weight grad_output : TensorImpl)
    (bias : Tensor TensorImpl) m :
  is_depthwise (cb_params self) input weight (groups (cb_params self)) = true
  \/ use_cudnn cfg (cb_params self) input = false ->
  appends (within_mask m)
    (ConvBackward_dispatch cfg self input weight grad_output bias m).
Proof.
  intros Hbranch. unfold ConvBackward_dispatch.
  destruct (is_depthwise _ _ _ _).
  { appends_walk; try (apply compute_grad_bias_within; assumption).
    unfold call_depthwise_backward. apply appends_invoke.
    intros slot H. simpl in H. destruct m as [[m0 m1] m2]. simpl in *.
    destruct slot as [|[|[|slot]]]; simpl in *; auto; discriminate. }
  destruct Hbranch as [Hd|Hc]; [discriminate|]. rewrite Hc.
  destruct (Z.eqb _ 1); [apply compute_backward_within|].
  destruct (Z.ltb _ 0); [apply appends_lthrow|].
  apply appends_lbind.
  { apply appends_for_each. intros g. apply compute_backward_within. }
  intros grads. appends_walk; apply cat_within.
Qed.

(** The kernels ConvBackward::apply chooses are asked only for gradients
    whose mask bit is set; the one exception is the cuDNN branch, which asks
    cudnn_convolution_backward_filter for the weight gradient when the weight
    or the bias bit is set. *)
Lemma ConvBackward_dispatch_within self (input weight grad_output : TensorImpl)
    (bias : Tensor TensorImpl) m :
  appends (within_mask_or_cudnn_filter cfg (cb_params self) m)
    (ConvBackward_dispatch cfg self input weight grad_output bias m).
Proof.
  destruct (is_depthwise (cb_params self) input weight (groups (cb_params self)))
    eqn:Hdepth.
  { eapply appends_weaken; [apply within_mask_weaken|].
    apply ConvBackward_dispatch_within_mask. left. exact Hdepth. }
  destruct (use_cudnn cfg (cb_params self) input) eqn:Hcudnn.
  2:{ eapply appends_weaken; [apply within_mask_weaken|].
      apply ConvBackward_dispatch_within_mask. right. exact Hcudnn. }
  unfold ConvBackward_dispatch. rewrite Hdepth, Hcudnn.
  destruct (WITH_CUDNN cfg) eqn:Hwith; [|apply appends_lret].
  appends_walk.
  - eapply appends_weaken; [apply within_mask_weaken|].
    apply call_gradient_within. destruct (transposed _); assumption.
  - apply appends_invoke. intros slot H. unfold computes in H.
    apply Nat.eqb_eq in H. simpl in H. subst slot.
    destruct (mask_bit m 1) eqn:H1; [left; reflexivity|].
    right. simpl in *. auto.
  - eapply appends_weaken; [apply within_mask_weaken|].
    apply call_gradient_within; assumption.
Qed.

Lemma check_input_variables_appends P name
    (inputs : list (Var TensorImpl ValueTracingState)) args required :
  appends P (check_input_variables name inputs args required).
Proof.
  unfold check_input_variables.
  destruct (negb _); [apply appends_lthrow|].
  destruct (forallb _ _); [apply appends_lret | apply appends_lthrow].
Qed.

Lemma view4d_appends P (t : TensorImpl) : appends P (view4d t).
Proof. unfold view4d. destruct (negb _); [apply appends_lthrow | apply appends_lret]. Qed.

Lemma view3d_appends P (t : TensorImpl) : appends P (view3d t).
Proof. unfold view3d. destruct (negb _); [apply appends_lthrow | apply appends_lret]. Qed.

Lemma var_data_appends P what (v : Var TensorImpl ValueTracingState) :
  appends P (var_data what v).
Proof.
  unfold var_data. apply appends_lbind; [apply appends_deref|].
  intros impl. apply appends_lret.
Qed.

End OutputMask.

Section OutputMaskClaim.

Context {L : NumericLibrary} (cfg : BuildConfig).

Implicit Types (self : ConvBackward) (m : output_mask3).

Lemma appends_lbind_result {A B} P (m : Lib A) (k : A -> Lib B) :
  appends P m ->
  (forall a, (exists log log1, m log = (inr a, log1)) -> appends P (k a)) ->
  appends P (lbind m k).
Proof.
  intros Hm Hk log. unfold lbind.
  destruct (Hm log) as (new1 & E1 & F1).
  destruct (m log) as [[e|a] log1] eqn:Em; simpl in *.
  - exists new1. auto.
  - destruct (Hk a (ex_intro _ log (ex_intro _ log1 Em)) log1) as (new2 & E2 & F2).
    exists (new1 ++ new2). rewrite E2, E1, app_assoc.
    split; [reflexivity | apply Forall_app; auto].
Qed.

Lemma output_mask_bits self (bias : Tensor TensorImpl) slot :
  mask_bit (ConvBackward_output_mask self bias) slot = true ->
  should_compute_output (cb_function self) slot = true
  /\ (slot = 2%nat -> defined bias = true).
Proof.
  unfold ConvBackward_output_mask, mask_bit.
  destruct slot as [|[|[|slot]]]; intros H; try discriminate.
  - split; [exact H | discriminate].
  - split; [exact H | discriminate].
  - apply andb_true_iff in H as [H1 H2]. split; auto.
Qed.

(** C6 (amended): the effective mask bit of the bias gradient is the
    requested bit AND "bias is defined"; with an undefined bias no call of
    ConvBackward::apply asks for the bias gradient, whatever was requested;
    and every call asks only for gradients that were requested, the bias
    gradient only with a defined bias.  The one call for which this is not
    claimed is cudnn_convolution_backward_filter, made in a build with cuDNN
    on an input for which use_cudnn holds, when the bias gradient is
    requested and the bias is defined.  That call is made on the cuDNN
    branch only: in every build, when the depthwise branch is taken or
    use_cudnn does not hold, each call that the kernel selection makes asks
    only for gradients whose mask bit is set. *)
Theorem output_mask_honoured self
    (grad_outputs : list (Var TensorImpl ValueTracingState)) h :
  (forall bias : Tensor TensorImpl,
     ConvBackward_output_mask self bias =
     (should_compute_output (cb_function self) 0,
      should_compute_output (cb_function self) 1,
      should_compute_output (cb_function self) 2 && defined bias))
  /\ (data (bias_ self) = None ->
      appends (fun c => computes c 2 = false)
        (ConvBackward_apply cfg self grad_outputs h))
  /\ appends
       (fun c =>
          forall slot,
            computes c slot = true ->
            (should_compute_output (cb_function self) slot = true
             /\ (slot = 2%nat -> defined (data (bias_ self)) = true))
            \/ (slot = 1%nat /\ WITH_CUDNN cfg = true
                /\ should_compute_output (cb_function self) 2 = true
                /\ defined (data (bias_ self)) = true
                /\ cudnn_filter_call cfg (cb_params self) c))
       (ConvBackward_apply cfg self grad_outputs h)
  /\ (forall (input weight grad_output : TensorImpl) (bias : Tensor TensorImpl) m,
        is_depthwise (cb_params self) input weight (groups (cb_params self)) = true
        \/ use_cudnn cfg (cb_params self) input = false ->
        appends (fun c => forall slot, computes c slot = true -> mask_bit m slot = true)
          (ConvBackward_dispatch cfg self input weight grad_output bias m)).
Proof.
  assert (Hall :
    appends
       (fun c =>
          forall slot,
            computes c slot = true ->
            (should_compute_output (cb_function self) slot = true
             /\ (slot = 2%nat -> defined (data (bias_ self)) = true))
            \/ (slot = 1%nat /\ WITH_CUDNN cfg = true
                /\ should_compute_output (cb_function self) 2 = true
                /\ defined (data (bias_ self)) = true
                /\ cudnn_filter_call cfg (cb_params self) c))
       (ConvBackward_apply cfg self grad_outputs h)).
  { unfold ConvBackward_apply.
    apply appends_lbind; [apply check_input_variables_appends|]. intros _.
    destruct (is_padding_neg _); [apply appends_lthrow|].
    destruct (is_output_padding_neg _); [apply appends_lthrow|].
    apply appends_lbind; [apply appends_lift|]. intros iv.
    apply appends_lbind; [apply appends_lift|]. intros wv.
    apply appends_lbind_result; [apply appends_lift|]. intros bv (l0 & l1 & Hbv).
    apply lift_inr in Hbv as [Hbv _].
    apply appends_lbind; [apply var_data_appends|]. intros i.
    apply appends_lbind; [apply var_data_appends|]. intros w.
    apply appends_lbind; [apply var_data_appends|]. intros go.
    apply appends_lbind.
    { destruct (Z.eqb _ 3); [|apply appends_lret].
      apply appends_lbind; [apply view4d_appends|]. intros i4.
      apply appends_lbind; [apply view4d_appends|]. intros w4.
      apply appends_lbind; [apply view4d_appends|]. intros g4. apply appends_lret. }
    intros [[i4 w4] g4].
    assert (Hbias : forall slot,
              mask_bit (ConvBackward_output_mask self (opt_data (Some bv))) slot = true ->
              should_compute_output (cb_function self) slot = true
              /\ (slot = 2%nat -> defined (data (bias_ self)) = true)).
    { intros slot Hs. apply output_mask_bits in Hs as [Hs1 Hs2]. split; [exact Hs1|].
      intros E. specialize (Hs2 E). destruct bv as [x|]; [|discriminate].
      apply unpack_defined_populated in Hbv as [Hd _]. exact Hd. }
    apply appends_lbind.
    { eapply appends_weaken; [|apply ConvBackward_dispatch_within].
      intros c Hc slot Hs. destruct (Hc slot Hs) as [Hm | (E & Hw & Hf & Hm)].
      - left. apply Hbias. exact Hm.
      - right. destruct (Hbias 2%nat Hm) as [H2 Hd]. repeat split; auto. }
    intros [[gi gw] gb].
    apply appends_lbind; [|intros [gi' gw']; apply appends_lret].
    destruct (Z.eqb _ 3); [|apply appends_lret].
    apply appends_lbind.
    { destruct gi; [|apply appends_lret].
      apply appends_lbind; [apply view3d_appends|]. intros; apply appends_lret. }
    intros gi'. apply appends_lbind.
    { destruct gw; [|apply appends_lret].
      apply appends_lbind; [apply view3d_appends|]. intros; apply appends_lret. }
    intros gw'. apply appends_lret. }
  split; [reflexivity|]. split; [|split; [exact Hall|]].
  - intros Hnone. eapply appends_weaken; [|exact Hall].
    intros c Hc. destruct (computes c 2) eqn:E; [|reflexivity].
    destruct (Hc 2%nat E) as [[_ Hd] | (Hs & _)]; [|discriminate].
    rewrite Hnone in Hd. specialize (Hd eq_refl). discriminate.
  - intros input weight grad_output bias m Hbranch.
    apply ConvBackward_dispatch_within_mask. exact Hbranch.
Qed.

End OutputMaskClaim.

(** C6 as stated fails in a build with cuDNN: with a defined bias and only the
    bias gradient requested, the mask is (false, false, true), yet
    cudnn_convolution_backward_filter is called and the weight gradient is
    returned. *)
Lemma cudnn_filter_gradient_unrequested :
  let input := Stub.cuda_float [1; 4; 8; 8] 1 in
  let weight := Stub.cuda_float [4; 2; 3; 3] 2 in
  let bias := Stub.cuda_float [4] 4 in
  let go := Stub.leaf (Stub.cuda_float [1; 4; 8; 8] 3) false 0%nat in
  let node0 := Stub.conv_backward_node (Stub.conv2d_params 2) input weight
                 [false; false; true] in
  let node :=
    {| cb_function := cb_function node0; cb_params := cb_params node0;
       cb_ctx := cb_ctx node0; input_ := input_ node0; weight_ := weight_ node0;
       bias_ := (SavedVariable_new (Some (Stub.parameter bias 1%nat)) false
                   Stub.graph_heap).1 |} in
  let run := ConvBackward_apply Stub.cudnn_build node [Some go] Stub.graph_heap [] in
  ConvBackward_output_mask node (Some bias) = (false, false, true)
  /\ existsb (fun c => computes c 1) run.2 = true
  /\ exists r, run.1 = inr r /\ defined (grad_weight r) = true.
Proof.
  vm_compute. split; [reflexivity|]. split; [reflexivity|].
  eexists. split; reflexivity.
Qed.

Lemma output_mask_honoured_witness :
  let go := Stub.leaf (Stub.cpu_float [1; 4; 8; 8] 3) false 0%nat in
  let node :=
    Stub.conv_backward_node (Stub.conv2d_params 2)
      (Stub.cpu_float [1; 4; 8; 8] 1) (Stub.cpu_float [4; 2; 3; 3] 2)
      [true; true; true] in
  let depthwise :=
    Stub.conv_backward_node (Stub.conv2d_params 4)
      (Stub.cuda_float [1; 4; 8; 8] 1) (Stub.cuda_float [4; 1; 3; 3] 2)
      [false; false; true] in
  Forall (fun c => computes c 2 = false)
    (ConvBackward_apply Stub.cpu_build node [Some go] Stub.graph_heap []).2
  /\ Forall (fun c => computes c 1 = false)
       (ConvBackward_dispatch Stub.cudnn_build depthwise
          (Stub.cuda_float [1; 4; 8; 8] 1) (Stub.cuda_float [4; 1; 3; 3] 2)
          (Stub.cuda_float [1; 4; 8; 8] 3) (Some (Stub.cuda_float [4] 4))
          (false, false, true) []).2.
Proof.
  intros go node depthwise. split.
  - destruct (output_mask_honoured Stub.cpu_build node [Some go] Stub.graph_heap)
      as (_ & Hbias & _).
    destruct (Hbias eq_refl []) as (new & E & F).
    rewrite E. exact F.
  - destruct (output_mask_honoured Stub.cudnn_build depthwise [] Stub.graph_heap)
      as (_ & _ & _ & Hbranch).
    destruct (Hbranch (Stub.cuda_float [1; 4; 8; 8] 1) (Stub.cuda_float [4; 1; 3; 3] 2)
                (Stub.cuda_float [1; 4; 8; 8] 3) (Some (Stub.cuda_float [4] 4))
                (false, false, true) (or_introl eq_refl) []) as (new & E & F).
    rewrite E. simpl. eapply Forall_impl; [exact F|].
    intros c Hc. destruct (computes c 1) eqn:E1; [|reflexivity].
    specialize (Hc 1%nat E1). discriminate.
Defined.

(** ** Grouped convolution on the fallback path *)

Section GroupedFacts.

Context {L : NumericLibrary} (cfg : BuildConfig).

Implicit Types (p : ConvParams) (self : ConvBackward).
Implicit Types (t input weight : TensorImpl).

Lemma lbind_assoc {A B C} (m : Lib A) (k1 : A -> Lib B) (k2 : B -> Lib C) log :
  lbind (lbind m k1) k2 log = lbind m (fun a => lbind (k1 a) k2) log.
Proof. unfold lbind. destruct (m log) as [[e|a] log1]; reflexivity. Qed.

Lemma lbind_ext {A B} (m1 m2 : Lib A) (k1 k2 : A -> Lib B) :
  (forall log, m1 log = m2 log) ->
  (forall a log, k1 a log = k2 a log) ->
  forall log, lbind m1 k1 log = lbind m2 k2 log.
Proof.
  intros Hm Hk log. unfold lbind. rewrite Hm.
  destruct (m2 log) as [[e|a] log1]; [reflexivity | apply Hk].
Qed.

Lemma for_each_ext {A} (gs : list Z) (body1 body2 : Z -> Lib A) :
  (forall g, g ∈ gs -> forall log, body1 g log = body2 g log) ->
  forall log, for_each gs body1 log = for_each gs body2 log.
Proof.
  induction gs as [|g gs IH]; intros Hb log; [reflexivity|].
  cbn [for_each]. apply lbind_ext.
  - apply Hb. left.
  - intros x log1. apply lbind_ext; [|reflexivity].
    apply IH. intros g' Hg'. apply Hb. right. exact Hg'.
Qed.

Lemma is_depthwise_single p input weight : is_depthwise p input weight 1 = false.
Proof.
  unfold is_depthwise. change (Z.gtb 1 1) with false.
  rewrite andb_false_r. reflexivity.
Qed.

(** use_cudnn reads the input only through its type, and never the number of
    groups. *)
Lemma use_cudnn_type p g input input' :
  type input' = type input ->
  use_cudnn cfg (with_groups p g) input' = use_cudnn cfg p input.
Proof. intros Ht. unfold use_cudnn. rewrite Ht. reflexivity. Qed.

(** The kernel choice of compute_output does not depend on the number of
    groups. *)
Lemma compute_output_groups (i w b c o : Tensor TensorImpl) p g :
  compute_output cfg i w b c o (with_groups p g) = compute_output cfg i w b c o p.
Proof.
  destruct p as [st pa di tr op gr be de ce].
  unfold compute_output, use_nnpack, output_size, with_groups,
    is_dilated, is_strided. simpl.
  destruct tr; reflexivity.
Qed.

Lemma compute_backward_groups (i go w c o : Tensor TensorImpl) p g m :
  compute_backward cfg i go w c o (with_groups p g) m =
  compute_backward cfg i go w c o p m.
Proof.
  destruct p as [st pa di tr op gr be de ce]. reflexivity.
Qed.

Lemma replicate_group {A} (x : A) (G g : Z) :
  0 <= g < G -> replicate (Z.to_nat G) (Some x) !! Z.to_nat g = Some (Some x).
Proof. intros Hg. apply lookup_replicate_2. lia. Qed.

(** The single-group branch of the forward: one call of compute_output on the
    whole tensors. *)
Lemma ConvForward_dispatch_single p input weight (bias : Tensor TensorImpl) :
  groups p = 1 -> use_cudnn cfg p input = false ->
  ConvForward_dispatch cfg p input weight bias =
  lbind
    (compute_output cfg (Some input) (Some weight) bias
       (Some (type_tensor (type input))) (Some (type_tensor (type input))) p)
    (fun output => lret (Some output, fallback_ctx p input)).
Proof.
  intros Hg Hc. unfold ConvForward_dispatch, fallback_ctx.
  rewrite Hg, is_depthwise_single, Hc. reflexivity.
Qed.

Lemma ConvBackward_dispatch_single self input weight (grad_output : TensorImpl)
    (bias : Tensor TensorImpl) m :
  groups (cb_params self) = 1 -> use_cudnn cfg (cb_params self) input = false ->
  ConvBackward_dispatch cfg self input weight grad_output bias m =
  compute_backward cfg (Some input) (Some grad_output) (Some weight)
    (default None (columns (cb_ctx self) !! 0%nat))
    (default None (ones (cb_ctx self) !! 0%nat))
    (cb_params self) m.
Proof.
  intros Hg Hc. unfold ConvBackward_dispatch.
  rewrite Hg, is_depthwise_single, Hc. reflexivity.
Qed.

(** Every library call of an apply that returns is made by the branch its
    dispatch takes, on the checked and reshaped tensors. *)
Lemma ConvForward_apply_runs_dispatch p
    (inputs : list (Var TensorImpl ValueTracingState)) log p1 output ctx log' :
  ConvForward_apply cfg p inputs log = (inr (p1, output, ctx), log') ->
  groups p1 = groups p
  /\ exists input weight bias output0,
       ConvForward_dispatch cfg p1 input weight bias log = (inr (output0, ctx), log').
Proof.
  unfold ConvForward_apply. intros H.
  apply lbind_inr in H as ([] & l1 & Hc & H).
  pose proof (check_input_variables_log "ConvNd" inputs 3 2 log) as Hl.
  rewrite Hc in Hl. simpl in Hl. subst l1.
  destruct (is_padding_neg p); [discriminate|].
  destruct (is_output_padding_neg p); [discriminate|].
  apply lbind_inr in H as (i0 & l2 & Hi & H). apply deref_inr in Hi as [_ ->].
  apply lbind_inr in H as (w0 & l3 & Hw & H). apply deref_inr in Hw as [_ ->].
  apply lbind_inr in H as ([] & l4 & Hs & H).
  assert (l4 = log) as ->.
  { pose proof (check_input_shape_forward_log (contiguous i0) w0
                  (opt_data (inputs !! 2%nat)) (groups p) (transposed p) log) as Hl'.
    rewrite Hs in Hl'. exact Hl'. }
  apply lbind_inr in H as ([[q i] w] & l5 & Hv & H).
  assert (l5 = log /\ groups q = groups p) as [-> Hq].
  { destruct (Z.eqb _ 3).
    - apply lbind_inr in Hv as (i4 & la & Ha & Hv).
      apply lbind_inr in Hv as (w4 & lb & Hb & Hv).
      revert Ha Hb Hv. unfold view4d, lthrow, lret.
      repeat match goal with
             | |- context [if ?b then _ else _] => destruct b
             end; intros [=] [=] [=]; subst.
      split; [reflexivity|]. unfold view1d_as_2d. destruct (Nat.eqb _ 1); reflexivity.
    - injection Hv as <- <- <- <-. auto. }
  apply lbind_inr in H as ([o c] & l6 & Hd & H).
  apply lbind_inr in H as (o' & l7 & Ho & H).
  injection H as <- <- <- <-.
  assert (l7 = l6) as ->.
  { destruct (Z.eqb _ 3).
    - apply lbind_inr in Ho as (x & la & Ha & Ho). apply deref_inr in Ha as [_ ->].
      apply lbind_inr in Ho as (y & lb & Hb & Ho).
      revert Hb Ho. unfold view3d, lthrow, lret.
      destruct (negb _); intros [=] [=]; subst; reflexivity.
    - injection Ho as <- <-. reflexivity. }
  split; [exact Hq|]. eauto.
Qed.

Lemma ConvBackward_apply_runs_dispatch self
    (grad_outputs : list (Var TensorImpl ValueTracingState)) h log r log' :
  ConvBackward_apply cfg self grad_outputs h log = (inr r, log') ->
  let bias := opt_data (Some (bias_var r)) in
  exists input weight grad_output gi gw,
    ConvBackward_dispatch cfg self input weight grad_output bias
      (ConvBackward_output_mask self bias) log = (inr (gi, gw, grad_bias r), log').
Proof.
  unfold ConvBackward_apply. intros H.
  apply lbind_inr in H as ([] & l1 & Hc & H).
  pose proof (check_input_variables_log "ConvNdBackward" grad_outputs 1 1 log) as Hl.
  rewrite Hc in Hl. simpl in Hl. subst l1.
  destruct (is_padding_neg _); [discriminate|].
  destruct (is_output_padding_neg _); [discriminate|].
  apply lbind_inr in H as (iv & l2 & Hi & H). apply lift_inr in Hi as [_ ->].
  apply lbind_inr in H as (wv & l3 & Hw & H). apply lift_inr in Hw as [_ ->].
  apply lbind_inr in H as (bv & l4 & Hb & H). apply lift_inr in Hb as [_ ->].
  apply lbind_inr in H as (i & l5 & Hdi & H).
  apply lbind_inr in Hdi as (x & la & Ha & Hdi). apply deref_inr in Ha as [_ ->].
  injection Hdi as <- <-.
  apply lbind_inr in H as (w & l6 & Hdw & H).
  apply lbind_inr in Hdw as (y & la & Ha & Hdw). apply deref_inr in Ha as [_ ->].
  injection Hdw as <- <-.
  apply lbind_inr in H as (go & l7 & Hgo & H).
  apply lbind_inr in Hgo as (z & la & Ha & Hgo). apply deref_inr in Ha as [_ ->].
  injection Hgo as <- <-.
  apply lbind_inr in H as ([[i4 w4] g4] & l8 & Hv & H).
  assert (l8 = log) as ->.
  { destruct (Z.eqb _ 3).
    - apply lbind_inr in Hv as (a & la & Ha & Hv).
      apply lbind_inr in Hv as (b & lb & Hb & Hv).
      apply lbind_inr in Hv as (c & lc & Hc' & Hv).
      revert Ha Hb Hc' Hv. unfold view4d, lthrow, lret.
      repeat match goal with
             | |- context [if ?b then _ else _] => destruct b
             end; intros [=] [=] [=] [=]; subst; reflexivity.
    - injection Hv as <- <- <- <-. reflexivity. }
  apply lbind_inr in H as ([[gi gw] gb] & l9 & Hd & H).
  apply lbind_inr in H as ([gi' gw'] & l10 & Hv3 & H).
  injection H as <- <-. simpl.
  assert (l10 = l9) as ->.
  { destruct (Z.eqb _ 3).
    - apply lbind_inr in Hv3 as (a & la & Ha & Hv3).
      apply lbind_inr in Hv3 as (b & lb & Hb & Hv3).
      injection Hv3 as <- <- <-.
      assert (la = l9) as ->.
      { destruct gi as [t|]; [|injection Ha as <- <-; reflexivity].
        apply lbind_inr in Ha as (c & lc & Hc' & Ha). injection Ha as <- <-.
        revert Hc'. unfold view3d, lthrow, lret.
        destruct (negb _); intros [=]; subst; reflexivity. }
      destruct gw as [t|]; [|injection Hb as <- <-; reflexivity].
      apply lbind_inr in Hb as (c & lc & Hc' & Hb). injection Hb as <- <-.
      revert Hc'. unfold view3d, lthrow, lret.
      destruct (negb _); intros [=]; subst; reflexivity.
    - injection Hv3 as <- <- <-. reflexivity. }
  eauto 10.
Qed.

(** Neither compute_output nor compute_backward concatenates. *)
Lemma compute_output_no_cat (i w b c o : Tensor TensorImpl) p :
  appends (fun call => forall ts d, call <> CallCat ts d)
    (compute_output cfg i w b c o p).
Proof.
  unfold compute_output, call_forward.
  repeat first
    [ apply appends_lthrow
    | apply appends_deref
    | apply appends_lbind; [|intros ?]
    | apply appends_invoke; intros ts d; discriminate
    | match goal with
      | |- appends _ (if ?b then _ else _) => destruct b eqn:?
      end ].
Qed.

Lemma compute_backward_no_cat (i go w c o : Tensor TensorImpl) p m :
  appends (fun call => forall ts d, call <> CallCat ts d)
    (compute_backward cfg i go w c o p m).
Proof.
  unfold compute_backward, compute_grad_bias, call_backward, call_gradient.
  repeat first
    [ apply appends_lthrow
    | apply appends_lret
    | apply appends_deref
    | apply appends_lbind; [|intros ?]
    | apply appends_invoke; intros ts d; discriminate
    | match goal with
      | |- appends _ (if ?b then _ else _) => destruct b eqn:?
      end ].
Qed.

End GroupedFacts.

Section GroupedBranches.

Context {L : NumericLibrary} (cfg : BuildConfig).

(** The depthwise and the cuDNN branch of the forward do not concatenate. *)
Lemma ConvForward_dispatch_no_cat (p : ConvParams) (input weight : TensorImpl)
    (bias : Tensor TensorImpl) :
  is_depthwise p input weight (groups p) = true \/ use_cudnn cfg p input = true ->
  appends (fun call => forall ts d, call <> CallCat ts d)
    (ConvForward_dispatch cfg p input weight bias).
Proof.
  intros Hbranch. unfold ConvForward_dispatch.
  destruct (Z.ltb _ 0); [apply appends_lthrow|].
  destruct (is_depthwise _ _ _ _).
  { apply appends_lbind; [|intros ?; apply appends_lret].
    apply appends_invoke. intros ts d. discriminate. }
  destruct Hbranch as [Hd|Hc]; [discriminate|]. rewrite Hc.
  destruct (WITH_CUDNN cfg); [|apply appends_lret].
  destruct (negb _); [apply appends_lthrow|].
  destruct (match bias with Some b => _ | None => false end); [apply appends_lthrow|].
  apply appends_lbind; [|intros [out conv]; apply appends_lret].
  apply appends_invoke. intros ts d. discriminate.
Qed.

(** Nor do the depthwise and the cuDNN branch of the backward. *)
Lemma ConvBackward_dispatch_no_cat (self : ConvBackward)
    (input weight grad_output : TensorImpl) (bias : Tensor TensorImpl) m :
  is_depthwise (cb_params self) input weight (groups (cb_params self)) = true
  \/ use_cudnn cfg (cb_params self) input = true ->
  appends (fun call => forall ts d, call <> CallCat ts d)
    (ConvBackward_dispatch cfg self input weight grad_output bias m).
Proof.
  intros Hbranch. unfold ConvBackward_dispatch.
  destruct (is_depthwise _ _ _ _).
  { unfold compute_grad_bias, call_depthwise_backward, call_gradient.
    repeat first
      [ apply appends_lthrow
      | apply appends_lret
      | apply appends_deref
      | apply appends_lbind; [|intros ?]
      | apply appends_invoke; intros ts d; discriminate
      | match goal with
        | |- appends _ (if ?b then _ else _) => destruct b eqn:?
        | |- appends _ (match ?x with _ => _ end) => destruct x eqn:?
        end ]. }
  destruct Hbranch as [Hd|Hc]; [discriminate|]. rewrite Hc.
  unfold call_gradient.
  repeat first
    [ apply appends_lthrow
    | apply appends_lret
    | apply appends_deref
    | apply appends_lbind; [|intros ?]
    | apply appends_invoke; intros ts d; discriminate
    | match goal with
      | |- appends _ (if ?b then _ else _) => destruct b eqn:?
      | |- appends _ (match ?x with _ => _ end) => destruct x eqn:?
      end ].
Qed.

End GroupedBranches.

Section GroupedClaim.

Context {L : NumericLibrary} (cfg : BuildConfig).

(** Views and copies keep the type of a tensor: what the library is assumed
    to do for the slices of a grouped convolution. *)
Hypothesis slice_keeps_type :
  forall (t : TensorImpl) d start len,
    type (contiguous (narrow t d start len)) = type t.

Lemma slice_type (t : TensorImpl) dim G g : type (slice t dim G g) = type t.
Proof. unfold slice. apply slice_keeps_type. Qed.

Lemma grouped_forward_is_split self (input weight : TensorImpl)
    (bias : Tensor TensorImpl) :
  is_depthwise self input weight (groups self) = false ->
  use_cudnn cfg self input = false ->
  1 < groups self ->
  forall log,
    ConvForward_dispatch cfg self input weight bias log =
    split_conv_forward cfg self input weight bias log.
Proof.
  intros Hd Hc HG log. unfold ConvForward_dispatch, split_conv_forward.
  rewrite Hd, Hc.
  replace (Z.ltb (groups self) 0) with false by (symmetry; apply Z.ltb_ge; lia).
  replace (Z.eqb (groups self) 1) with false by (symmetry; apply Z.eqb_neq; lia).
  apply lbind_ext; [|reflexivity].
  apply for_each_ext. intros g Hg log1.
  apply elem_of_seqZ in Hg.
  rewrite ConvForward_dispatch_single;
    [|reflexivity | rewrite (use_cudnn_type cfg self 1 input); [exact Hc | apply slice_type]].
  rewrite lbind_assoc. rewrite compute_output_groups, slice_type.
  rewrite (replicate_group (type_tensor (type input)) (groups self) g) by lia.
  reflexivity.
Qed.

Lemma grouped_backward_is_split (self : ConvBackward)
    (input weight grad_output : TensorImpl) (bias : Tensor TensorImpl) m :
  is_depthwise (cb_params self) input weight (groups (cb_params self)) = false ->
  use_cudnn cfg (cb_params self) input = false ->
  1 < groups (cb_params self) ->
  forall log,
    ConvBackward_dispatch cfg self input weight grad_output bias m log =
    split_conv_backward cfg self input weight grad_output bias m log.
Proof.
  intros Hd Hc HG log. unfold ConvBackward_dispatch, split_conv_backward.
  rewrite Hd, Hc.
  replace (Z.ltb (groups (cb_params self)) 0) with false
    by (symmetry; apply Z.ltb_ge; lia).
  replace (Z.eqb (groups (cb_params self)) 1) with false
    by (symmetry; apply Z.eqb_neq; lia).
  apply lbind_ext; [|reflexivity].
  apply for_each_ext. intros g Hg log1.
  rewrite ConvBackward_dispatch_single;
    [|reflexivity
     |simpl; rewrite (use_cudnn_type cfg (cb_params self) 1 input);
      [exact Hc | apply slice_type]].
  simpl. rewrite compute_backward_groups. reflexivity.
Qed.

(** C3 (amended): where ConvForward::apply and ConvBackward::apply take
    neither the depthwise nor the cuDNN branch, a group count g > 1 makes
    them compute exactly what g convolutions with a single group compute on
    the g-th slices (of input and weight along dimensions 1 and 0, of the bias
    along 0, of grad_output along 1), concatenated in group order: the outputs
    along dimension 1, and in the backward each requested gradient, the input
    gradient along dimension 1, the weight and bias gradients along 0.  A
    group count of 1 makes one call of compute_output, or of
    compute_backward, on the whole tensors, without any concatenation.
    The grouped computation equals the computation with a single group on
    equivalently constructed inputs: whenever the convolution with a single
    group of such inputs returns what the concatenation of the single-group
    convolutions of the slices returns, it returns what the grouped
    convolution returns; in the backward this holds of each gradient, or
    combination of gradients, of which the premise holds.  On the depthwise
    and the cuDNN branch nothing is concatenated, for any group count. *)
Theorem grouped_convolution_fallback :
  (forall self (input weight : TensorImpl) (bias : Tensor TensorImpl),
     is_depthwise self input weight (groups self) = false ->
     use_cudnn cfg self input = false ->
     (1 < groups self ->
      forall log,
        ConvForward_dispatch cfg self input weight bias log =
        split_conv_forward cfg self input weight bias log)
     /\ (groups self = 1 ->
         ConvForward_dispatch cfg self input weight bias =
         lbind
           (compute_output cfg (Some input) (Some weight) bias
              (Some (type_tensor (type input))) (Some (type_tensor (type input))) self)
           (fun output => lret (Some output, fallback_ctx self input))
         /\ appends (fun call => forall ts d, call <> CallCat ts d)
              (ConvForward_dispatch cfg self input weight bias)))
  /\ (forall (self : ConvBackward) (input weight grad_output : TensorImpl)
             (bias : Tensor TensorImpl) m,
        is_depthwise (cb_params self) input weight (groups (cb_params self)) = false ->
        use_cudnn cfg (cb_params self) input = false ->
        (1 < groups (cb_params self) ->
         forall log,
           ConvBackward_dispatch cfg self input weight grad_output bias m log =
           split_conv_backward cfg self input weight grad_output bias m log)
        /\ (groups (cb_params self) = 1 ->
            ConvBackward_dispatch cfg self input weight grad_output bias m =
            compute_backward cfg (Some input) (Some grad_output) (Some weight)
              (default None (columns (cb_ctx self) !! 0%nat))
              (default None (ones (cb_ctx self) !! 0%nat))
              (cb_params self) m
            /\ appends (fun call => forall ts d, call <> CallCat ts d)
                 (ConvBackward_dispatch cfg self input weight grad_output bias m)))
  /\ (forall self (input weight : TensorImpl) (bias : Tensor TensorImpl)
             (input1 weight1 : TensorImpl) (bias1 : Tensor TensorImpl),
        is_depthwise self input weight (groups self) = false ->
        use_cudnn cfg self input = false ->
        1 < groups self ->
        (forall log,
           returned fst
             (ConvForward_dispatch cfg (with_groups self 1) input1 weight1 bias1 log).1 =
           returned fst (split_conv_forward cfg self input weight bias log).1) ->
        forall log,
          returned fst (ConvForward_dispatch cfg self input weight bias log).1 =
          returned fst
            (ConvForward_dispatch cfg (with_groups self 1) input1 weight1 bias1 log).1)
  /\ (forall (B : Type)
             (f : Tensor TensorImpl * Tensor TensorImpl * Tensor TensorImpl -> B)
             (self : ConvBackward) (input weight grad_output : TensorImpl)
             (bias : Tensor TensorImpl) m
             (self1 : ConvBackward) (input1 weight1 grad_output1 : TensorImpl)
             (bias1 : Tensor TensorImpl),
        is_depthwise (cb_params self) input weight (groups (cb_params self)) = false ->
        use_cudnn cfg (cb_params self) input = false ->
        1 < groups (cb_params self) ->
        groups (cb_params self1) = 1 ->
        (forall log,
           returned f
             (ConvBackward_dispatch cfg self1 input1 weight1 grad_output1 bias1 m log).1 =
           returned f
             (split_conv_backward cfg self input weight grad_output bias m log).1) ->
        forall log,
          returned f (ConvBackward_dispatch cfg self input weight grad_output bias m log).1 =
          returned f
            (ConvBackward_dispatch cfg self1 input1 weight1 grad_output1 bias1 m log).1)
  /\ (forall self (input weight : TensorImpl) (bias : Tensor TensorImpl),
        is_depthwise self input weight (groups self) = true
        \/ use_cudnn cfg self input = true ->
        appends (fun call => forall ts d, call <> CallCat ts d)
          (ConvForward_dispatch cfg self input weight bias))
  /\ (forall (self : ConvBackward) (input weight grad_output : TensorImpl)
             (bias : Tensor TensorImpl) m,
        is_depthwise (cb_params self) input weight (groups (cb_params self)) = true
        \/ use_cudnn cfg (cb_params self) input = true ->
        appends (fun call => forall ts d, call <> CallCat ts d)
          (ConvBackward_dispatch cfg self input weight grad_output bias m)).
Proof.
  split; [|split; [|split; [|split; [|split]]]].
  - intros self input weight bias Hd Hc. split.
    + intros HG. apply grouped_forward_is_split; auto.
    + intros HG. rewrite (ConvForward_dispatch_single cfg self input weight bias HG Hc).
      split; [reflexivity|].
      apply appends_lbind; [apply compute_output_no_cat|].
      intros o. apply appends_lret.
  - intros self input weight grad_output bias m Hd Hc. split.
    + intros HG. apply grouped_backward_is_split; auto.
    + intros HG.
      rewrite (ConvBackward_dispatch_single cfg self input weight grad_output bias m HG Hc).
      split; [reflexivity | apply compute_backward_no_cat].
  - intros self input weight bias input1 weight1 bias1 Hd Hc HG Heq log.
    rewrite (grouped_forward_is_split self input weight bias Hd Hc HG log).
    symmetry. apply Heq.
  - intros B f self input weight grad_output bias m self1 input1 weight1 grad_output1
      bias1 Hd Hc HG _ Heq log.
    rewrite (grouped_backward_is_split self input weight grad_output bias m Hd Hc HG log).
    symmetry. apply Heq.
  - intros self input weight bias Hbranch.
    apply ConvForward_dispatch_no_cat. exact Hbranch.
  - intros self input weight grad_output bias m Hbranch.
    apply ConvBackward_dispatch_no_cat. exact Hbranch.
Qed.

End GroupedClaim.

(** C3 as stated fails on the depthwise branch: a CUDA input with as many
    channels as groups (2) is convolved by one call of
    conv_depthwise2d_forward on the whole tensors; nothing is sliced and
    nothing is concatenated. *)
Lemma depthwise_forward_does_not_fan_out :
  let input := Stub.cuda_float [1; 2; 8; 8] 1 in
  let weight := Stub.cuda_float [2; 1; 3; 3] 2 in
  let run :=
    ConvForward_apply Stub.cpu_build (Stub.conv2d_params 2)
      [Some (Stub.leaf input true 0%nat); Some (Stub.leaf weight true 1%nat); None] [] in
  groups (Stub.conv2d_params 2) = 2
  /\ is_ok run.1 = true
  /\ run.2 = [CallForward
                (conv_depthwise2d_forward input weight [3; 3] None [1; 1] [1; 1] [1; 1])].
Proof. vm_compute. repeat split. Qed.

Lemma grouped_convolution_fallback_witness :
  let p := Stub.conv2d_params 2 in
  let input := Dense.ramp [1; 4; 8; 8] 1 3 in
  let weight := Dense.ramp [4; 2; 3; 3] 2 5 in
  let bias := Some (Dense.ramp [4] 1 1) in
  let grad_output := Dense.ramp [1; 4; 8; 8] 3 2 in
  let weight1 := Dense.block_diagonal weight 2 in
  let node := Dense.conv_backward_node p in
  let node1 := Dense.conv_backward_node (with_groups p 1) in
  let m := (true, true, true) in
  let grouped := ConvForward_dispatch (L:=Dense.library) Stub.cpu_build p input weight bias [] in
  let single :=
    ConvForward_dispatch (L:=Dense.library) Stub.cpu_build (with_groups p 1) input weight1 bias [] in
  let grouped_grads :=
    ConvBackward_dispatch (L:=Dense.library) Stub.cpu_build node input weight grad_output bias m [] in
  let single_grads :=
    ConvBackward_dispatch (L:=Dense.library) Stub.cpu_build node1 input weight1 grad_output bias m [] in
  grouped = split_conv_forward (L:=Dense.library) Stub.cpu_build p input weight bias []
  /\ is_ok grouped.1 = true
  /\ Dense.dn_sizes weight1 = [4; 4; 3; 3]
  /\ returned fst grouped.1 = returned fst single.1
  /\ grouped_grads = split_conv_backward (L:=Dense.library) Stub.cpu_build node input weight grad_output bias m []
  /\ is_ok grouped_grads.1 = true
  /\ returned (fun r => (r.1.1, r.2)) grouped_grads.1 =
     returned (fun r => (r.1.1, r.2)) single_grads.1.
Proof.
  intros p input weight bias grad_output weight1 node node1 m
    grouped single grouped_grads single_grads.
  destruct (grouped_convolution_fallback (L:=Dense.library) Stub.cpu_build
              (fun t d start len => eq_refl))
    as (Hfwd & Hbwd & Hfwd1 & Hbwd1 & _).
  split.
  { destruct (Hfwd p input weight bias eq_refl eq_refl) as [Hsplit _].
    apply Hsplit. reflexivity. }
  split; [vm_compute; reflexivity|].
  split; [reflexivity|].
  split.
  { apply (Hfwd1 p input weight bias input weight1 bias eq_refl eq_refl eq_refl).
    intros log. vm_compute. reflexivity. }
  split.
  { destruct (Hbwd node input weight grad_output bias m eq_refl eq_refl) as [Hsplit _].
    apply Hsplit. reflexivity. }
  split; [vm_compute; reflexivity|].
  apply (Hbwd1 _ (fun r => (r.1.1, r.2)) node input weight grad_output bias m
           node1 input weight1 grad_output bias eq_refl eq_refl eq_refl eq_refl).
  intros log. vm_compute. reflexivity.
Defined.

(** * Further properties of the sources *)

(** ** Snapshot guards: round trip and aliasing *)

Section SavedVariableMore.

Context {T S : Type}.

Implicit Types (g : SavedVariable T S) (v x : VariableImpl T S) (h : Heap).
Implicit Types (saved_for : shared_fn).

(** What a value that unpack returns is made of. *)
Lemma unpack_value g saved_for h x :
  unpack g saved_for h = inr (Some x) ->
  exists d ver,
    data g = Some d /\ version g = Some ver /\ is_modified h ver = false
    /\ v_data x = d
    /\ v_version_counter x = version_block ver
    /\ v_grad_accumulator x = grad_accumulator g
    /\ v_grad_fn x =
       (if has_grad_fn g && negb (defined (_grad_fn g)) then saved_for else _grad_fn g).
Proof.
  intros H.
  destruct (data g) as [d|] eqn:Hd;
    [|unfold unpack in H; rewrite Hd in H; destruct (defined (version g)); discriminate].
  destruct (version g) as [ver|] eqn:Hv;
    [|unfold unpack in H; rewrite Hd, Hv in H; discriminate].
  destruct (is_modified h ver) eqn:Hm;
    [rewrite (unpack_stale g saved_for h d ver Hd Hv Hm) in H; discriminate|].
  rewrite (unpack_checked g saved_for h d ver Hd Hv Hm) in H.
  exists d, ver. repeat (split; [reflexivity|]).
  destruct (has_grad_fn g && negb (defined (_grad_fn g)) && negb (defined saved_for));
    [discriminate|].
  cbv zeta in H.
  destruct (requires_grad g && _ && expired h (grad_accumulator g)); [discriminate|].
  injection H as <-.
  destruct (if has_grad_fn g && negb (defined (_grad_fn g)) then saved_for else _grad_fn g);
    simpl; auto.
Qed.

(** X1: capture followed by unpack is a round trip.  A value captured with
    is_output false, whose version is still the saved one and (for a leaf
    that requires grad) whose accumulator is alive, unpacks to a value with
    the same data, the same producing node (whatever caller node is passed),
    the same version counter and tracing state, and carrying the recorded
    accumulator; a leaf keeps its requires_grad, a produced value its output
    index.  The undefined value unpacks to the undefined value. *)
Theorem capture_unpack_round_trip :
  (forall v saved_for h h2,
     live_version h2 (v_version_counter v) = live_version h (v_version_counter v) ->
     let g := (SavedVariable_new (Some v) false h).1 in
     (is_leaf v = true -> v_requires_grad v = true ->
      expired h2 (grad_accumulator g) = false) ->
     exists x,
       unpack g saved_for h2 = inr (Some x)
       /\ v_data x = v_data v
       /\ v_grad_fn x = v_grad_fn v
       /\ v_version_counter x = v_version_counter v
       /\ v_tracing_state x = v_tracing_state v
       /\ v_grad_accumulator x = grad_accumulator g
       /\ (is_leaf v = true -> v_requires_grad x = v_requires_grad v)
       /\ (is_leaf v = false -> v_output_nr x = v_output_nr v))
  /\ (forall is_output saved_for h h2,
        unpack (SavedVariable_new (None : Var T S) is_output h).1 saved_for h2 = inr None).
Proof.
  split; [|reflexivity].
  intros v saved_for h h2 Hsame g Hacc.
  destruct (SavedVariable_new_fields v false h)
    as (Hd & Hr & Hv & Hh & Ho & Hg & Ht). fold g in Hd, Hr, Hv, Hh, Ho, Hg, Ht.
  assert (Hm : is_modified h2 (save h v) = false) by (apply save_unmodified; exact Hsame).
  rewrite (unpack_checked g saved_for h2 _ _ Hd Hv Hm), Hh, Hg, Hr, Ho, Ht.
  unfold is_leaf in *. destruct (v_grad_fn v) as [fn|] eqn:Hfn; simpl.
  - rewrite andb_false_r. simpl. eexists. split; [reflexivity|]. simpl.
    repeat split; try discriminate.
    destruct (v_tracing_state v); reflexivity.
  - simpl in Hacc.
    destruct (v_requires_grad v) eqn:Hrg; simpl.
    + rewrite (Hacc eq_refl eq_refl). eexists. split; [reflexivity|]. simpl.
      repeat split; try discriminate. destruct (v_tracing_state v); reflexivity.
    + eexists. split; [reflexivity|]. simpl.
      repeat split; try discriminate. destruct (v_tracing_state v); reflexivity.
Qed.

(** X2: the value that unpack returns shares the version counter of the
    captured value: one or more in-place mutations of the unpacked value
    make every later unpack of the guard fail with StaleVersionError.  A
    guard that is released as well reports the release, not the mutation. *)
Theorem unpacked_value_aliases_version g saved_for h x n :
  unpack g saved_for h = inr (Some x) ->
  (0 < n)%nat ->
  (forall saved_for',
     unpack g saved_for' (mutate_in_place n x h) = inl StaleVersionError)
  /\ (forall saved_for',
        unpack (data_reset g) saved_for' (mutate_in_place n x h) =
        inl ReusedAfterReleaseError).
Proof.
  intros Hu Hn.
  apply unpack_value in Hu as (d & ver & Hd & Hv & Hm & _ & Hvc & _).
  split; intros saved_for'.
  - apply (unpack_stale g saved_for' _ d ver Hd Hv).
    apply is_modified_iff. apply is_modified_false_iff in Hm.
    rewrite <- Hvc, live_version_mutate, Hvc. lia.
  - apply unpack_after_release. rewrite Hv. reflexivity.
Qed.

End SavedVariableMore.

Lemma capture_unpack_round_trip_witness :
  let v := Stub.parameter (Stub.cpu_float [2] 1) 1%nat in
  exists x,
    unpack (SavedVariable_new (Some v) false Stub.graph_heap).1 (Some 0%nat)
      Stub.graph_heap = inr (Some x)
    /\ v_data x = v_data v /\ v_grad_fn x = None.
Proof.
  intros v.
  destruct (@capture_unpack_round_trip Stub.StubTensor unit) as [Hrt _].
  destruct (Hrt v (Some 0%nat) Stub.graph_heap Stub.graph_heap eq_refl
              (fun _ _ => eq_refl)) as (x & Hx & Hd & Hg & _).
  exists x. auto.
Defined.

Lemma unpacked_value_aliases_version_witness :
  let v := Stub.parameter (Stub.cpu_float [2] 1) 1%nat in
  let g := (SavedVariable_new (Some v) false Stub.graph_heap).1 in
  exists x,
    unpack g None Stub.graph_heap = inr (Some x)
    /\ unpack g None (mutate_in_place 2 x Stub.graph_heap) = inl StaleVersionError.
Proof.
  intros v g.
  destruct (unpack g None Stub.graph_heap) as [e|[x|]] eqn:E;
    try (vm_compute in E; discriminate).
  exists x. split; [reflexivity|].
  destruct (unpacked_value_aliases_version g None Stub.graph_heap x 2 E) as [H _];
    [lia | apply H].
Defined.

(** ** Convolution parameters *)

Lemma any_entry_existsb test (v : list Z) : any_entry test v = existsb test v.
Proof.
  unfold any_entry.
  assert (H : forall b, fold_left (fun flag s => flag || test s) v b = b || existsb test v).
  { induction v as [|x v IH]; intros b; simpl.
    - rewrite orb_false_r. reflexivity.
    - rewrite IH, orb_assoc. reflexivity. }
  apply H.
Qed.

Lemma any_entry_true test (v : list Z) :
  any_entry test v = true <-> exists x, In x v /\ test x = true.
Proof. rewrite any_entry_existsb. apply existsb_exists. Qed.

Lemma fold_left_seq_shift (F : nat -> bool) a n b :
  fold_left (fun flag i => flag || F i) (seq (S a) n) b =
  fold_left (fun flag i => flag || F (S i)) (seq a n) b.
Proof.
  revert a b. induction n as [|n IH]; intros a b; simpl; [reflexivity|].
  apply IH.
Qed.

Lemma is_output_padding_big_cons p q :
  stride q = 1 :: stride p -> dilation q = 1 :: dilation p ->
  output_padding q = 0 :: output_padding p ->
  is_output_padding_big q = is_output_padding_big p.
Proof.
  intros Hs Hd Ho. unfold is_output_padding_big. rewrite Hs, Hd, Ho.
  cbn [length seq fold_left nth]. simpl (false || _).
  rewrite fold_left_seq_shift. reflexivity.
Qed.

Section ConvParamsMore.

Context {L : NumericLibrary} (cfg : BuildConfig).

(** X3: lifting one-dimensional parameters to two dimensions is idempotent
    and changes none of the tests made on the parameters (strided, dilated,
    padded, negative padding, negative or too big output padding), hence
    none of the choices between the depthwise, cuDNN, NNPACK and fallback
    kernels, for any input. *)
Theorem view1d_as_2d_preserves_tests p :
  view1d_as_2d (view1d_as_2d p) = view1d_as_2d p
  /\ is_strided (view1d_as_2d p) = is_strided p
  /\ is_dilated (view1d_as_2d p) = is_dilated p
  /\ is_padded (view1d_as_2d p) = is_padded p
  /\ is_padding_neg (view1d_as_2d p) = is_padding_neg p
  /\ is_output_padding_neg (view1d_as_2d p) = is_output_padding_neg p
  /\ is_output_padding_big (view1d_as_2d p) = is_output_padding_big p
  /\ (forall input : TensorImpl,
        use_cudnn cfg (view1d_as_2d p) input = use_cudnn cfg p input
        /\ use_nnpack cfg (view1d_as_2d p) input = use_nnpack cfg p input
        /\ forall weight g,
             is_depthwise (view1d_as_2d p) input weight g = is_depthwise p input weight g).
Proof.
  assert (Hbig : is_output_padding_big (view1d_as_2d p) = is_output_padding_big p).
  { unfold view1d_as_2d. destruct (Nat.eqb _ 1); [|reflexivity].
    apply is_output_padding_big_cons; reflexivity. }
  assert (Hdil : is_dilated (view1d_as_2d p) = is_dilated p).
  { unfold view1d_as_2d. destruct (Nat.eqb _ 1); reflexivity. }
  assert (Hstr : is_strided (view1d_as_2d p) = is_strided p).
  { unfold view1d_as_2d. destruct (Nat.eqb _ 1); reflexivity. }
  split.
  { unfold view1d_as_2d at 1. destruct (Nat.eqb (length (stride (view1d_as_2d p))) 1) eqn:E;
      [|reflexivity].
    unfold view1d_as_2d in E. destruct (Nat.eqb (length (stride p)) 1) eqn:E1.
    - apply Nat.eqb_eq in E1. simpl in E. rewrite E1 in E. discriminate.
    - rewrite E in E1. discriminate. }
  repeat (split; [first [exact Hbig | exact Hdil | exact Hstr
                        | unfold view1d_as_2d; destruct (Nat.eqb _ 1); reflexivity]|]).
  intros input. split; [|split].
  - unfold use_cudnn. rewrite Hbig, Hdil.
    unfold view1d_as_2d. destruct (Nat.eqb _ 1); reflexivity.
  - unfold use_nnpack. rewrite Hstr, Hdil.
    unfold view1d_as_2d. destruct (Nat.eqb _ 1); reflexivity.
  - intros weight g. unfold is_depthwise, view1d_as_2d.
    destruct (Nat.eqb _ 1); reflexivity.
Qed.

(** X4: a negative entry in the padding makes the forward and the backward
    of a convolution fail with the runtime error "negative padding is not
    supported", once the arity check has passed, before any guard is
    unpacked and without any call into the library: whatever the inputs,
    the state of the guards and the heap. *)
Theorem negative_padding_rejected p :
  (exists x, In x (padding p) /\ x < 0) ->
  (forall inputs log,
     (check_input_variables "ConvNd" inputs 3 2 log).1 = inr tt ->
     ConvForward_apply cfg p inputs log =
     (inl (runtime_error "negative padding is not supported"), log))
  /\ (forall self grad_outputs h log,
        cb_params self = p ->
        (check_input_variables "ConvNdBackward" grad_outputs 1 1 log).1 = inr tt ->
        ConvBackward_apply cfg self grad_outputs h log =
        (inl (runtime_error "negative padding is not supported"), log)).
Proof.
  intros (x & Hin & Hx).
  assert (Hneg : is_padding_neg p = true).
  { apply any_entry_true. exists x. split; [exact Hin|]. apply Z.ltb_lt. exact Hx. }
  split.
  - intros inputs log Hc. unfold ConvForward_apply.
    pose proof (check_input_variables_log "ConvNd" inputs 3 2 log) as Hl.
    destruct (check_input_variables "ConvNd" inputs 3 2 log) as [rc l] eqn:E.
    simpl in Hc, Hl. subst rc l.
    rewrite (lbind_ok _ _ _ _ _ E), Hneg. reflexivity.
  - intros self grad_outputs h log Hp Hc. unfold ConvBackward_apply.
    pose proof (check_input_variables_log "ConvNdBackward" grad_outputs 1 1 log) as Hl.
    destruct (check_input_variables "ConvNdBackward" grad_outputs 1 1 log) as [rc l] eqn:E.
    simpl in Hc, Hl. subst rc l.
    rewrite (lbind_ok _ _ _ _ _ E), Hp, Hneg. reflexivity.
Qed.

End ConvParamsMore.

Lemma negative_padding_rejected_witness :
  let q :=
    {| stride := [1; 1]; padding := [1; -1]; dilation := [1; 1];
       transposed := false; output_padding := [0; 0]; groups := 1;
       benchmark := false; deterministic := false; cudnn_enabled := true |} in
  ConvForward_apply Stub.cpu_build q
    [Some (Stub.leaf (Stub.cpu_float [1; 4; 8; 8] 1) false 0%nat);
     Some (Stub.parameter (Stub.cpu_float [4; 4; 3; 3] 2) 1%nat);
     None] [] =
  (inl (runtime_error "negative padding is not supported"), []).
Proof.
  intros q.
  apply (negative_padding_rejected (L := Stub.library) Stub.cpu_build q).
  - exists (-1). split; [simpl; auto | lia].
  - reflexivity.
Defined.

(** ** The choice of kernels *)

Section KernelChoice.

Context {L : NumericLibrary} (cfg : BuildConfig).

Ltac fallback_walk :=
  repeat first
    [ apply appends_lret
    | apply appends_lthrow
    | apply appends_deref
    | apply appends_lbind; [|intros ?]
    | apply appends_invoke; reflexivity
    | match goal with
      | |- appends _ (if ?b then _ else _) => destruct b eqn:?
      | |- appends _ (match ?x with _ => _ end) => destruct x eqn:?
      end ].

Lemma compute_output_fallback (i w b c o : Tensor TensorImpl) p :
  appends (fun call => is_fallback_call call = true) (compute_output cfg i w b c o p).
Proof. unfold compute_output, call_forward. fallback_walk. Qed.

Lemma compute_backward_fallback (i go w c o : Tensor TensorImpl) p m :
  appends (fun call => is_fallback_call call = true)
    (compute_backward cfg i go w c o p m).
Proof.
  unfold compute_backward, compute_grad_bias, call_backward, call_gradient.
  fallback_walk.
Qed.

Lemma cat_fallback (ts : list (Tensor TensorImpl)) dim :
  appends (fun call => is_fallback_call call = true) (cat ts dim).
Proof. apply cat_appends. reflexivity. Qed.

Lemma not_cuda_choice p (input weight : TensorImpl) g :
  isCuda (type input) = false ->
  is_depthwise p input weight g = false /\ use_cudnn cfg p input = false.
Proof.
  intros H. unfold is_depthwise, use_cudnn. rewrite H. simpl.
  destruct (WITH_CUDNN cfg); auto.
Qed.

(** X5: an input that is not a CUDA tensor is convolved on the fallback
    path, in the forward and in the backward: the library is never asked
    for a cuDNN or a depthwise kernel, whatever the parameters, the build
    and the number of groups. *)
Theorem cpu_input_takes_fallback p (input weight : TensorImpl)
    (bias : Tensor TensorImpl) :
  isCuda (type input) = false ->
  appends (fun call => is_fallback_call call = true)
    (ConvForward_dispatch cfg p input weight bias)
  /\ (forall self grad_output m,
        appends (fun call => is_fallback_call call = true)
          (ConvBackward_dispatch cfg self input weight grad_output bias m)).
Proof.
  intros Hcpu. split.
  - unfold ConvForward_dispatch.
    destruct (Z.ltb (groups p) 0); [apply appends_lthrow|].
    destruct (not_cuda_choice p input weight (groups p) Hcpu) as [-> ->].
    destruct (Z.eqb (groups p) 1).
    + apply appends_lbind; [apply compute_output_fallback|].
      intros o. apply appends_lret.
    + apply appends_lbind.
      * apply appends_for_each. intros g.
        apply appends_lbind; [apply compute_output_fallback|].
        intros o. apply appends_lret.
      * intros outs. apply appends_lbind; [apply cat_fallback|].
        intros o. apply appends_lret.
  - intros self grad_output m. unfold ConvBackward_dispatch.
    destruct (not_cuda_choice (cb_params self) input weight
                (groups (cb_params self)) Hcpu) as [-> ->].
    destruct (Z.eqb (groups (cb_params self)) 1);
      [apply compute_backward_fallback|].
    destruct (Z.ltb (groups (cb_params self)) 0); [apply appends_lthrow|].
    apply appends_lbind.
    + apply appends_for_each. intros g. apply compute_backward_fallback.
    + intros grads.
      repeat (apply appends_lbind;
              [destruct (mask_bit m _); [apply cat_fallback | apply appends_lret]
              |intros ?]).
      apply appends_lret.
Qed.

(** X6: the fallback path only has kernels for inputs with four or five
    dimensions, and apply views an input with three as one with four.  For
    a single-group convolution whose input is not a CUDA tensor and has
    another number of dimensions, ConvForward::apply fails, once the checks
    of the arguments, the padding and the shapes have passed, with the
    runtime error "unsupported ConvNd parameters", and ConvBackward::apply
    fails, once the guards are unpacked, with "unsupported ConvNdBackward
    parameters"; in both cases the library is not called. *)
Theorem unsupported_dimension_rejected p :
  groups p = 1 ->
  is_padding_neg p = false -> is_output_padding_neg p = false ->
  (forall (inputs : list (Var TensorImpl ValueTracingState)) iv wv log,
     (check_input_variables "ConvNd" inputs 3 2 log).1 = inr tt ->
     inputs !! 0%nat = Some (Some iv) -> inputs !! 1%nat = Some (Some wv) ->
     let input := contiguous (v_data iv) in
     check_input_shape_forward input (v_data wv) (opt_data (inputs !! 2%nat))
       (groups p) (transposed p) log = (inr tt, log) ->
     isCuda (type input) = false ->
     ndimension input <> 3 -> ndimension input <> 4 -> ndimension input <> 5 ->
     ConvForward_apply cfg p inputs log =
     (inl (runtime_error "unsupported ConvNd parameters"), log))
  /\ (forall (self : ConvBackward)
             (grad_outputs : list (Var TensorImpl ValueTracingState))
             h iv wv bv gv log,
        cb_params self = p ->
        (check_input_variables "ConvNdBackward" grad_outputs 1 1 log).1 = inr tt ->
        unpack (input_ self) None h = inr (Some iv) ->
        unpack (weight_ self) None h = inr (Some wv) ->
        unpack (bias_ self) None h = inr bv ->
        grad_outputs !! 0%nat = Some (Some gv) ->
        let input := contiguous (v_data iv) in
        isCuda (type input) = false ->
        ndimension input <> 3 -> ndimension input <> 4 -> ndimension input <> 5 ->
        ConvBackward_apply cfg self grad_outputs h log =
        (inl (runtime_error "unsupported ConvNdBackward parameters"), log)).
Proof.
  intros Hg Hp Hop. split.
  - intros inputs iv wv log Hc Hi Hw input Hs Hcpu H3 H4 H5.
    apply Z.eqb_neq in H3. apply Z.eqb_neq in H4. apply Z.eqb_neq in H5.
    unfold ConvForward_apply.
    pose proof (check_input_variables_log "ConvNd" inputs 3 2 log) as Hl.
    destruct (check_input_variables "ConvNd" inputs 3 2 log) as [rc l] eqn:E.
    simpl in Hc, Hl. subst rc l.
    rewrite (lbind_ok _ _ _ _ _ E), Hp, Hop.
    unfold Var, Tensor in *. rewrite Hi, Hw. simpl opt_data.
    unfold deref at 1 2. unfold lbind at 1 2. unfold lret at 1 2.
    fold input. rewrite (lbind_ok _ _ _ _ _ Hs), H3.
    unfold lbind at 1. unfold lret at 1.
    unfold lbind at 1. unfold ConvForward_dispatch.
    destruct (not_cuda_choice p input (v_data wv) (groups p) Hcpu) as [-> ->].
    rewrite Hg. simpl.
    unfold lbind at 1. unfold compute_output. simpl.
    unfold lbind, deref, lret. rewrite H4, H5. simpl.
    destruct (transposed p); reflexivity.
  - intros self grad_outputs h iv wv bv gv log Hparams Hc Hi Hw Hb Hgo input
      Hcpu H3 H4 H5.
    apply Z.eqb_neq in H3. apply Z.eqb_neq in H4. apply Z.eqb_neq in H5.
    unfold ConvBackward_apply.
    pose proof (check_input_variables_log "ConvNdBackward" grad_outputs 1 1 log) as Hl.
    destruct (check_input_variables "ConvNdBackward" grad_outputs 1 1 log)
      as [rc l] eqn:E.
    simpl in Hc, Hl. subst rc l.
    rewrite (lbind_ok _ _ _ _ _ E), Hparams, Hp, Hop.
    unfold lift. unfold Var, Tensor in *. rewrite Hi, Hw, Hb, Hgo. simpl default.
    unfold var_data, deref. unfold lbind, lret. fold input. rewrite H3.
    unfold ConvBackward_dispatch. rewrite Hparams.
    destruct (not_cuda_choice p input (v_data wv) (groups p) Hcpu) as [-> ->].
    rewrite Hg. simpl.
    unfold compute_backward. simpl.
    unfold lbind, deref, lret. rewrite H4, H5. simpl.
    destruct (transposed p); reflexivity.
Qed.

(** X7: the slices of a grouped convolution stay inside the tensors they
    are cut from.  Once check_input_shape_forward has accepted the shapes
    of a convolution that is not transposed, with one or more groups, the
    slice of the input for group g is the range of weight.size(1) channels
    that starts at g * weight.size(1), so the slices are adjacent and cover
    every channel of the input; the slice of the weight has one row or
    more and ends at or before the last row. *)
Theorem group_slices_in_bounds (input weight : TensorImpl) (bias : Tensor TensorImpl)
    G log log' :
  check_input_shape_forward input weight bias G false log = (inr tt, log') ->
  0 < G ->
  size input 1 = size weight 1 * G
  /\ forall g, 0 <= g < G ->
       subtensor (Some input) 1 G g =
       Some (contiguous (narrow input 1 (size weight 1 * g) (size weight 1)))
       /\ exists start len,
            subtensor (Some weight) 0 G g =
            Some (contiguous (narrow weight 0 start len))
            /\ 1 <= len /\ 0 <= start /\ start + len <= size weight 0
            /\ start = len * g.
Proof.
  intros Hc HG. unfold check_input_shape_forward in Hc.
  destruct (negb (Z.eqb (ndimension weight) (ndimension input))); [discriminate|].
  apply lbind_inr in Hc as (w0 & l1 & Hw0 & Hc).
  apply size_at_inr in Hw0 as (_ & Hw0 & ->).
  destruct (Z.ltb_spec w0 G) as [|Hw]; [discriminate|].
  simpl in Hc.
  apply lbind_inr in Hc as (i1 & l2 & Hi1 & Hc).
  apply size_at_inr in Hi1 as (_ & Hi1 & ->).
  apply lbind_inr in Hc as (w1 & l3 & Hw1 & Hc).
  apply size_at_inr in Hw1 as (_ & Hw1 & ->).
  destruct (Z.eqb_spec i1 (w1 * G)) as [Hi|]; [|discriminate].
  clear Hc. subst w0 i1 w1. split; [exact Hi|]. intros g Hg. split.
  - unfold subtensor. rewrite Hi, Z.quot_mul by lia. reflexivity.
  - exists (Z.quot (size weight 0) G * g), (Z.quot (size weight 0) G).
    split; [reflexivity|].
    rewrite Z.quot_div_nonneg by lia.
    assert (1 <= size weight 0 / G) by (apply Z.div_le_lower_bound; lia).
    assert (G * (size weight 0 / G) <= size weight 0) by (apply Z.mul_div_le; lia).
    repeat split; nia.
Qed.

End KernelChoice.

Lemma cpu_input_takes_fallback_witness :
  (ConvForward_dispatch Stub.cpu_build (Stub.conv2d_params 2)
     (Stub.cpu_float [1; 4; 8; 8] 1) (Stub.cpu_float [4; 2; 3; 3] 2) None []).2 <> [].
Proof.
  destruct (cpu_input_takes_fallback (L := Stub.library) Stub.cpu_build
              (Stub.conv2d_params 2) (Stub.cpu_float [1; 4; 8; 8] 1)
              (Stub.cpu_float [4; 2; 3; 3] 2) None eq_refl) as [H _].
  destruct (H []) as (new & E & F). rewrite E.
  vm_compute in E. destruct new; discriminate.
Defined.

Lemma unsupported_dimension_rejected_witness :
  ConvForward_apply Stub.cpu_build (Stub.conv2d_params 1)
    [Some (Stub.leaf (Stub.cpu_float [4; 8] 1) false 0%nat);
     Some (Stub.parameter (Stub.cpu_float [4; 8] 2) 1%nat);
     None] [] =
  (inl (runtime_error "unsupported ConvNd parameters"), []).
Proof.
  destruct (unsupported_dimension_rejected (L := Stub.library) Stub.cpu_build
              (Stub.conv2d_params 1) eq_refl eq_refl eq_refl) as [H _].
  apply (H _ (Stub.leaf (Stub.cpu_float [4; 8] 1) false 0%nat)
           (Stub.parameter (Stub.cpu_float [4; 8] 2) 1%nat));
    try reflexivity; vm_compute; discriminate.
Defined.

Lemma group_slices_in_bounds_witness :
  size (L := Stub.library) (Stub.cpu_float [1; 4; 8; 8] 1) 1 =
  size (L := Stub.library) (Stub.cpu_float [4; 2; 3; 3] 2) 1 * 2.
Proof.
  destruct (group_slices_in_bounds (L := Stub.library)
              (Stub.cpu_float [1; 4; 8; 8] 1) (Stub.cpu_float [4; 2; 3; 3] 2)
              None 2 [] []) as [H _]; [reflexivity | lia | exact H].
Defined.

(** ** The staged interpreter: the node, the heap and the outputs *)

Section StageMore.

Context {L : NumericLibrary} {I : Interpreter L}.

Implicit Types (self : InterpreterAutogradFunction) (h : Heap).
Implicit Types (inputs : list (Var TensorImpl ValueTracingState)).

Lemma set_used_same self : set_used self (used_ self) = self.
Proof. destruct self; reflexivity. Qed.

(** X8: a node that keeps its graph is left exactly as it was by apply,
    whether apply returns or throws: the stage runs on a clone of the
    interpreter state and the node is not marked as used.  Applying it
    again to the same inputs in the same heap therefore gives the same
    outcome. *)
Theorem keep_graph_node_unchanged self inputs h :
  keep_graph_ self = true ->
  (InterpreterAutogradFunction_apply self inputs h).1.1 = self
  /\ InterpreterAutogradFunction_apply
       (InterpreterAutogradFunction_apply self inputs h).1.1 inputs h =
     InterpreterAutogradFunction_apply self inputs h.
Proof.
  intros Hk.
  assert (H : (InterpreterAutogradFunction_apply self inputs h).1.1 = self).
  { unfold InterpreterAutogradFunction_apply. rewrite Hk. simpl.
    rewrite orb_false_r, set_used_same.
    destruct (Nat.eqb _ _); [reflexivity|].
    destruct (used_ self); [reflexivity|].
    destruct (stage_details_ self !! stage_ self) as [details|]; [|reflexivity].
    destruct (negb (Z.eqb _ _)); [reflexivity|].
    destruct (negb (Nat.eqb _ _)); [reflexivity|].
    destruct (validate_inputs _ _ _ _) as [e|tinputs]; [reflexivity|].
    destruct (runOneStage _ tinputs) as [interp [e|toutputs]]; [reflexivity|].
    destruct (negb (Nat.eqb _ _)); [reflexivity|].
    destruct (wrap_stage_outputs _ _ _ _ _ _ _ _) as [[res gf] h']. reflexivity. }
  split; [exact H|]. rewrite H. reflexivity.
Qed.

Lemma keeps_versions_refl h : keeps_versions h h.
Proof. split; auto. Qed.

Lemma keeps_versions_trans h1 h2 h3 :
  keeps_versions h1 h2 -> keeps_versions h2 h3 -> keeps_versions h1 h3.
Proof.
  intros [L1 B1] [L2 B2]. split; [lia|].
  intros b Hb. rewrite B2 by lia. apply B1. exact Hb.
Qed.

Lemma keeps_versions_same h h' :
  version_blocks h' = version_blocks h -> next_block h' = next_block h ->
  keeps_versions h h'.
Proof. intros Hv Hn. split; [lia|]. intros b _. rewrite Hv. reflexivity. Qed.

Lemma Variable_grad_accumulator_keeps (v : VariableImpl TensorImpl ValueTracingState) h :
  keeps_versions h (Variable_grad_accumulator v h).2.
Proof.
  unfold Variable_grad_accumulator.
  destruct (v_requires_grad v); [|apply keeps_versions_refl].
  destruct (expired h (v_grad_accumulator v)); [|apply keeps_versions_refl].
  apply keeps_versions_same; reflexivity.
Qed.

Lemma input_edges_keeps inputs details :
  forall i h, keeps_versions h (input_edges inputs details i h).2.
Proof.
  induction inputs as [|input inputs IH]; intros i h; simpl.
  - apply keeps_versions_refl.
  - destruct (negb (default false (used_inputs details !! i))); [apply IH|].
    destruct (negb (default false (vf_requires_grad <$> input_flags details !! i)));
      [apply IH|].
    destruct input as [impl|].
    + destruct (v_requires_grad impl).
      * destruct (v_grad_fn impl) as [g|].
        -- specialize (IH (S i) h).
           destruct (input_edges inputs details (S i) h) as [es h2]. exact IH.
        -- pose proof (Variable_grad_accumulator_keeps impl h) as Hacc.
           destruct (Variable_grad_accumulator impl h) as [fn h1].
           specialize (IH (S i) h1).
           destruct (input_edges inputs details (S i) h1) as [es h2].
           simpl in *. eapply keeps_versions_trans; eauto.
      * specialize (IH (S i) h).
        destruct (input_edges inputs details (S i) h) as [es h2]. exact IH.
    + specialize (IH (S i) h).
      destruct (input_edges inputs details (S i) h) as [es h2]. exact IH.
Qed.

Lemma make_grad_fn_keeps self interp inputs details h :
  keeps_versions h (make_grad_fn self interp inputs details h).2.
Proof.
  unfold make_grad_fn. destruct (Nat.eqb _ _); [apply keeps_versions_refl|].
  pose proof (input_edges_keeps inputs details 0 h) as H.
  destruct (input_edges inputs details 0 h) as [edges h']. exact H.
Qed.

Lemma new_version_block_keeps h : keeps_versions h (new_version_block h).2.
Proof.
  split; simpl; [lia|]. intros b Hb. apply lookup_insert_ne. lia.
Qed.

Lemma make_variable_of_keeps (t : Tensor TensorImpl) id
    (node : InterpreterAutogradFunction) h :
  keeps_versions h (make_variable_of t id node h).2.
Proof.
  unfold make_variable_of. destruct t as [d|]; [|apply keeps_versions_refl].
  apply new_version_block_keeps.
Qed.

Lemma make_variable_plain_keeps (t : Tensor TensorImpl) rg h :
  keeps_versions h (make_variable_plain t rg h).2.
Proof.
  unfold make_variable_plain. destruct t as [d|]; [|apply keeps_versions_refl].
  apply new_version_block_keeps.
Qed.

Lemma wrap_stage_outputs_keeps self interp inputs details toutputs :
  forall flags grad_fn h,
    keeps_versions h
      (wrap_stage_outputs self interp inputs details toutputs flags grad_fn h).2.
Proof.
  induction toutputs as [|t toutputs IH]; intros flags grad_fn h.
  - apply keeps_versions_refl.
  - destruct flags as [|fl flags]; [apply keeps_versions_refl|].
    cbn [wrap_stage_outputs].
    destruct (vf_requires_grad fl).
    + set (made :=
             match grad_fn with
             | Some (id0, node) => (id0, node, h)
             | None =>
                 let '(node, h0) := make_grad_fn self interp inputs details h in
                 let '(id0, h1) := new_function h0 (iaf_function node) in
                 (id0, node, h1)
             end).
      assert (Hmade : keeps_versions h made.2).
      { subst made. destruct grad_fn as [[id0 node]|]; [apply keeps_versions_refl|].
        pose proof (make_grad_fn_keeps self interp inputs details h) as Hg.
        destruct (make_grad_fn self interp inputs details h) as [node h0].
        simpl in *. eapply keeps_versions_trans; [exact Hg|].
        apply keeps_versions_same; reflexivity. }
      destruct made as [[id0 node] h1]. simpl in Hmade.
      pose proof (make_variable_of_keeps t id0 node h1) as Hv.
      destruct (make_variable_of t id0 node h1) as [[v node'] h2]. simpl in Hv.
      specialize (IH flags (Some (id0, node'))
                    (set_functions h2 (<[id0:=iaf_function node']> (functions h2)))).
      destruct (wrap_stage_outputs self interp inputs details toutputs flags
                  (Some (id0, node')) _) as [[vs g] h4].
      simpl in *.
      eapply keeps_versions_trans; [exact Hmade|].
      eapply keeps_versions_trans; [exact Hv|].
      eapply keeps_versions_trans; [|exact IH].
      apply keeps_versions_same; reflexivity.
    + pose proof (make_variable_plain_keeps t false h) as Hv.
      destruct (make_variable_plain t false h) as [v h1].
      specialize (IH flags grad_fn h1).
      destruct (wrap_stage_outputs self interp inputs details toutputs flags grad_fn h1)
        as [[vs g] h2]. simpl in *.
      eapply keeps_versions_trans; eauto.
Qed.

Lemma apply_keeps self inputs h :
  keeps_versions h (InterpreterAutogradFunction_apply self inputs h).1.2
  /\ (is_ok (InterpreterAutogradFunction_apply self inputs h).2 = false ->
      (InterpreterAutogradFunction_apply self inputs h).1.2 = h).
Proof.
  unfold InterpreterAutogradFunction_apply.
  destruct (Nat.eqb _ _); [split; [apply keeps_versions_refl | reflexivity]|].
  destruct (used_ self); [split; [apply keeps_versions_refl | reflexivity]|].
  destruct (stage_details_ self !! stage_ self) as [details|];
    [|split; [apply keeps_versions_refl | reflexivity]].
  destruct (negb (Z.eqb _ _)); [split; [apply keeps_versions_refl | reflexivity]|].
  destruct (negb (Nat.eqb _ _)); [split; [apply keeps_versions_refl | reflexivity]|].
  destruct (validate_inputs _ _ _ _) as [e|tinputs];
    [split; [apply keeps_versions_refl | reflexivity]|].
  destruct (runOneStage _ tinputs) as [interp [e|toutputs]];
    [split; [apply keeps_versions_refl | reflexivity]|].
  destruct (negb (Nat.eqb _ _)); [split; [apply keeps_versions_refl | reflexivity]|].
  match goal with
  | |- context [wrap_stage_outputs ?a ?b ?c ?d ?e ?f ?g ?h0] =>
      pose proof (wrap_stage_outputs_keeps a b c d e f g h0) as Hw;
      destruct (wrap_stage_outputs a b c d e f g h0) as [[res gf] h']
  end.
  simpl in *. split; [exact Hw | discriminate].
Qed.

(** X9: running a stage never invalidates a snapshot guard.  A guard on a
    version block that exists when apply is called is modified after the
    call exactly when it was before: apply bumps no version, it only adds
    the version blocks of the outputs it wraps.  An apply that throws
    leaves the heap as it was. *)
Theorem apply_keeps_guards_valid self inputs h ver :
  (version_block ver < next_block h)%nat ->
  is_modified (InterpreterAutogradFunction_apply self inputs h).1.2 ver =
  is_modified h ver
  /\ (is_ok (InterpreterAutogradFunction_apply self inputs h).2 = false ->
      (InterpreterAutogradFunction_apply self inputs h).1.2 = h).
Proof.
  intros Hb. destruct (apply_keeps self inputs h) as [[_ Hkeep] Herr].
  split; [|exact Herr].
  unfold is_modified, live_version. do 3 f_equal. apply Hkeep, Hb.
Qed.

End StageMore.

Lemma keep_graph_node_unchanged_witness :
  let x := Stub.leaf (Stub.cpu_float [2] 1) true 0%nat in
  (InterpreterAutogradFunction_apply (Stub.stage_node 0 true) [Some x]
     Stub.graph_heap).1.1 = Stub.stage_node 0 true.
Proof.
  intros x.
  apply (keep_graph_node_unchanged (Stub.stage_node 0 true) [Some x] Stub.graph_heap).
  reflexivity.
Defined.

Lemma apply_keeps_guards_valid_witness :
  let x := Stub.leaf (Stub.cpu_float [2] 1) true 0%nat in
  let ver := save Stub.graph_heap x in
  is_modified
    (InterpreterAutogradFunction_apply (Stub.stage_node 0 false) [Some x]
       Stub.graph_heap).1.2 ver = false.
Proof.
  intros x ver.
  destruct (apply_keeps_guards_valid (Stub.stage_node 0 false) [Some x]
              Stub.graph_heap ver) as [H _]; [simpl; lia|].
  rewrite H. reflexivity.
Defined.

Section StageOutputs.

Context {L : NumericLibrary} {I : Interpreter L}.

Implicit Types (self : InterpreterAutogradFunction) (h : Heap).
Implicit Types (inputs : list (Var TensorImpl ValueTracingState)).

(** A successful apply returns what wrapping the outputs of the stage gives. *)
Lemma apply_ok_wrapped self inputs h self' h' res :
  InterpreterAutogradFunction_apply self inputs h = (self', h', inr res) ->
  exists details tinputs interp toutputs,
    stage_details_ self !! stage_ self = Some details
    /\ runOneStage (if keep_graph_ self then clone (interp_ self) else interp_ self)
         tinputs = (interp, inr toutputs)
    /\ length toutputs = length (output_flags details)
    /\ wrap_stage_outputs self' interp inputs details toutputs
         (output_flags details) None h = (outputs res, next_stage res, h').
Proof.
  unfold InterpreterAutogradFunction_apply.
  destruct (Nat.eqb _ _); [discriminate|].
  destruct (used_ self); [discriminate|].
  destruct (stage_details_ self !! stage_ self) as [details|]; [|discriminate].
  destruct (negb (Z.eqb _ _)); [discriminate|].
  destruct (negb (Nat.eqb _ _)); [discriminate|].
  destruct (validate_inputs _ _ _ _) as [e|tinputs]; [discriminate|].
  destruct (runOneStage _ tinputs) as [interp [e|toutputs]] eqn:Hr; [discriminate|].
  destruct (Nat.eqb_spec (length toutputs) (length (output_flags details))) as [Hl|];
    [|discriminate].
  simpl.
  destruct (wrap_stage_outputs _ _ _ _ _ _ _ _) as [[vs g] h4] eqn:Hw.
  intros [= <- <- <-]. exists details, tinputs, interp, toutputs.
  repeat split; auto.
Qed.

(** Once the node of the next stage exists, it keeps its identity. *)
Lemma wrap_stage_outputs_id self interp inputs details toutputs :
  forall flags id node h,
    exists node',
      (wrap_stage_outputs self interp inputs details toutputs flags
         (Some (id, node)) h).1.2 = Some (id, node').
Proof.
  induction toutputs as [|t toutputs IH]; intros flags id node h.
  - simpl. eauto.
  - destruct flags as [|fl flags]; [simpl; eauto|].
    cbn [wrap_stage_outputs].
    destruct (vf_requires_grad fl).
    + destruct (make_variable_of t id node h) as [[v node'] h2].
      destruct (IH flags id node'
                  (set_functions h2 (<[id:=iaf_function node']> (functions h2))))
        as [n Hn].
      destruct (wrap_stage_outputs self interp inputs details toutputs flags
                  (Some (id, node')) _) as [[vs g] h4]. simpl in *. eauto.
    + destruct (make_variable_plain t false h) as [v h1].
      destruct (IH flags id node h1) as [n Hn].
      destruct (wrap_stage_outputs self interp inputs details toutputs flags
                  (Some (id, node)) h1) as [[vs g] h2]. simpl in *. eauto.
Qed.

(** No node is made when no output requires grad. *)
Lemma wrap_stage_outputs_no_node self interp inputs details toutputs :
  forall flags h,
    existsb vf_requires_grad flags = false ->
    (wrap_stage_outputs self interp inputs details toutputs flags None h).1.2 = None.
Proof.
  induction toutputs as [|t toutputs IH]; intros flags h Hf.
  - reflexivity.
  - destruct flags as [|fl flags]; [reflexivity|].
    cbn [wrap_stage_outputs]. simpl in Hf. apply orb_false_iff in Hf as [Hfl Hf].
    rewrite Hfl. destruct (make_variable_plain t false h) as [v h1].
    specialize (IH flags h1 Hf).
    destruct (wrap_stage_outputs self interp inputs details toutputs flags None h1)
      as [[vs g] h2]. exact IH.
Qed.

Lemma wrap_stage_outputs_spec self interp inputs details toutputs :
  forall flags grad_fn h,
    length toutputs = length flags ->
    let r := wrap_stage_outputs self interp inputs details toutputs flags grad_fn h in
    length r.1.1 = length flags
    /\ forall i fl t v,
         flags !! i = Some fl -> toutputs !! i = Some t -> r.1.1 !! i = Some v ->
         match v with
         | None => t = None
         | Some impl =>
             t = Some (v_data impl)
             /\ if vf_requires_grad fl
                then exists id gf, r.1.2 = Some (id, gf) /\ v_grad_fn impl = Some id
                else v_grad_fn impl = None /\ v_requires_grad impl = false
         end.
Proof.
  induction toutputs as [|t0 toutputs IH]; intros flags grad_fn h Hlen.
  - destruct flags; [|discriminate]. simpl. split; [reflexivity|].
    intros i fl t v Hi. rewrite lookup_nil in Hi. discriminate.
  - destruct flags as [|fl0 flags]; [discriminate|].
    injection Hlen as Hlen. cbn [wrap_stage_outputs].
    destruct (vf_requires_grad fl0) eqn:Hfl.
    + destruct (match grad_fn with
                | Some (id0, node) => (id0, node, h)
                | None => _
                end) as [[id0 node] h1].
      destruct (make_variable_of t0 id0 node h1) as [[v0 node'] h2] eqn:Hmk.
      pose proof (wrap_stage_outputs_id self interp inputs details toutputs flags
                    id0 node'
                    (set_functions h2 (<[id0:=iaf_function node']> (functions h2))))
        as [nf Hnf].
      specialize (IH flags (Some (id0, node'))
                    (set_functions h2 (<[id0:=iaf_function node']> (functions h2)))
                    Hlen).
      destruct (wrap_stage_outputs self interp inputs details toutputs flags
                  (Some (id0, node')) _) as [[vs g] h4].
      simpl in *. destruct IH as [IHl IH]. split; [congruence|].
      intros [|i] fl t v Hi Ht Hv; simpl in Hi, Ht, Hv.
      * injection Hi as <-. injection Ht as <-. injection Hv as <-.
        unfold make_variable_of in Hmk. destruct t0 as [d|].
        -- destruct (new_version_block h1) as [vc hb].
           injection Hmk as <- _ _. simpl. rewrite Hfl. split; [reflexivity|].
           exists id0, nf. auto.
        -- injection Hmk as <- _ _. reflexivity.
      * apply (IH i fl t v Hi Ht Hv).
    + destruct (make_variable_plain t0 false h) as [v0 h1] eqn:Hmk.
      specialize (IH flags grad_fn h1 Hlen).
      destruct (wrap_stage_outputs self interp inputs details toutputs flags grad_fn h1)
        as [[vs g] h2].
      simpl in *. destruct IH as [IHl IH]. split; [congruence|].
      intros [|i] fl t v Hi Ht Hv; simpl in Hi, Ht, Hv.
      * injection Hi as <-. injection Ht as <-. injection Hv as <-.
        unfold make_variable_plain in Hmk. destruct t0 as [d|].
        -- destruct (new_version_block h) as [vc hb].
           injection Hmk as <- _. simpl. rewrite Hfl. auto.
        -- injection Hmk as <- _. reflexivity.
      * apply (IH i fl t v Hi Ht Hv).
Qed.

(** X10: what a successful apply returns.  There is one output per output
    flag of the stage; an undefined interpreter output stays undefined and
    a defined one is wrapped around the tensor the interpreter returned.
    An output traced as requiring grad is bound to the node of the next
    stage, the same single node for all of them; any other output is a leaf
    that does not require grad.  The node of the next stage is made if and
    only if some output is traced as requiring grad. *)
Theorem stage_outputs_wrapped self inputs h self' h' res :
  InterpreterAutogradFunction_apply self inputs h = (self', h', inr res) ->
  exists details tinputs interp toutputs,
    stage_details_ self !! stage_ self = Some details
    /\ runOneStage (if keep_graph_ self then clone (interp_ self) else interp_ self)
         tinputs = (interp, inr toutputs)
    /\ length (outputs res) = length (output_flags details)
    /\ (next_stage res = None <->
        existsb vf_requires_grad (output_flags details) = false)
    /\ forall i fl t v,
         output_flags details !! i = Some fl ->
         toutputs !! i = Some t ->
         outputs res !! i = Some v ->
         match v with
         | None => t = None
         | Some impl =>
             t = Some (v_data impl)
             /\ if vf_requires_grad fl
                then exists id gf,
                       next_stage res = Some (id, gf) /\ v_grad_fn impl = Some id
                else v_grad_fn impl = None /\ v_requires_grad impl = false
         end.
Proof.
  intros H.
  apply apply_ok_wrapped in H as (details & tinputs & interp & toutputs
                                    & Hd & Hr & Hl & Hw).
  exists details, tinputs, interp, toutputs.
  split; [exact Hd|]. split; [exact Hr|].
  pose proof (wrap_stage_outputs_spec self' interp inputs details toutputs
                (output_flags details) None h Hl) as Hspec.
  pose proof (wrap_stage_outputs_no_node self' interp inputs details toutputs
                (output_flags details) h) as Hnone.
  pose proof (wrap_stage_outputs_makes_node self' interp inputs details toutputs
                (output_flags details) None h Hl) as Hsome.
  rewrite Hw in Hspec, Hnone, Hsome. simpl in *.
  destruct Hspec as [Hlen Hall].
  split; [exact Hlen|]. split; [|exact Hall].
  split; [|exact Hnone].
  intros Hn. destruct (existsb vf_requires_grad (output_flags details)); [|reflexivity].
  destruct (Hsome (or_introl eq_refl)) as [x Hx]. congruence.
Qed.

Lemma input_edges_length inputs details :
  forall i h,
    length (input_edges inputs details i h).1 =
    length (List.filter (differentiated details) (seq i (length inputs))).
Proof.
  induction inputs as [|input inputs IH]; intros i h; [reflexivity|].
  cbn [input_edges length seq List.filter]. unfold differentiated at 1.
  destruct (default false (used_inputs details !! i)); simpl; [|apply IH].
  destruct (default false (vf_requires_grad <$> input_flags details !! i)); simpl;
    [|apply IH].
  destruct input as [impl|].
  - destruct (v_requires_grad impl).
    + destruct (match v_grad_fn impl with
                | Some g => (Some g, h)
                | None => Variable_grad_accumulator impl h
                end) as [fn h1].
      specialize (IH (S i) h1).
      destruct (input_edges inputs details (S i) h1) as [es h2].
      simpl in *. congruence.
    + specialize (IH (S i) h).
      destruct (input_edges inputs details (S i) h) as [es h2].
      simpl in *. congruence.
  - specialize (IH (S i) h).
    destruct (input_edges inputs details (S i) h) as [es h2].
    simpl in *. congruence.
Qed.

(** X11: the edges of the node of the next stage, when that stage was
    compiled.  The edges copied from the current node come first, one per
    entry of copied_next_fns of the next stage and in that order; they are
    followed by one edge per input that the trace uses and differentiates.
    The number of edges is fixed by the trace and the number of inputs: it
    does not depend on whether the live inputs are defined or require
    grad. *)
Theorem next_stage_edges self interp inputs details h next_details :
  stage_details_ self !! S (stage_ self) = Some next_details ->
  let gf := (make_grad_fn self interp inputs details h).1 in
  length (next_functions (iaf_function gf)) =
    (length (copied_next_fns next_details)
     + length (List.filter (differentiated details) (seq 0 (length inputs))))%nat
  /\ forall k idx e,
       copied_next_fns next_details !! k = Some idx ->
       next_functions (iaf_function self) !! idx = Some e ->
       next_functions (iaf_function gf) !! k = Some e.
Proof.
  intros Hnext. unfold make_grad_fn.
  replace (stage_ self + 1)%nat with (S (stage_ self)) by lia.
  assert (Hs : S (stage_ self) <> length (stage_details_ self)).
  { apply lookup_lt_Some in Hnext. lia. }
  apply Nat.eqb_neq in Hs. rewrite Hs, Hnext. simpl.
  pose proof (input_edges_length inputs details 0 h) as Hlen.
  destruct (input_edges inputs details 0 h) as [edges h']. simpl in *.
  split.
  - rewrite length_app, length_map. f_equal. exact Hlen.
  - intros k idx e Hk He.
    rewrite lookup_app_l by (rewrite length_map; eapply lookup_lt_Some; eauto).
    rewrite list_lookup_fmap, Hk. simpl. f_equal.
    unfold Edge, shared_fn in *. rewrite He. reflexivity.
Qed.

End StageOutputs.

Lemma stage_outputs_wrapped_witness :
  let x := Stub.leaf (Stub.cpu_float [2] 1) true 0%nat in
  exists self' h' res details,
    InterpreterAutogradFunction_apply (Stub.stage_node 0 false) [Some x]
      Stub.graph_heap = (self', h', inr res)
    /\ length (outputs res) = length (output_flags details).
Proof.
  intros x.
  destruct (InterpreterAutogradFunction_apply (Stub.stage_node 0 false) [Some x]
              Stub.graph_heap) as [[self' h'] [e|res]] eqn:E;
    [vm_compute in E; discriminate|].
  destruct (stage_outputs_wrapped _ _ _ _ _ _ E)
    as (details & tinputs & interp & toutputs & _ & _ & Hlen & _).
  exists self', h', res, details. split; [reflexivity | exact Hlen].
Defined.

Lemma next_stage_edges_witness :
  let x := Stub.leaf (Stub.cpu_float [2] 1) true 0%nat in
  length (next_functions (iaf_function
            (make_grad_fn (Stub.stage_node 0 false) 1%nat [Some x]
               {| input_flags := [mkVariableFlags true true];
                  output_flags := [mkVariableFlags true true];
                  copied_next_fns := []; used_inputs := [true] |}
               Stub.graph_heap).1)) = 1%nat.
Proof.
  intros x.
  destruct (next_stage_edges (Stub.stage_node 0 false) 1%nat [Some x]
              {| input_flags := [mkVariableFlags true true];
                 output_flags := [mkVariableFlags true true];
                 copied_next_fns := []; used_inputs := [true] |}
              Stub.graph_heap
              {| input_flags := [mkVariableFlags true false];
                 output_flags := [mkVariableFlags true true];
                 copied_next_fns := []; used_inputs := [true] |} eq_refl) as [H _].
  rewrite H. reflexivity.
Defined.

(** ** The factory of interpreter nodes *)

Lemma find_edge_spec output prev_outputs idx :
  find_edge output prev_outputs = Some idx ->
  prev_outputs !! idx = Some output
  /\ forall j, (j < idx)%nat -> prev_outputs !! j <> Some output.
Proof.
  revert idx. induction prev_outputs as [|e rest IH]; intros idx; simpl; [discriminate|].
  destruct (decide (e = output)) as [->|Hne].
  - intros [= <-]. split; [reflexivity|]. intros j Hj. lia.
  - destruct (find_edge output rest) as [i|]; [|discriminate].
    intros [= <-]. destruct (IH i eq_refl) as [Hi Hfirst].
    split; [exact Hi|]. intros [|j] Hj; simpl.
    + congruence.
    + apply Hfirst. lia.
Qed.

Lemma take_stage_inputs_spec stage inputs_it :
  exists pre,
    inputs_it = pre ++ (take_stage_inputs stage inputs_it).2
    /\ (take_stage_inputs stage inputs_it).1 =
       map (fun input => Nat.ltb 0 (input_uses input)) pre
    /\ Forall (fun input => input_stage input = stage) pre
    /\ match (take_stage_inputs stage inputs_it).2 with
       | [] => True
       | input :: _ => input_stage input <> stage
       end.
Proof.
  induction inputs_it as [|input rest IH]; simpl.
  - exists []. auto.
  - destruct (Nat.eqb_spec (input_stage input) stage) as [E|E].
    + destruct IH as (pre & H1 & H2 & H3 & H4).
      destruct (take_stage_inputs stage rest) as [used it]. simpl in *.
      exists (input :: pre). repeat split; simpl; auto; congruence.
    + exists []. simpl. auto.
Qed.

Lemma factory_stages_spec state stages :
  forall inputs_it ds,
    factory_stages state stages inputs_it = inr ds ->
    length ds = length stages
    /\ forall k stage d,
         stages !! k = Some stage -> ds !! k = Some d ->
         var_flags state !! stage = Some (input_flags d, output_flags d)
         /\ (stage = 0%nat -> copied_next_fns d = [])
         /\ ((1 <= stage)%nat ->
             exists current_outputs prev_outputs,
               output_edges state !! stage = Some current_outputs
               /\ output_edges state !! (stage - 1)%nat = Some prev_outputs
               /\ copied_next_fns d = copied_edges current_outputs prev_outputs).
Proof.
  induction stages as [|stage stages IH]; intros inputs_it ds; simpl.
  - intros [= <-]. split; [reflexivity|]. intros k s d Hk. discriminate.
  - destruct (var_flags state !! stage) as [[in_flags out_flags]|] eqn:Hf; [|discriminate].
    destruct (take_stage_inputs stage inputs_it) as [used it'].
    destruct (if Nat.leb 1 stage then _ else _) as [e|copied] eqn:Hc; [discriminate|].
    simpl.
    destruct (factory_stages state stages it') as [e|rest] eqn:Hr; [discriminate|].
    simpl. intros [= <-]. destruct (IH it' rest Hr) as [Hl Hall].
    split; [simpl; congruence|].
    intros [|k] s d Hk Hd; simpl in Hk, Hd.
    + injection Hk as <-. injection Hd as <-. simpl.
      split; [exact Hf|]. split.
      * intros ->. simpl in Hc. injection Hc as <-. reflexivity.
      * intros Hs. apply Nat.leb_le in Hs. rewrite Hs in Hc.
        destruct (output_edges state !! stage) as [cur|]; [|discriminate].
        destruct (output_edges state !! (stage - 1)%nat) as [prev|]; [|discriminate].
        injection Hc as <-. eauto.
    + apply (Hall k s d Hk Hd).
Qed.

Lemma factory_stages_returns state stages :
  Forall (fun stage =>
            (stage < length (var_flags state))%nat
            /\ ((1 <= stage)%nat -> (stage < length (output_edges state))%nat)) stages ->
  forall inputs_it, is_ok (factory_stages state stages inputs_it) = true.
Proof.
  induction 1 as [|stage stages [Hf He] _ IH]; intros inputs_it; simpl; [reflexivity|].
  destruct (lookup_lt_is_Some_2 _ _ Hf) as [[in_flags out_flags] ->].
  destruct (take_stage_inputs stage inputs_it) as [used it'].
  specialize (IH it').
  destruct stage as [|s].
  - simpl. destruct (factory_stages state stages it'); [discriminate|]. reflexivity.
  - assert (Hs : (1 <= S s)%nat) by lia.
    destruct (lookup_lt_is_Some_2 _ _ (He Hs)) as [cur Hcur].
    assert (Hp : (S s - 1 < length (output_edges state))%nat) by (specialize (He Hs); lia).
    destruct (lookup_lt_is_Some_2 _ _ Hp) as [prev Hprev].
    cbn [Nat.leb]. rewrite Hcur, Hprev. simpl.
    destruct (factory_stages state stages it'); [discriminate|]. reflexivity.
Qed.

(** The used flags of the stages from [a] on, from an iterator whose
    inputs are sorted by stage and belong to the stages still to do. *)
Lemma factory_stages_used state n :
  forall a inputs_it ds,
    factory_stages state (seq a n) inputs_it = inr ds ->
    StronglySorted le (map input_stage inputs_it) ->
    Forall (fun input => (a <= input_stage input < a + n)%nat) inputs_it ->
    concat (map used_inputs ds) =
    map (fun input => Nat.ltb 0 (input_uses input)) inputs_it.
Proof.
  induction n as [|n IH]; intros a inputs_it ds; simpl.
  - intros [= <-] _ Hall. destruct inputs_it as [|input rest]; [reflexivity|].
    inversion Hall; subst. lia.
  - destruct (var_flags state !! a) as [[in_flags out_flags]|]; [|discriminate].
    destruct (take_stage_inputs_spec a inputs_it) as (pre & Hsplit & Hused & Hpre & Hnext).
    destruct (take_stage_inputs a inputs_it) as [used it']. simpl in *.
    destruct (if Nat.leb 1 a then _ else _) as [e|copied]; [discriminate|].
    simpl.
    destruct (factory_stages state (seq (S a) n) it') as [e|rest] eqn:Hr; [discriminate|].
    simpl. intros [= <-] Hsorted Hall. simpl.
    subst inputs_it. rewrite map_app, Hused. f_equal.
    rewrite map_app in Hsorted.
    apply Forall_app in Hall as [_ Hall].
    assert (Hs' : StronglySorted le (map input_stage it')).
    { clear -Hsorted. induction pre as [|x pre IHp]; simpl in *; [exact Hsorted|].
      apply StronglySorted_inv in Hsorted as [Hsorted _]. auto. }
    apply (IH (S a) it' rest Hr Hs').
    destruct it' as [|input it'']; [constructor|].
    inversion_clear Hall as [|? ? Hin Hrest].
    simpl in Hs'. apply StronglySorted_inv in Hs' as [_ Hle].
    assert (Hgt : (S a <= input_stage input)%nat) by lia.
    constructor; [lia|].
    apply List.Forall_forall. intros y Hy.
    pose proof (proj1 (List.Forall_forall _ _) Hrest y Hy) as Hy1.
    pose proof (proj1 (List.Forall_forall _ _) Hle (input_stage y)
                  (in_map input_stage _ _ Hy)) as Hy2.
    simpl in Hy1. lia.
Qed.

Section FactoryFacts.

Context {L : NumericLibrary} {I : Interpreter L}.
Context {Code : Type} (Code_new : Graph -> Code)
        (InterpreterState_new : Code -> InterpreterState).

Lemma factory_new_inr state f :
  InterpreterFunctionFactory_new Code_new state = inr f ->
  factory_stages state (seq 0 (graph_stage (ts_graph state) + 1))
    (graph_inputs (ts_graph state)) = inr (factory_stage_details_ f).
Proof.
  unfold InterpreterFunctionFactory_new.
  destruct (factory_stages _ _ _) as [e|ds]; [discriminate|].
  simpl. intros [= <-]. reflexivity.
Qed.

(** X12: the factory of a trace whose last stage is N, built from a tracing
    state that records flags and output edges for the stages 0 to N, is
    constructed; it describes N + 1 stages, the flags of each stage being
    those recorded for it, and the node it constructs is a node of stage 0
    that has not been used, so that the stage-limit check of apply passes
    on it. *)
Theorem factory_describes_every_stage state :
  (graph_stage (ts_graph state) < length (var_flags state))%nat ->
  (graph_stage (ts_graph state) < length (output_edges state))%nat ->
  exists f,
    InterpreterFunctionFactory_new Code_new state = inr f
    /\ length (factory_stage_details_ f) = S (graph_stage (ts_graph state))
    /\ (forall stage d,
          factory_stage_details_ f !! stage = Some d ->
          var_flags state !! stage = Some (input_flags d, output_flags d))
    /\ let node := construct InterpreterState_new f in
       stage_ node = 0%nat /\ used_ node = false
       /\ (stage_ node < length (stage_details_ node))%nat.
Proof.
  intros Hf He.
  pose proof (factory_stages_returns state (seq 0 (graph_stage (ts_graph state) + 1)))
    as Hret.
  assert (Hok : is_ok (factory_stages state (seq 0 (graph_stage (ts_graph state) + 1))
                         (graph_inputs (ts_graph state))) = true).
  { apply Hret. apply List.Forall_forall. intros s Hs. apply in_seq in Hs. lia. }
  unfold InterpreterFunctionFactory_new.
  destruct (factory_stages _ _ _) as [e|ds] eqn:Hds; [discriminate|].
  simpl. eexists. split; [reflexivity|]. simpl.
  destruct (factory_stages_spec _ _ _ _ Hds) as [Hlen Hall].
  rewrite length_seq in Hlen.
  split; [lia|]. split.
  - intros stage d Hd.
    assert (Hlt : (stage < graph_stage (ts_graph state) + 1)%nat).
    { apply lookup_lt_Some in Hd. lia. }
    apply (Hall stage stage d); [|exact Hd].
    rewrite lookup_seq. split; [reflexivity | exact Hlt].
  - repeat split. lia.
Qed.

(** X13: the indices the factory records in copied_next_fns.  Stage 0 has
    none.  For a later stage every recorded index is a position in the
    output edges of the previous stage, the edge at that position is an
    output edge of the stage itself, and it is the first position of the
    previous stage that holds that edge. *)
Theorem copied_next_fns_in_range state f stage d :
  InterpreterFunctionFactory_new Code_new state = inr f ->
  factory_stage_details_ f !! stage = Some d ->
  (stage = 0%nat -> copied_next_fns d = [])
  /\ forall idx,
       idx ∈ copied_next_fns d ->
       exists current_outputs prev_outputs e,
         output_edges state !! stage = Some current_outputs
         /\ output_edges state !! (stage - 1)%nat = Some prev_outputs
         /\ prev_outputs !! idx = Some e
         /\ e ∈ current_outputs
         /\ forall j, (j < idx)%nat -> prev_outputs !! j <> Some e.
Proof.
  intros Hnew Hd. apply factory_new_inr in Hnew.
  destruct (factory_stages_spec _ _ _ _ Hnew) as [Hlen Hall].
  rewrite length_seq in Hlen.
  assert (Hlt : (stage < graph_stage (ts_graph state) + 1)%nat).
  { apply lookup_lt_Some in Hd. lia. }
  destruct (Hall stage stage d) as (_ & H0 & H1); [|exact Hd|].
  { rewrite lookup_seq. split; [reflexivity | exact Hlt]. }
  split; [exact H0|].
  intros idx Hidx.
  destruct stage as [|s]; [rewrite (H0 eq_refl) in Hidx; inversion Hidx|].
  destruct (H1 ltac:(lia)) as (cur & prev & Hc & Hp & Hcopied).
  rewrite Hcopied in Hidx. unfold copied_edges in Hidx.
  apply list_elem_of_omap in Hidx as (e & He & Hfind).
  apply find_edge_spec in Hfind as [Hat Hfirst].
  exists cur, prev, e. auto.
Qed.

(** X14: when the inputs of the graph are sorted by stage and belong to
    the stages of the trace, the used flags of the stages, taken in stage
    order, are the inputs of the graph in order, each flagged as used iff
    it has a use: no input is skipped and none is counted twice. *)
Theorem used_inputs_cover_graph_inputs state f :
  InterpreterFunctionFactory_new Code_new state = inr f ->
  StronglySorted le (map input_stage (graph_inputs (ts_graph state))) ->
  Forall (fun input => (input_stage input <= graph_stage (ts_graph state))%nat)
    (graph_inputs (ts_graph state)) ->
  concat (map used_inputs (factory_stage_details_ f)) =
  map (fun input => Nat.ltb 0 (input_uses input)) (graph_inputs (ts_graph state)).
Proof.
  intros Hnew Hsorted Hall. apply factory_new_inr in Hnew.
  apply (factory_stages_used state _ 0 _ _ Hnew Hsorted).
  eapply Forall_impl; [exact Hall|]. simpl. intros input Hi. lia.
Qed.

End FactoryFacts.

Lemma factory_describes_every_stage_witness :
  exists f,
    InterpreterFunctionFactory_new StubTrace.Code_new
      StubTrace.state = inr f
    /\ length (factory_stage_details_ f) = 2%nat.
Proof.
  destruct (factory_describes_every_stage (I := Stub.interpreter) StubTrace.Code_new
              StubTrace.InterpreterState_new StubTrace.state)
    as (f & Hf & Hlen & _); [simpl; lia | simpl; lia |].
  exists f. split; [exact Hf | exact Hlen].
Defined.

Lemma copied_next_fns_in_range_witness :
  exists f d,
    InterpreterFunctionFactory_new StubTrace.Code_new
      StubTrace.state = inr f
    /\ factory_stage_details_ f !! 1%nat = Some d
    /\ copied_next_fns d = [1%nat]
    /\ forall idx, idx ∈ copied_next_fns d ->
         exists prev_outputs e,
           output_edges StubTrace.state !! 0%nat = Some prev_outputs
           /\ prev_outputs !! idx = Some e.
Proof.
  destruct (InterpreterFunctionFactory_new StubTrace.Code_new
              StubTrace.state) as [e|f] eqn:E; [vm_compute in E; discriminate|].
  destruct (factory_stage_details_ f !! 1%nat) as [d|] eqn:Hd;
    [|vm_compute in E; injection E as <-; discriminate].
  exists f, d. split; [reflexivity|]. split; [exact Hd|]. split.
  - vm_compute in E. injection E as <-. vm_compute in Hd. injection Hd as <-.
    reflexivity.
  - intros idx Hidx.
    destruct (copied_next_fns_in_range StubTrace.Code_new
                StubTrace.state f 1 d E Hd) as [_ H].
    destruct (H idx Hidx) as (cur & prev & e & _ & Hp & He & _).
    exists prev, e. split; [exact Hp | exact He].
Defined.

Lemma used_inputs_cover_graph_inputs_witness :
  exists f,
    InterpreterFunctionFactory_new StubTrace.Code_new
      StubTrace.state = inr f
    /\ concat (map used_inputs (factory_stage_details_ f)) = [true; false].
Proof.
  destruct (InterpreterFunctionFactory_new StubTrace.Code_new
              StubTrace.state) as [e|f] eqn:E; [vm_compute in E; discriminate|].
  exists f. split; [reflexivity|].
  rewrite (used_inputs_cover_graph_inputs StubTrace.Code_new
             StubTrace.state f E).
  - reflexivity.
  - simpl. repeat constructor.
  - simpl. repeat constructor.
Defined.

(** ** The copy lists of tensors and storages *)

Section CopyDispatch.

Context {World : Type} (PyType_IsSubtype : PyTypeObject -> PyTypeObject -> bool).

Implicit Types (v pre post : THPCopyList World) (it : THPCopyInfo World).
Implicit Types (dst src : PyObject) (st : PyState World).

Lemma tryTHPCopy_cons it v dst src want bc st :
  tryTHPCopy PyType_IsSubtype (it :: v) dst src want bc st =
  if serves PyType_IsSubtype src want it then run_entry it dst src bc st
  else tryTHPCopy PyType_IsSubtype v dst src want bc st.
Proof. destruct it. reflexivity. Qed.

Lemma tryTHPCopy_none v dst src want bc st :
  Forall (fun it => serves PyType_IsSubtype src want it = false) v ->
  tryTHPCopy PyType_IsSubtype v dst src want bc st = (inr false, st).
Proof.
  induction 1 as [|it v Hit _ IH]; [reflexivity|].
  rewrite tryTHPCopy_cons, Hit. exact IH.
Qed.

Lemma tryTHPCopy_first pre it post dst src want bc st :
  Forall (fun it' => serves PyType_IsSubtype src want it' = false) pre ->
  serves PyType_IsSubtype src want it = true ->
  tryTHPCopy PyType_IsSubtype (pre ++ it :: post) dst src want bc st =
  run_entry it dst src bc st.
Proof.
  induction 1 as [|it' pre Hit' _ IH]; intros Hit; simpl app.
  - rewrite tryTHPCopy_cons, Hit. reflexivity.
  - rewrite tryTHPCopy_cons, Hit'. apply IH, Hit.
Qed.

Lemma run_entry_not_false it dst src bc st st' :
  run_entry it dst src bc st <> (inr false, st').
Proof.
  unfold run_entry. destruct (copy it dst src bc st) as [[e|[]] st1]; discriminate.
Qed.

(** Either no entry serves the request, or a first one does. *)
Lemma first_serving v src want :
  Forall (fun it => serves PyType_IsSubtype src want it = false) v
  \/ exists pre it post,
       v = pre ++ it :: post
       /\ Forall (fun it' => serves PyType_IsSubtype src want it' = false) pre
       /\ serves PyType_IsSubtype src want it = true.
Proof.
  induction v as [|it v IH]; [left; constructor|].
  destruct (serves PyType_IsSubtype src want it) eqn:Hit.
  - right. exists [], it, v. auto.
  - destruct IH as [IH|(pre & it' & post & -> & Hpre & Hit')].
    + left. constructor; assumption.
    + right. exists (it :: pre), it', post. repeat split; auto.
Qed.

Lemma tryTHPCopy_false_iff v dst src want bc st st' :
  tryTHPCopy PyType_IsSubtype v dst src want bc st = (inr false, st') <->
  Forall (fun it => serves PyType_IsSubtype src want it = false) v /\ st' = st.
Proof.
  split.
  - intros H. destruct (first_serving v src want)
      as [Hnone|(pre & it & post & -> & Hpre & Hit)].
    + rewrite (tryTHPCopy_none _ dst src want bc st Hnone) in H.
      injection H as <-. auto.
    + rewrite (tryTHPCopy_first _ _ _ dst src want bc st Hpre Hit) in H.
      exfalso. eapply run_entry_not_false; eauto.
  - intros [Hnone ->]. apply tryTHPCopy_none, Hnone.
Qed.

Lemma THPCopy_first pre it post dst src want bc st :
  Forall (fun it' => serves PyType_IsSubtype src want it' = false) pre ->
  serves PyType_IsSubtype src want it = true ->
  THPCopy PyType_IsSubtype (pre ++ it :: post) dst src want bc st =
  run_entry it dst src bc st.
Proof.
  intros Hpre Hit. unfold THPCopy.
  rewrite (tryTHPCopy_first _ _ _ dst src want bc st Hpre Hit).
  pose proof (run_entry_not_false it dst src bc st) as Hnf.
  destruct (run_entry it dst src bc st) as [[e|[]] st1]; try reflexivity.
  exfalso. apply (Hnf st1). reflexivity.
Qed.

(** X15: the copy that THPCopy runs.  The first entry of the list that was
    registered with the requested asyncness, for a type the source is an
    instance of, is the one whose copy function runs; it is called once,
    with the broadcast flag of the caller, and THPCopy reports success
    unless it throws.  The entries after it, the entries of the other
    asyncness and the broadcast flags of the registrations play no role. *)
Theorem copy_runs_first_match pre it post dst src want bc st :
  Forall (fun it' => serves PyType_IsSubtype src want it' = false) pre ->
  serves PyType_IsSubtype src want it = true ->
  THPCopy PyType_IsSubtype (pre ++ it :: post) dst src want bc st =
  match copy it dst src bc st with
  | (inl e, st') => (inl e, st')
  | (inr _, st') => (inr true, st')
  end.
Proof. intros Hpre Hit. apply (THPCopy_first _ _ _ _ _ _ _ _ Hpre Hit). Qed.

(** X16: an asynchronous request that no asynchronous entry serves falls
    back to the synchronous entries: the first synchronous entry for a
    type of the source runs, as for a synchronous request. *)
Theorem async_copy_falls_back v pre it post dst src bc st :
  Forall (fun it' => serves PyType_IsSubtype src true it' = false) v ->
  v = pre ++ it :: post ->
  Forall (fun it' => serves PyType_IsSubtype src false it' = false) pre ->
  serves PyType_IsSubtype src false it = true ->
  THPCopy PyType_IsSubtype v dst src true bc st =
  THPCopy PyType_IsSubtype v dst src false bc st
  /\ THPCopy PyType_IsSubtype v dst src true bc st =
     match copy it dst src bc st with
     | (inl e, st') => (inl e, st')
     | (inr _, st') => (inr true, st')
     end.
Proof.
  intros Hnone -> Hpre Hit.
  rewrite (THPCopy_first _ _ _ dst src false bc st Hpre Hit).
  assert (H : THPCopy PyType_IsSubtype (pre ++ it :: post) dst src true bc st =
              run_entry it dst src bc st).
  { unfold THPCopy.
    rewrite (tryTHPCopy_none _ dst src true bc st Hnone).
    rewrite (tryTHPCopy_first _ _ _ dst src false bc st Hpre Hit).
    pose proof (run_entry_not_false it dst src bc st) as Hnf.
    destruct (run_entry it dst src bc st) as [[e|[]] st1]; try reflexivity.
    exfalso. apply (Hnf st1). reflexivity. }
  split; exact H.
Qed.

(** X17: THPCopy reports failure exactly when no entry serves the request:
    none with the requested asyncness and, for an asynchronous request,
    none of the synchronous ones either.  In that case no copy function has
    run: the state is the one of the call with the Python error set to
    "copy from <source type> to <destination type> isn't implemented". *)
Theorem copy_not_implemented v dst src want bc st st' :
  THPCopy PyType_IsSubtype v dst src want bc st = (inr false, st') <->
  Forall (fun it => serves PyType_IsSubtype src want it = false) v
  /\ Forall (fun it => serves PyType_IsSubtype src false it = false) v
  /\ st' = THPUtils_setError (not_implemented dst src) st.
Proof.
  unfold THPCopy. split.
  - intros H.
    destruct (tryTHPCopy PyType_IsSubtype v dst src want bc st)
      as [[e|[]] st1] eqn:H1; try discriminate.
    apply tryTHPCopy_false_iff in H1 as [Hw ->].
    destruct want.
    + destruct (tryTHPCopy PyType_IsSubtype v dst src false bc st)
        as [[e|[]] st2] eqn:H2; try discriminate.
      apply tryTHPCopy_false_iff in H2 as [Hs ->].
      injection H as <-. auto.
    + injection H as <-. auto.
  - intros (Hw & Hs & ->).
    rewrite (tryTHPCopy_none _ dst src want bc st Hw).
    destruct want; [rewrite (tryTHPCopy_none _ dst src false bc st Hs)|]; reflexivity.
Qed.

Lemma tryTHPCopy_filter v dst src want bc st (keep : THPCopyInfo World -> bool) :
  (forall it, serves PyType_IsSubtype src want it = true -> keep it = true) ->
  tryTHPCopy PyType_IsSubtype (List.filter keep v) dst src want bc st =
  tryTHPCopy PyType_IsSubtype v dst src want bc st.
Proof.
  intros Hkeep. induction v as [|it v IH]; [reflexivity|].
  cbn [List.filter]. rewrite (tryTHPCopy_cons it v).
  destruct (serves PyType_IsSubtype src want it) eqn:Hit.
  - rewrite (Hkeep it Hit), tryTHPCopy_cons, Hit. reflexivity.
  - destruct (keep it); [rewrite tryTHPCopy_cons, Hit|]; exact IH.
Qed.

(** X18: a synchronous request never runs a copy function that was
    registered as asynchronous: with the asynchronous entries removed from
    the list, THPCopy does the same. *)
Theorem sync_copy_ignores_async_entries v dst src bc st :
  THPCopy PyType_IsSubtype (List.filter (fun it => negb (async it)) v)
    dst src false bc st =
  THPCopy PyType_IsSubtype v dst src false bc st.
Proof.
  unfold THPCopy. rewrite tryTHPCopy_filter; [reflexivity|].
  intros it. unfold serves. destruct (async it); [discriminate | reflexivity].
Qed.

Lemma tryTHPCopy_app_served v extra dst src want bc st :
  existsb (serves PyType_IsSubtype src want) v = true ->
  tryTHPCopy PyType_IsSubtype (v ++ extra) dst src want bc st =
  tryTHPCopy PyType_IsSubtype v dst src want bc st.
Proof.
  induction v as [|it v IH]; [discriminate|].
  simpl existsb. simpl app. rewrite !tryTHPCopy_cons.
  destruct (serves PyType_IsSubtype src want it); [reflexivity|]. exact IH.
Qed.

End CopyDispatch.

Section CopyRegistration.

Context {World : Type} (PyType_IsSubtype : PyTypeObject -> PyTypeObject -> bool).
Context {Args Kwargs : Type}
        (PyArg_ParseTupleAndKeywords :
           Args -> Kwargs -> string -> list string -> PyState World ->
           option (PyObject * list (option Z)) * PyState World).
Context {Dst Src : Type}
        (cdata_dst : PyObject -> Dst) (cdata_src : PyObject -> Src)
        (pyType_src : PyTypeObject).
Context (newForExpand : World -> Src * World)
        (free_guard : Src -> World -> World)
        (expand_inplace1 : Src -> Src -> Dst -> World -> World * option exception).

Implicit Types (v : THPCopyList World) (st : PyState World).
Implicit Types (copyFunc : CopyFunc (World := World) (Dst := Dst) (Src := Src)).

Lemma THPCopy_app_served v extra dst src want bc st :
  existsb (serves PyType_IsSubtype src want) v = true ->
  THPCopy PyType_IsSubtype (v ++ extra) dst src want bc st =
  THPCopy PyType_IsSubtype v dst src want bc st.
Proof.
  intros Hs. unfold THPCopy.
  rewrite (tryTHPCopy_app_served _ v extra dst src want bc st Hs).
  destruct (tryTHPCopy PyType_IsSubtype v dst src want bc st)
    as [[e|[]] st1] eqn:H1; try reflexivity.
  apply tryTHPCopy_false_iff in H1 as [Hnone _].
  exfalso. clear -Hs Hnone.
  induction Hnone as [|it v Hit _ IH]; [discriminate|].
  simpl in Hs. rewrite Hit in Hs. auto.
Qed.

(** X19: registering a copy function never takes a request away from the
    entries that are already there.  When an entry of the list serves a
    request with the requested asyncness, THPCopy does the same on the list
    extended by THPInsertStorageCopyFunction or THPInsertTensorCopyFunction
    as on the list itself, whatever is registered. *)
Theorem registration_keeps_priority v dst src want bc st copyFunc a b :
  existsb (serves PyType_IsSubtype src want) v = true ->
  THPCopy PyType_IsSubtype
    (THPInsertStorageCopyFunction cdata_dst cdata_src pyType_src v copyFunc a)
    dst src want bc st =
  THPCopy PyType_IsSubtype v dst src want bc st
  /\ THPCopy PyType_IsSubtype
       (THPInsertTensorCopyFunction cdata_dst cdata_src pyType_src
          newForExpand free_guard expand_inplace1 v copyFunc a b)
       dst src want bc st =
     THPCopy PyType_IsSubtype v dst src want bc st.
Proof.
  intros Hs. split; apply THPCopy_app_served, Hs.
Qed.

(** X20: what the copy_ methods return.  When the arguments parse, the
    method returns the object it was called on, with its reference count
    raised by one and no other count changed, if THPCopy succeeds, and
    NULL, with every count as THPCopy left it, if THPCopy finds no copy
    function; it never returns another object.  The storage method asks
    for a copy without broadcast whatever the caller passes; the tensor
    method asks for broadcast unless the caller passes 0. *)
Theorem copy_method_result v self args kwargs st :
  (forall src ints st1 r st',
     PyArg_ParseTupleAndKeywords args kwargs "O|ii:copy_"
       ["source"; "async"; "broadcast"] st = (Some (src, ints), st1) ->
     THPTensorCopyMethod PyType_IsSubtype PyArg_ParseTupleAndKeywords
       v self args kwargs st = (inr r, st') ->
     let want := negb (Z.eqb (parsed_int ints 0 0) 0) in
     let bc := negb (Z.eqb (parsed_int ints 1 1) 0) in
     (ints !! 1%nat = None -> bc = true)
     /\ exists ok st2,
          THPCopy PyType_IsSubtype v self src want bc st1 = (inr ok, st2)
          /\ r = (if ok then Some self else None)
          /\ ob_refcnt st' =
             (if ok
              then <[ob_id self := default 0 (ob_refcnt st2 !! ob_id self) + 1]>
                     (ob_refcnt st2)
              else ob_refcnt st2))
  /\ (forall src ints st1 r st',
        PyArg_ParseTupleAndKeywords args kwargs "O|i:copy_"
          ["source"; "async"] st = (Some (src, ints), st1) ->
        THPStorageCopyMethod PyType_IsSubtype PyArg_ParseTupleAndKeywords
          v self args kwargs st = (inr r, st') ->
        let want := negb (Z.eqb (parsed_int ints 0 0) 0) in
        exists ok st2,
          THPCopy PyType_IsSubtype v self src want false st1 = (inr ok, st2)
          /\ r = (if ok then Some self else None)
          /\ ob_refcnt st' =
             (if ok
              then <[ob_id self := default 0 (ob_refcnt st2 !! ob_id self) + 1]>
                     (ob_refcnt st2)
              else ob_refcnt st2)).
Proof.
  split.
  - intros src ints st1 r st' Ht H want bc.
    unfold THPTensorCopyMethod in H. rewrite Ht in H. split.
    { intros Hnone. subst bc. unfold parsed_int. rewrite Hnone. reflexivity. }
    fold want bc in H.
    destruct (THPCopy PyType_IsSubtype v self src want bc st1) as [[e|[]] st2];
      revert H; intros [= <- <-]; eexists _, st2; split; try reflexivity; auto.
  - intros src ints st1 r st' Hs H want.
    unfold THPStorageCopyMethod in H. rewrite Hs in H. fold want in H.
    destruct (THPCopy PyType_IsSubtype v self src want false st1) as [[e|[]] st2];
      revert H; intros [= <- <-]; eexists _, st2; split; try reflexivity; auto.
Qed.

(** X21: the wrappers registered for tensors and storages.  Whether the
    copy returns or throws, the thread holds the interpreter lock again
    when the wrapper is left, and the reference counts and the error
    indicator are those of the call.  A wrapper throws only what the copy
    function throws: a source that cannot be expanded to the destination
    is copied as it is.  Without broadcast the tensor wrapper copies the
    source it was given, on the data as the creation of the guard tensor
    left it. *)
Theorem copy_wrappers_restore_lock copyFunc dst_ src_ bc st :
  let storage := storage_copy_wrapper cdata_dst cdata_src copyFunc dst_ src_ bc st in
  let tensor :=
    tensor_copy_wrapper cdata_dst cdata_src newForExpand free_guard expand_inplace1
      copyFunc dst_ src_ bc st in
  (gil_held storage.2 = true /\ ob_refcnt storage.2 = ob_refcnt st
   /\ error_indicator storage.2 = error_indicator st)
  /\ (gil_held tensor.2 = true /\ ob_refcnt tensor.2 = ob_refcnt st
      /\ error_indicator tensor.2 = error_indicator st)
  /\ (forall e, storage.1 = inl e ->
        (copyFunc (cdata_dst dst_) (cdata_src src_) (world st)).2 = Some e)
  /\ (forall e, tensor.1 = inl e ->
        exists src w, (copyFunc (cdata_dst dst_) src w).2 = Some e)
  /\ (bc = false ->
      let made := newForExpand (world st) in
      let copied := copyFunc (cdata_dst dst_) (cdata_src src_) made.2 in
      world tensor.2 = free_guard made.1 copied.1
      /\ tensor.1 = match copied.2 with Some e => inl e | None => inr tt end).
Proof.
  intros storage tensor. subst storage tensor.
  unfold storage_copy_wrapper, tensor_copy_wrapper, copy_unblocked.
  split; [|split; [|split; [|split]]].
  - simpl. destruct (copyFunc _ _ _) as [w [e|]]; simpl; auto.
  - destruct (newForExpand (world st)) as [guard w0].
    destruct bc.
    + simpl. destruct (expand_inplace1 _ _ _ _) as [w1 [e1|]]; simpl;
        destruct (copyFunc _ _ _) as [w [e|]]; simpl; auto.
    + simpl. destruct (copyFunc _ _ _) as [w [e|]]; simpl; auto.
  - intros e. simpl. destruct (copyFunc _ _ _) as [w [e'|]]; simpl; congruence.
  - intros e. destruct (newForExpand (world st)) as [guard w0].
    destruct bc.
    + simpl. destruct (expand_inplace1 _ _ _ _) as [w1 [e1|]]; simpl;
        destruct (copyFunc _ _ _) as [w [e'|]] eqn:Hc; simpl; intros [=]; subst;
          eexists _, _; rewrite Hc; reflexivity.
    + simpl. destruct (copyFunc _ _ _) as [w [e'|]] eqn:Hc; simpl; intros [=]; subst.
      eexists _, _. rewrite Hc. reflexivity.
  - intros ->. destruct (newForExpand (world st)) as [guard w0]. simpl.
    destruct (copyFunc _ _ _) as [w [e'|]]; simpl; auto.
Qed.

End CopyRegistration.

Lemma copy_runs_first_match_witness :
  (THPCopy StubCopy.is_subtype ([StubCopy.async_double_entry] ++ [StubCopy.float_entry])
     StubCopy.a StubCopy.b false true StubCopy.state0).1 = inr true
  /\ world (THPCopy StubCopy.is_subtype
              ([StubCopy.async_double_entry] ++ [StubCopy.float_entry])
              StubCopy.a StubCopy.b false true StubCopy.state0).2 !! 1%nat =
     Some [7; 7; 7].
Proof.
  rewrite (copy_runs_first_match StubCopy.is_subtype [StubCopy.async_double_entry]
             StubCopy.float_entry [] StubCopy.a StubCopy.b false true StubCopy.state0).
  - split; reflexivity.
  - repeat constructor.
  - reflexivity.
Defined.

Lemma async_copy_falls_back_witness :
  (THPCopy StubCopy.is_subtype StubCopy.float_copies
     StubCopy.a StubCopy.b true false StubCopy.state0).1 = inr true.
Proof.
  destruct (async_copy_falls_back StubCopy.is_subtype StubCopy.float_copies []
              StubCopy.float_entry [] StubCopy.a StubCopy.b false StubCopy.state0)
    as [_ H].
  - repeat constructor.
  - reflexivity.
  - constructor.
  - reflexivity.
  - rewrite H. reflexivity.
Defined.

Lemma copy_not_implemented_witness :
  THPCopy StubCopy.is_subtype StubCopy.float_copies
    StubCopy.a StubCopy.c true true StubCopy.state0 =
  (inr false,
   THPUtils_setError
     "copy from torch.DoubleTensor to torch.FloatTensor isn't implemented"
     StubCopy.state0).
Proof.
  apply (copy_not_implemented StubCopy.is_subtype StubCopy.float_copies
           StubCopy.a StubCopy.c true true StubCopy.state0).
  split; [|split].
  - repeat constructor.
  - repeat constructor.
  - reflexivity.
Defined.

Lemma registration_keeps_priority_witness :
  THPCopy StubCopy.is_subtype
    (THPInsertTensorCopyFunction StubCopy.cdata StubCopy.cdata StubCopy.FloatTensor
       StubCopy.new_for_expand StubCopy.free_slot StubCopy.expand_slot
       StubCopy.float_copies
       (fun _ _ w => (w, Some (runtime_error "never"))) false true)
    StubCopy.a StubCopy.b false true StubCopy.state0 =
  THPCopy StubCopy.is_subtype StubCopy.float_copies
    StubCopy.a StubCopy.b false true StubCopy.state0.
Proof.
  apply (registration_keeps_priority StubCopy.is_subtype StubCopy.cdata StubCopy.cdata
           StubCopy.FloatTensor StubCopy.new_for_expand StubCopy.free_slot
           StubCopy.expand_slot StubCopy.float_copies StubCopy.a StubCopy.b
           false true StubCopy.state0).
  reflexivity.
Defined.

Lemma copy_method_result_witness :
  exists st',
    THPTensorCopyMethod StubCopy.is_subtype StubCopy.parse StubCopy.float_copies
      StubCopy.a (StubCopy.b, [None; None]) tt StubCopy.state0 =
    (inr (Some StubCopy.a), st')
    /\ ob_refcnt st' !! 1%nat = Some 2.
Proof.
  destruct (THPTensorCopyMethod StubCopy.is_subtype StubCopy.parse
              StubCopy.float_copies StubCopy.a (StubCopy.b, [None; None]) tt
              StubCopy.state0) as [[e|r] st'] eqn:E; [vm_compute in E; discriminate|].
  destruct (copy_method_result StubCopy.is_subtype StubCopy.parse
              StubCopy.float_copies StubCopy.a (StubCopy.b, [None; None]) tt
              StubCopy.state0) as [Ht _].
  destruct (Ht StubCopy.b [None; None] StubCopy.state0 r st' eq_refl E)
    as (_ & ok & st2 & Hcopy & -> & Hcnt).
  destruct ok; [|vm_compute in Hcopy; discriminate].
  exists st'. split; [reflexivity|].
  rewrite Hcnt. vm_compute in Hcopy. injection Hcopy as <-. reflexivity.
Defined.

Lemma copy_wrappers_restore_lock_witness :
  gil_held
    (tensor_copy_wrapper StubCopy.cdata StubCopy.cdata StubCopy.new_for_expand
       StubCopy.free_slot StubCopy.expand_slot StubCopy.copy_slot
       StubCopy.a StubCopy.c true StubCopy.state0).2 = true
  /\ (tensor_copy_wrapper StubCopy.cdata StubCopy.cdata StubCopy.new_for_expand
        StubCopy.free_slot StubCopy.expand_slot StubCopy.copy_slot
        StubCopy.a StubCopy.c true StubCopy.state0).1 =
     inl (runtime_error "no source").
Proof.
  destruct (copy_wrappers_restore_lock StubCopy.cdata StubCopy.cdata
              StubCopy.new_for_expand StubCopy.free_slot StubCopy.expand_slot
              StubCopy.copy_slot StubCopy.a StubCopy.c true StubCopy.state0)
    as (_ & (Hgil & _) & _).
  split; [exact Hgil | reflexivity].
Defined.

(** ** The double backward of a convolution *)


Section DoubleBackwardFacts.

Context {L : NumericLibrary} {F : AutogradFunctions L}.

Implicit Types (self : ConvBackwardBackward) (s : OpState).
Implicit Types (grad_grad_inputs : list (Var TensorImpl ValueTracingState)).

Lemma obind_inr {A B} (m : Ops A) (k : A -> Ops B) s b s' :
  obind m k s = (inr b, s') ->
  exists a s1, m s = (inr a, s1) /\ k a s1 = (inr b, s').
Proof.
  unfold obind. destruct (m s) as [[e|a] s1]; [discriminate|]. eauto.
Qed.

Lemma obind_ok {A B} (m : Ops A) (k : A -> Ops B) s a s1 :
  m s = (inr a, s1) -> obind m k s = k a s1.
Proof. unfold obind. intros ->. reflexivity. Qed.

Lemma obind_throw {A B} (m : Ops A) (k : A -> Ops B) s e s1 :
  m s = (inl e, s1) -> obind m k s = (inl e, s1).
Proof. unfold obind. intros ->. reflexivity. Qed.

Lemma applies_oret {A} P (a : A) : applies P (oret a).
Proof. intros s. exists []. simpl. rewrite app_nil_r. auto. Qed.

Lemma applies_othrow {A} P e : applies P (@othrow L A e).
Proof. intros s. exists []. simpl. rewrite app_nil_r. auto. Qed.

Lemma applies_olift {A} P (r : result A) : applies P (olift r).
Proof. intros s. exists []. simpl. rewrite app_nil_r. auto. Qed.

Lemma applies_ounpack P g : applies P (ounpack g).
Proof. intros s. exists []. simpl. rewrite app_nil_r. auto. Qed.

Lemma applies_var_tensor P what v : applies P (var_tensor what v).
Proof. destruct v; [apply applies_oret | apply applies_othrow]. Qed.

Lemma applies_apply_fn (P : OpCall -> Prop) op vs :
  P (op, vs) -> applies P (apply_fn op vs).
Proof.
  intros HP s. exists [(op, vs)]. unfold apply_fn.
  destruct (apply_op op vs (op_heap s)) as [r h']. simpl. auto.
Qed.

Lemma applies_obind {A B} P (m : Ops A) (k : A -> Ops B) :
  applies P m -> (forall a, applies P (k a)) -> applies P (obind m k).
Proof.
  intros Hm Hk s. unfold obind.
  destruct (Hm s) as (new1 & E1 & F1).
  destruct (m s) as [[e|a] s1]; simpl in *.
  - exists new1. auto.
  - destruct (Hk a s1) as (new2 & E2 & F2).
    exists (new1 ++ new2). rewrite E2, E1, app_assoc.
    split; [reflexivity | apply Forall_app; auto].
Qed.

Lemma applies_ofor_each {A} P (gs : list Z) (body : Z -> Ops A) :
  (forall g, applies P (body g)) -> applies P (ofor_each gs body).
Proof.
  intros Hb. induction gs as [|g gs IH]; simpl.
  - apply applies_oret.
  - apply applies_obind; [apply Hb|]. intros x.
    apply applies_obind; [apply IH|]. intros xs. apply applies_oret.
Qed.

Ltac applies_walk :=
  repeat first
    [ apply applies_oret
    | apply applies_othrow
    | apply applies_olift
    | apply applies_ounpack
    | apply applies_var_tensor
    | apply applies_obind; [|intros ?]
    | apply applies_ofor_each; intros ?
    | match goal with
      | |- applies _ (if ?b then _ else _) => destruct b eqn:?
      | |- applies _ (match ?x with _ => _ end) => destruct x eqn:?
      end ].

Lemma applies_var_sizes P what v : applies P (var_sizes what v).
Proof. unfold var_sizes. applies_walk. Qed.

Lemma applies_contiguous_if_cuda (P : OpCall -> Prop) what x :
  (forall vs, P (Contiguous, vs)) -> applies P (contiguous_if_cuda what x).
Proof.
  intros HP. unfold contiguous_if_cuda. applies_walk. apply applies_apply_fn, HP.
Qed.

Lemma applies_subvariable (P : OpCall -> Prop) v dim groups g :
  (forall d a b vs, P (Narrow d a b, vs)) -> applies P (subvariable v dim groups g).
Proof.
  intros HP. unfold subvariable.
  apply applies_obind; [apply applies_var_sizes|]. intros sz.
  apply applies_apply_fn, HP.
Qed.

Lemma applies_narrow_to_weight (P : OpCall -> Prop) dims gW_size w_size :
  (forall d a b vs, P (Narrow d a b, vs)) ->
  forall gW, applies P (narrow_to_weight dims gW_size w_size gW).
Proof.
  intros HP. induction dims as [|i dims IH]; intros gW; simpl.
  - apply applies_oret.
  - destruct (Z.gtb _ _); [|apply IH].
    apply applies_obind; [apply applies_apply_fn, HP|]. intros gW'. apply IH.
Qed.

Lemma applies_grouped_conv params conv_params groups x x_dim gOt cat_dim :
  double_backward_conv params (ConvForwardOp conv_params, []) ->
  applies (double_backward_conv params)
    (grouped_conv conv_params groups x x_dim gOt cat_dim).
Proof.
  intros Hconv. unfold grouped_conv.
  destruct (Z.eqb groups 1).
  - apply applies_obind; [apply applies_contiguous_if_cuda; intros; exact I|].
    intros g1. apply applies_apply_fn. exact Hconv.
  - destruct (Z.ltb groups 0); [apply applies_othrow|].
    apply applies_obind.
    + apply applies_ofor_each. intros g.
      apply applies_obind; [apply applies_subvariable; intros; exact I|]. intros x_g.
      apply applies_obind; [apply applies_subvariable; intros; exact I|]. intros g_g.
      apply applies_obind; [apply applies_contiguous_if_cuda; intros; exact I|].
      intros g1. apply applies_apply_fn. exact Hconv.
    + intros list. apply applies_apply_fn. exact I.
Qed.

Lemma fix_output_padding_frame ks ins gos k i q :
  let q' := fix_output_padding ks ins gos k i q in
  stride q' = stride q /\ padding q' = padding q /\ dilation q' = dilation q
  /\ transposed q' = transposed q /\ groups q' = groups q
  /\ length (output_padding q') = length (output_padding q).
Proof.
  unfold fix_output_padding. destruct (negb _); simpl; repeat split; auto.
  apply length_insert.
Qed.

Lemma fold_fix_output_padding_frame ks ins gos dims :
  forall q,
    let q' := fold_left (fun q i => fix_output_padding ks ins gos i i q) dims q in
    stride q' = stride q /\ padding q' = padding q /\ dilation q' = dilation q
    /\ transposed q' = transposed q /\ groups q' = groups q
    /\ length (output_padding q') = length (output_padding q).
Proof.
  induction dims as [|i dims IH]; intros q; simpl; [repeat split; auto|].
  destruct (IH (fix_output_padding ks ins gos i i q)) as (H1 & H2 & H3 & H4 & H5 & H6).
  destruct (fix_output_padding_frame ks ins gos i i q) as (G1 & G2 & G3 & G4 & G5 & G6).
  simpl in *. repeat split; congruence.
Qed.

Lemma gi_output_padding_frame q ks ins gos :
  let q' := gi_output_padding q ks ins gos in
  stride q' = stride q /\ padding q' = padding q /\ dilation q' = dilation q
  /\ transposed q' = transposed q /\ groups q' = groups q
  /\ length (output_padding q') = length (output_padding q).
Proof.
  unfold gi_output_padding. destruct (Nat.eqb _ 1).
  - apply fix_output_padding_frame.
  - apply fold_fix_output_padding_frame.
Qed.

(** X24: the convolutions a double backward applies.  Whatever the inputs
    and whether it returns or throws, every ConvForward that
    ConvBackwardBackward::apply applies has either the parameters of the
    node itself (the two terms of ggO), or a single group, the padding of
    the node and its stride and dilation exchanged (the terms of gW and gI,
    which handle the groups themselves); of the latter, those that are not
    transposed keep the output padding of the node. *)
Theorem double_backward_convolutions self grad_grad_inputs :
  applies (double_backward_conv (cbb_params self))
    (ConvBackwardBackward_apply self grad_grad_inputs).
Proof.
  unfold ConvBackwardBackward_apply.
  assert (Hself : forall vs, double_backward_conv (cbb_params self)
                               (ConvForwardOp (cbb_params self), vs)).
  { intros vs. left. reflexivity. }
  assert (Hgw : double_backward_conv (cbb_params self)
                  (ConvForwardOp (swap_stride_dilation (with_groups (cbb_params self) 1)),
                   [])).
  { right. simpl. repeat split; auto. }
  apply applies_obind; [apply applies_olift|]. intros _.
  destruct (transposed (cbb_params self)) eqn:Htr; [apply applies_othrow|].
  apply applies_obind; [apply applies_ounpack|]. intros gO.
  apply applies_obind; [apply applies_ounpack|]. intros weight.
  apply applies_obind; [apply applies_ounpack|]. intros input.
  apply applies_obind; [apply applies_var_tensor|]. intros _.
  apply applies_obind.
  { destruct (defined _); [|apply applies_oret].
    apply applies_obind; [apply applies_contiguous_if_cuda; intros; exact I|]. intros w1.
    apply applies_obind; [apply applies_apply_fn, Hself|]. intros ggO. apply applies_oret. }
  intros [ggO weight1].
  apply applies_obind.
  { destruct (defined _); [|apply applies_oret].
    apply applies_obind; [apply applies_contiguous_if_cuda; intros; exact I|]. intros w1.
    apply applies_obind; [apply applies_ounpack|]. intros input2.
    apply applies_obind; [apply applies_apply_fn, Hself|]. intros term.
    destruct (defined ggO); [|apply applies_oret].
    apply applies_obind; [apply applies_apply_fn; exact I|]. intros sum.
    apply applies_oret. }
  intros [ggO1 ggW1].
  apply applies_obind.
  { destruct (defined _); [|apply applies_oret].
    apply applies_obind; [apply applies_var_sizes|]. intros gO_sizes.
    apply applies_obind; [apply applies_var_sizes|]. intros ggb_sizes.
    apply applies_obind; [apply applies_apply_fn; exact I|]. intros c1.
    apply applies_obind; [apply applies_apply_fn; exact I|]. intros c2.
    apply applies_obind; [apply applies_apply_fn; exact I|]. intros c3.
    destruct (defined ggO1); [apply applies_apply_fn; exact I | apply applies_oret]. }
  intros ggO2.
  apply applies_obind.
  { destruct (defined _); [|apply applies_oret].
    apply applies_obind; [apply applies_apply_fn; exact I|]. intros gOt.
    apply applies_obind; [apply applies_apply_fn; exact I|]. intros ggIt.
    apply applies_obind.
    { apply applies_grouped_conv.
      right. simpl. repeat split; auto. }
    intros gWt.
    apply applies_obind; [apply applies_apply_fn; exact I|]. intros gW.
    apply applies_obind; [apply applies_var_sizes|]. intros gW_size.
    apply applies_obind; [apply applies_var_sizes|]. intros w_size.
    apply applies_narrow_to_weight. intros; exact I. }
  intros gW.
  apply applies_obind.
  { destruct (defined _); [|apply applies_oret].
    apply applies_obind; [apply applies_var_sizes|]. intros w_size.
    apply applies_obind; [apply applies_var_sizes|]. intros input_size.
    apply applies_obind; [apply applies_var_sizes|]. intros gO_size.
    apply applies_obind; [apply applies_apply_fn; exact I|]. intros ggWt.
    apply applies_obind; [apply applies_apply_fn; exact I|]. intros gOt.
    apply applies_obind.
    { apply applies_grouped_conv.
      destruct (gi_output_padding_frame
                  (swap_stride_dilation (with_transposed (cbb_params self) true))
                  (drop 2 w_size) (drop 2 input_size) (drop 2 gO_size))
        as (H1 & H2 & H3 & H4 & H5 & H6).
      right. simpl in *. repeat split; auto.
      rewrite H4. discriminate. }
    intros gIt. apply applies_apply_fn. exact I. }
  intros gI. apply applies_oret.
Qed.

End DoubleBackwardFacts.



Lemma expected_input_shape_frame q1 q2 ks gos k i :
  stride q1 = stride q2 -> padding q1 = padding q2 -> dilation q1 = dilation q2 ->
  expected_input_shape q1 ks gos k i = expected_input_shape q2 ks gos k i.
Proof. unfold expected_input_shape. intros -> -> ->. reflexivity. Qed.

Lemma fix_output_padding_other ks ins gos k i q j :
  i <> j ->
  output_padding (fix_output_padding ks ins gos k i q) !! j = output_padding q !! j.
Proof.
  intros Hij. unfold fix_output_padding. destruct (negb _); [|reflexivity].
  simpl. apply list_lookup_insert_ne. exact Hij.
Qed.

Lemma to_int_small x : - 2 ^ 31 <= x < 2 ^ 31 -> to_int x = x.
Proof. intros Hx. unfold to_int. rewrite Z.mod_small by lia. lia. Qed.

Lemma fix_output_padding_at ks ins gos k i q :
  output_padding q !! i = Some 0 ->
  output_padding (fix_output_padding ks ins gos k i q) !! i =
  Some (to_int (nth k ins 0 - expected_input_shape q ks gos k i)).
Proof.
  intros Hi. unfold fix_output_padding.
  destruct (Z.eqb_spec (expected_input_shape q ks gos k i) (nth k ins 0)) as [E|E]; simpl.
  - rewrite Hi. f_equal. rewrite E, Z.sub_diag. reflexivity.
  - apply list_lookup_insert_eq. eapply lookup_lt_Some. exact Hi.
Qed.

Lemma fold_fix_output_padding_other ks ins gos dims j :
  j ∉ dims ->
  forall q,
    output_padding
      (fold_left (fun q i => fix_output_padding ks ins gos i i q) dims q) !! j =
    output_padding q !! j.
Proof.
  induction dims as [|i dims IH]; intros Hj q; simpl; [reflexivity|].
  apply not_elem_of_cons in Hj as [Hne Hj].
  rewrite (IH Hj). apply fix_output_padding_other. congruence.
Qed.

Lemma fold_fix_output_padding_at ks ins gos dims k :
  NoDup dims -> k ∈ dims ->
  forall q,
    output_padding q !! k = Some 0 ->
    output_padding
      (fold_left (fun q i => fix_output_padding ks ins gos i i q) dims q) !! k =
    Some (to_int (nth k ins 0 - expected_input_shape q ks gos k k)).
Proof.
  induction dims as [|i dims IH]; intros Hnd Hk q Hq; [inversion Hk|].
  apply NoDup_cons in Hnd as [Hi Hnd]. simpl.
  destruct (decide (i = k)) as [->|Hne].
  - rewrite (fold_fix_output_padding_other _ _ _ _ _ Hi).
    apply fix_output_padding_at, Hq.
  - apply elem_of_cons in Hk as [Hk|Hk]; [congruence|].
    destruct (fix_output_padding_frame ks ins gos i i q) as (G1 & G2 & G3 & _).
    rewrite (IH Hnd Hk).
    + f_equal. f_equal. f_equal. apply expected_input_shape_frame; assumption.
    + rewrite fix_output_padding_other by exact Hne. exact Hq.
Qed.

Lemma gi_output_padding_at q ks ins gos k :
  let i := if Nat.eqb (length ks) 1 then 1%nat else k in
  (k < length ks)%nat ->
  output_padding q !! i = Some 0 ->
  output_padding (gi_output_padding q ks ins gos) !! i =
  Some (to_int (nth k ins 0 - expected_input_shape q ks gos k i)).
Proof.
  intros i Hk Hi. unfold gi_output_padding. subst i.
  destruct (Nat.eqb_spec (length ks) 1) as [E|E].
  - assert (k = 0%nat) as -> by lia. apply fix_output_padding_at, Hi.
  - apply fold_fix_output_padding_at; [apply NoDup_seq | | exact Hi].
    apply elem_of_seq. lia.
Qed.

Section OutputPadding.

Context {L : NumericLibrary}.

(** X25: the output padding chosen for the gradient of the input.  For a
    node without output padding, in every spatial dimension lines 646-668
    store the difference between the size of the input and the size the
    transposed convolution is expected to give, converted to an int; when
    the difference fits in an int, the expected size plus the stored output
    padding is the size of the input.  When grad_output has the size the
    forward gives for that input (stride positive and in the range of int,
    kernel not larger than the padded input), the stored value is at least
    0 and less than the stride of the node, and restores the size of the
    input.  For kernels of two or more spatial dimensions, when moreover
    the extent of grad_output under the stride of the node fits in an int,
    output_size of the parameters handed to ConvForward is the size of the
    input in that dimension, for any operands with these kernel and
    grad_output shapes. *)
Theorem gi_output_padding_restores_input_shape p ks ins gos k :
  let q := swap_stride_dilation (with_transposed p true) in
  let q' := gi_output_padding q ks ins gos in
  let i := if Nat.eqb (length ks) 1 then 1%nat else k in
  let missing := nth k ins 0 - expected_input_shape q ks gos k i in
  (k < length ks)%nat ->
  output_padding p !! i = Some 0 ->
  nth i (output_padding q') 0 = to_int missing
  /\ (- 2 ^ 31 <= missing < 2 ^ 31 ->
      expected_input_shape q ks gos k i + nth i (output_padding q') 0 = nth k ins 0)
  /\ (let room :=
        nth k ins 0 + 2 * nth i (padding p) 0
        - (nth i (dilation p) 0 * (nth k ks 0 - 1) + 1) in
      0 < nth i (stride p) 0 < 2 ^ 31 -> 0 <= room ->
      nth k gos 0 = Z.quot room (nth i (stride p) 0) + 1 ->
      0 <= nth i (output_padding q') 0 < nth i (stride p) 0
      /\ expected_input_shape q ks gos k i + nth i (output_padding q') 0 = nth k ins 0)
  /\ (length ks <> 1%nat ->
      - 2 ^ 31 <= missing < 2 ^ 31 ->
      - 2 ^ 31 <= nth k (stride p) 0 * (nth k gos 0 - 1) + 1 < 2 ^ 31 ->
      forall x w : TensorImpl,
        drop 2 (sizes x) = ks -> drop 2 (sizes w) = gos ->
        nth (2 + k) (output_size (with_groups q' 1) x w) 0 = nth k ins 0).
Proof.
  intros q q' i missing Hk Hi.
  assert (Hat : output_padding q' !! i = Some (to_int missing)).
  { apply (gi_output_padding_at q ks ins gos k Hk). exact Hi. }
  assert (Hnth : nth i (output_padding q') 0 = to_int missing).
  { apply nth_lookup_Some. exact Hat. }
  split; [exact Hnth|]. split; [|split].
  - intros Hfit. rewrite Hnth, to_int_small by exact Hfit. subst missing. lia.
  - intros room Hs Hroom Hgo.
    assert (Hmiss : 0 <= missing < nth i (stride p) 0).
    { subst missing. unfold expected_input_shape. simpl. rewrite Hgo.
      rewrite Z.quot_div_nonneg by lia.
      replace (room / nth i (stride p) 0 + 1 - 1)
        with (room / nth i (stride p) 0) by lia.
      pose proof (Z.div_mod room (nth i (stride p) 0) ltac:(lia)) as Hdm.
      pose proof (Z.mod_pos_bound room (nth i (stride p) 0) ltac:(lia)) as Hmod.
      subst room. nia. }
    rewrite Hnth, to_int_small by lia. subst missing. lia.
  - intros Hlen Hfit Hext x w Hx Hw.
    assert (i = k) as Hik.
    { subst i. destruct (Nat.eqb_spec (length ks) 1); [contradiction | reflexivity]. }
    rewrite to_int_small in Hnth by exact Hfit. subst missing.
    rewrite Hik in *.
    destruct (gi_output_padding_frame q ks ins gos) as (G1 & G2 & G3 & G4 & _).
    fold q' in G1, G2, G3, G4.
    unfold output_size. cbn [nth Nat.add].
    assert (Hdim : (k < length (sizes x) - 2)%nat).
    { rewrite <- Hx, length_drop in Hk. exact Hk. }
    erewrite (nth_indep (map _ _)) by (rewrite length_map, length_seq; exact Hdim).
    rewrite (map_nth _ _ 0%nat), seq_nth by exact Hdim.
    cbn [with_groups transposed stride padding dilation output_padding].
    rewrite G4. simpl transposed.
    replace (2 + k - 2)%nat with k by lia.
    rewrite Hnth. unfold expected_input_shape.
    rewrite G1, G2, G3.
    assert (Hgo : nth (2 + k) (sizes w) 0 = nth k gos 0).
    { rewrite <- Hw, !nth_lookup, lookup_drop. reflexivity. }
    assert (Hks : nth (2 + k) (sizes x) 0 = nth k ks 0).
    { rewrite <- Hx, !nth_lookup, lookup_drop. reflexivity. }
    rewrite Hgo, Hks. simpl dilation. simpl stride.
    rewrite to_int_small by exact Hext. lia.
Qed.

End OutputPadding.

Section DoubleBackwardMore.

Context {L : NumericLibrary} {F : AutogradFunctions L}.

Implicit Types (self : ConvBackwardBackward) (s : OpState).
Implicit Types (grad_grad_inputs : list (Var TensorImpl ValueTracingState)).

(** X22: what ConvBackwardBackward::apply refuses before it applies any
    function.  Once the arity check has passed, a transposed convolution
    fails with the runtime error "ConvBackwardBackward does not support
    transposed convolution", before any guard is unpacked and therefore
    also on a released node; a convolution that is not transposed, on a
    node that was released with a populated guard for grad_output, the
    weight or the input, fails with ReusedAfterReleaseError.  In both cases
    the heap and the record of applied functions are left as they were. *)
Theorem double_backward_refusals self grad_grad_inputs s :
  (check_input_variables "ConvNdBackwardBackward" grad_grad_inputs 3 0 []).1 = inr tt ->
  (transposed (cbb_params self) = true ->
   ConvBackwardBackward_apply self grad_grad_inputs s =
   (inl (runtime_error "ConvBackwardBackward does not support transposed convolution"), s)
   /\ ConvBackwardBackward_apply (ConvBackwardBackward_releaseVariables self)
        grad_grad_inputs s =
      (inl (runtime_error "ConvBackwardBackward does not support transposed convolution"), s))
  /\ (transposed (cbb_params self) = false ->
      defined (version (cbb_grad_output_ self))
      || defined (version (cbb_weight_ self))
      || defined (version (cbb_input_ self)) = true ->
      ConvBackwardBackward_apply (ConvBackwardBackward_releaseVariables self)
        grad_grad_inputs s =
      (inl ReusedAfterReleaseError, s)).
Proof.
  intros Hc. split.
  - intros Ht. unfold ConvBackwardBackward_apply, obind, olift. simpl.
    rewrite Hc, Ht. split; reflexivity.
  - intros Ht Hv. unfold ConvBackwardBackward_apply, obind, olift, ounpack.
    cbn [ConvBackwardBackward_releaseVariables cbb_params cbb_grad_output_
           cbb_weight_ cbb_input_].
    rewrite Hc, Ht, !unpack_data_reset.
    destruct (defined (version (cbb_grad_output_ self))); [reflexivity|].
    destruct (defined (version (cbb_weight_ self))); [reflexivity|].
    destruct (defined (version (cbb_input_ self))); [reflexivity|].
    discriminate.
Qed.

(** X23: undefined inputs of a double backward.  When apply returns, gW is
    undefined if ggI is undefined and gI is undefined if ggW is undefined;
    when ggI, ggW and ggb are all undefined the three results are undefined
    and no function has been applied: the state is the one of the call. *)
Theorem double_backward_undefined_inputs self grad_grad_inputs s ggO gI gW s' :
  ConvBackwardBackward_apply self grad_grad_inputs s = (inr (ggO, gI, gW), s') ->
  let ggI := default None (grad_grad_inputs !! 0%nat) in
  let ggW := default None (grad_grad_inputs !! 1%nat) in
  let ggb := default None (grad_grad_inputs !! 2%nat) in
  (ggI = None -> gW = None)
  /\ (ggW = None -> gI = None)
  /\ (ggI = None -> ggW = None -> ggb = None -> ggO = None /\ s' = s).
Proof.
  intros H ggI ggW ggb. unfold ConvBackwardBackward_apply in H.
  fold ggI ggW ggb in H.
  apply obind_inr in H as (? & s0 & Hc & H). injection Hc as _ <-.
  destruct (transposed (cbb_params self)); [discriminate|].
  apply obind_inr in H as (gO & s1 & HgO & H).
  assert (s1 = s) as -> by (unfold ounpack in HgO; congruence).
  apply obind_inr in H as (weight & s2 & Hw & H).
  assert (s2 = s) as -> by (unfold ounpack in Hw; congruence).
  apply obind_inr in H as (input & s3 & Hi & H).
  assert (s3 = s) as -> by (unfold ounpack in Hi; congruence).
  apply obind_inr in H as (ti & s4 & Hti & H).
  assert (s4 = s) as ->.
  { unfold var_tensor, oret, othrow in Hti. destruct input; congruence. }
  apply obind_inr in H as ([ggO1 w1] & s5 & H1 & H).
  apply obind_inr in H as ([ggO2 ggW2] & s6 & H2 & H).
  apply obind_inr in H as (ggO3 & s7 & H3 & H).
  apply obind_inr in H as (gW' & s8 & H4 & H).
  apply obind_inr in H as (gI' & s9 & H5 & H).
  injection H as <- <- <- <-.
  split; [|split].
  - intros E. rewrite E in H4. unfold oret in H4. simpl in H4. congruence.
  - intros E. rewrite E in H2. unfold oret in H2. simpl in H2.
    injection H2 as _ <- _. unfold oret in H5. simpl in H5. congruence.
  - intros E1 E2 E3. rewrite E1 in H1, H4. rewrite E2 in H2. rewrite E3 in H3.
    unfold oret in *. simpl in H1, H2, H4.
    injection H1 as <- <- <-. injection H2 as <- <- <-. simpl in H3, H5.
    injection H3 as <- <-. injection H4 as <- <-. injection H5 as <- <-. auto.
Qed.

End DoubleBackwardMore.

Lemma double_backward_refusals_witness :
  ConvBackwardBackward_apply
    (StubOps.double_backward_node
       (with_transposed (Stub.conv2d_params 1) true)
       (Stub.cpu_float [1; 4; 8; 8] 1) (Stub.cpu_float [4; 4; 3; 3] 2)
       (Stub.cpu_float [1; 4; 8; 8] 3))
    [None; None; None] StubOps.state0 =
  (inl (runtime_error "ConvBackwardBackward does not support transposed convolution"),
   StubOps.state0).
Proof.
  destruct (double_backward_refusals
              (StubOps.double_backward_node
                 (with_transposed (Stub.conv2d_params 1) true)
                 (Stub.cpu_float [1; 4; 8; 8] 1) (Stub.cpu_float [4; 4; 3; 3] 2)
                 (Stub.cpu_float [1; 4; 8; 8] 3))
              [None; None; None] StubOps.state0 eq_refl) as [H _].
  apply H. reflexivity.
Defined.

Lemma double_backward_undefined_inputs_witness :
  let ggI := Stub.leaf (Stub.cpu_float [1; 4; 8; 8] 4) true 0%nat in
  exists ggO gW s',
    ConvBackwardBackward_apply
      (StubOps.double_backward_node (Stub.conv2d_params 1)
         (Stub.cpu_float [1; 4; 8; 8] 1) (Stub.cpu_float [4; 4; 3; 3] 2)
         (Stub.cpu_float [1; 4; 8; 8] 3))
      [Some ggI; None; None] StubOps.state0 = (inr (ggO, None, gW), s').
Proof.
  intros ggI.
  destruct (ConvBackwardBackward_apply
              (StubOps.double_backward_node (Stub.conv2d_params 1)
                 (Stub.cpu_float [1; 4; 8; 8] 1) (Stub.cpu_float [4; 4; 3; 3] 2)
                 (Stub.cpu_float [1; 4; 8; 8] 3))
              [Some ggI; None; None] StubOps.state0)
    as [[e|[[ggO gI] gW]] s'] eqn:E; [vm_compute in E; discriminate|].
  destruct (double_backward_undefined_inputs _ _ _ _ _ _ _ E) as (_ & HgI & _).
  rewrite (HgI eq_refl). exists ggO, gW, s'. reflexivity.
Defined.

Lemma gi_output_padding_restores_input_shape_witness :
  let p :=
    {| stride := [2; 2]; padding := [1; 1]; dilation := [1; 1];
       transposed := false; output_padding := [0; 0]; groups := 1;
       benchmark := false; deterministic := false; cudnn_enabled := true |} in
  let q' :=
    gi_output_padding (swap_stride_dilation (with_transposed p true))
      [3; 3] [8; 8] [4; 4] in
  output_padding q' = [1; 1]
  /\ 0 <= nth 1 (output_padding q') 0 < 2.
Proof.
  intros p q'. split; [reflexivity|].
  destruct (gi_output_padding_restores_input_shape (L := Stub.library)
              p [3; 3] [8; 8] [4; 4] 1) as (_ & _ & H & _);
    [simpl; lia | reflexivity |].
  cbv zeta in H.
  destruct H as [Hr _]; [simpl; lia | simpl; lia | reflexivity | exact Hr].
Defined.

(** ** A backward with nothing to compute *)

Section NothingRequested.

Context {L : NumericLibrary} (cfg : BuildConfig).

(** X26: a backward that is asked for no gradient.  On the depthwise and
    on the cuDNN path ConvBackward::apply then makes no call into the
    library and returns three undefined gradients. *)
Theorem nothing_requested_no_call (self : ConvBackward)
    (input weight grad_output : TensorImpl) (bias : Tensor TensorImpl) log :
  is_depthwise (cb_params self) input weight (groups (cb_params self))
  || use_cudnn cfg (cb_params self) input = true ->
  ConvBackward_dispatch cfg self input weight grad_output bias
    (false, false, false) log = (inr (None, None, None), log).
Proof.
  intros H. unfold ConvBackward_dispatch.
  destruct (is_depthwise _ _ _ _); [reflexivity|].
  simpl in H. rewrite H.
  assert (Hc : WITH_CUDNN cfg = true).
  { unfold use_cudnn in H. destruct (WITH_CUDNN cfg); [reflexivity | discriminate]. }
  rewrite Hc. reflexivity.
Qed.

End NothingRequested.

Lemma nothing_requested_no_call_witness :
  ConvBackward_dispatch Stub.cudnn_build
    (Stub.conv_backward_node (Stub.conv2d_params 1)
       (Stub.cuda_float [1; 4; 8; 8] 1) (Stub.cuda_float [4; 4; 3; 3] 2)
       [false; false; false])
    (Stub.cuda_float [1; 4; 8; 8] 1) (Stub.cuda_float [4; 4; 3; 3] 2)
    (Stub.cuda_float [1; 4; 8; 8] 3) None (false, false, false) [] =
  (inr (None, None, None), []).
Proof.
  apply (nothing_requested_no_call (L := Stub.library) Stub.cudnn_build).
  reflexivity.
Defined.
